(** * cfd_sureli: replay memory, optimisation steps and training drivers

    A shallow embedding of the reinforcement-learning agents of the
    repository (DQN, SAC, TD3) and of their training drivers.

    - Python objects that are mutated in place (the replay memory, the
      networks, the optimizers, the counters of a model) are record fields
      threaded through the functions: a method becomes a function from the
      object before the call to the object after it.
    - Python floats are idealised as rationals ([Q]); numeric results are
      compared with [==].
    - Neural networks and optimizers belong to the numeric framework: their
      parameters are an abstract type, a forward pass is a function of the
      parameters, and a gradient step takes the loss as a function of the
      parameters it optimises.  They are the fields of one [Framework]
      record per agent.
    - An exception is a value: code that can raise returns a [result].
      Exceptions come out of method calls and of operations that fail; an
      interrupt that falls between two assignments is not modelled.
    - The drivers talk to the environment and to the model through method
      calls only; they are written in a state-and-exception monad over an
      abstract world, with a trace of the calls the claims are about. *)

From stdpp Require Import base list gmap strings.
From Stdlib Require Import ZArith QArith Qminmax Qabs Lia Lqa.

Local Open Scope nat_scope.

(** ** Python values, exceptions, tuples *)

(** The exceptions the drivers tell apart: the user's interrupt, and any
    other one. *)
Inductive exc : Type :=
  | KeyboardInterrupt
  | Error.

Inductive result (A : Type) : Type :=
  | Ok (a : A)
  | Raise (e : exc).
Arguments Ok {A} a.
Arguments Raise {A} e.

(** The values found in a transition tuple. *)
Inductive value : Type :=
  | VNone
  | VBool (b : bool)
  | VInt (z : Z)
  | VNum (q : Q)
  | VVec (v : list Q).

(** Python's [zip] over the unpacked rows: the tuples of the i-th items of
    the rows, as long as every row has one; nothing for no row at all. *)
Definition heads {A : Type} (rows : list (list A)) : option (list A) :=
  mapM head rows.

Definition tails {A : Type} (rows : list (list A)) : list (list A) :=
  fmap tail rows.

Fixpoint zip_rows {A : Type} (n : nat) (rows : list (list A))
  : list (list A) :=
  match n with
  | 0 => []
  | S n' =>
      match heads rows with
      | Some h => h :: zip_rows n' (tails rows)
      | None => []
      end
  end.

Definition zip_star {A : Type} (rows : list (list A)) : list (list A) :=
  match rows with
  | [] => []
  | r :: _ => zip_rows (length r) rows
  end.

(** [torch.FloatTensor(column)] for a column of scalars: booleans become 0
    and 1.  [None] stands for the constructor's exception. *)
Definition float_of_bool (b : bool) : Q := if b then 1%Q else 0%Q.

Definition float_scalar (v : value) : option Q :=
  match v with
  | VBool b => Some (float_of_bool b)
  | VInt z => Some (inject_Z z)
  | VNum q => Some q
  | VNone | VVec _ => None
  end.

Definition float_vector (col : list value) : option (list Q) :=
  mapM float_scalar col.

(** [torch.FloatTensor(column)] for a column of vectors, and [torch.cat] of
    a list of row tensors: the rows must have one length, a column that
    mixes vectors with numbers or vectors of different lengths raises. *)
Definition float_row (v : value) : option (list Q) :=
  match v with
  | VVec r => Some r
  | _ => None
  end.

Definition uniform (rows : list (list Q)) : bool :=
  match rows with
  | [] => true
  | r :: rest => forallb (fun r' => bool_decide (length r' = length r)) rest
  end.

Definition float_matrix (col : list value) : option (list (list Q)) :=
  rows ← mapM float_row col;
  if uniform rows then Some rows else None.

(** ** Tensor arithmetic on rationals *)

Definition Qsum (l : list Q) : Q := foldr Qplus 0%Q l.

(** [t.mean()] *)
Definition mean (l : list Q) : Q := (Qsum l / inject_Z (Z.of_nat (length l)))%Q.

(** [F.mse_loss(input, target)] *)
Definition mse_loss (input target : list Q) : Q :=
  mean (zip_with (fun a b => ((a - b) * (a - b))%Q) input target).

(** [F.smooth_l1_loss(input, target)] (Huber loss, threshold 1). *)
Definition huber (d : Q) : Q :=
  if Qle_bool 1 (Qabs d) then (Qabs d - (1 # 2))%Q else ((1 # 2) * d * d)%Q.

Definition smooth_l1_loss (input target : list Q) : Q :=
  mean (zip_with (fun a b => huber (a - b)) input target).

(** [x.clamp(lo, hi)] *)
Definition clamp (lo hi x : Q) : Q := Qmin (Qmax x lo) hi.

(** ** Random numbers

    Python's [random] and torch's generator are global mutable states; here
    the state [rng] is passed along.  [rng_next] draws a natural number,
    [rng_normal sigma n] draws [n] samples of a centred normal law. *)
Class RandomSource : Type := {
  rng : Type;
  rng_next : rng → nat * rng;
  rng_normal : Q → nat → rng → list Q * rng
}.

(** ** Replay memory *)

Module ReplayMemory.

Section Buffer.
Context {T : Type}.

(** Modelled from the spec: the class [ReplayMemory] of [commons/utils.py]
    is absent from the sources.  The buffer is "an ordered, fixed-capacity
    sequence of Transitions with a write cursor". *)
Record t : Type := mk {
  capacity : nat;
  memory : list T;
  position : nat
}.

Definition create (C : nat) : t := mk C [] 0.

(** Modelled from the spec: [len()] is absent from the sources; it is the
    "current number of stored transitions". *)
Definition len (b : t) : nat := length (memory b).

(** Modelled from the spec: [push] is absent from the sources.  "If not
    yet at capacity, length grows by one; otherwise overwrites the slot at
    the current write cursor.  Cursor advances modulo capacity." *)
Definition push (x : T) (b : t) : t :=
  {| capacity := capacity b;
     memory := if decide (length (memory b) < capacity b)
               then memory b ++ [x]
               else <[position b := x]> (memory b);
     position := (position b + 1) mod capacity b |}.

(** A sequence of pushes, oldest first. *)
Definition push_all (xs : list T) (b : t) : t :=
  fold_left (fun acc x => push x acc) xs b.

Context `{RandomSource}.

(** A draw with replacement: every item is taken from the whole pool. *)
Fixpoint draw_with_replacement (k : nat) (pool : list T) (g : rng)
  : list T * rng :=
  match k with
  | 0 => ([], g)
  | S k' =>
      let (r, g1) := rng_next g in
      match pool !! (r mod length pool) with
      | Some x =>
          let (rest, g2) := draw_with_replacement k' pool g1 in
          (x :: rest, g2)
      | None => ([], g1)
      end
  end.

(** A draw without replacement: an item taken leaves the pool. *)
Fixpoint draw_without_replacement (k : nat) (pool : list T) (g : rng)
  : list T * rng :=
  match k with
  | 0 => ([], g)
  | S k' =>
      let (r, g1) := rng_next g in
      let i := r mod length pool in
      match pool !! i with
      | Some x =>
          let (rest, g2) := draw_without_replacement k' (delete i pool) g1 in
          (x :: rest, g2)
      | None => ([], g1)
      end
  end.

(** Modelled from the spec: [sample] is absent from the sources.  "If
    current length < batch_size, returns 'not enough data' [...].
    Otherwise draws batch_size transitions uniformly at random with
    replacement or without, per configuration".  For the shape of the
    result the spec's words, "parallel sequences", are not followed: the
    callers that are in the sources, [optimize] of SAC and of TD3,
    transpose the result themselves and raise on parallel sequences, so
    that the result is the sequence of the drawn records. *)
Definition sample (replacement : bool) (batch_size : nat) (b : t) (g : rng)
  : option (list T) * rng :=
  if decide (len b < batch_size) then (None, g)
  else
    let (drawn, g') :=
      (if replacement then draw_with_replacement
       else draw_without_replacement) batch_size (memory b) g in
    (Some drawn, g').

End Buffer.

Arguments t : clear implicits.

(** The state of a buffer of capacity [C] after the pushes [xs]. *)
Record ring_inv {T : Type} (C : nat) (xs : list T) (b : t T) : Prop := {
  ri_capacity : capacity b = C;
  ri_position : position b = length xs mod C;
  ri_length : length (memory b) = length xs `min` C;
  ri_slot : ∀ j, length xs - C ≤ j < length xs →
              memory b !! (j mod C) = xs !! j;
  ri_perm : memory b ≡ₚ drop (length xs - C) xs
}.

End ReplayMemory.

(** ** Transitions *)

(** The record of the spec's data model,
    [{state, action, reward, next_state, done}]; the drivers of [commons]
    push it as a tuple of five items. *)
Record Transition : Type := mkTransition {
  state : list Q;
  action : list Q;
  reward : Q;
  next_state : list Q;
  done : bool
}.

Definition as_tuple (tr : Transition) : list value :=
  [VVec (state tr); VVec (action tr); VNum (reward tr);
   VVec (next_state tr); VBool (done tr)].

(** The states, the actions and the next states of a batch each have one
    dimension, as those of one environment have. *)
Definition well_shaped (ts : list Transition) : Prop :=
  uniform (state <$> ts) = true ∧
  uniform (action <$> ts) = true ∧
  uniform (next_state <$> ts) = true.

(** ** N-step aggregation *)

Module NStep.

(** Modelled from the spec: the discounted n-step return,
    "sum_{i=0}^{n-1} gamma^i * reward_i". *)
Fixpoint discounted_from (gamma : Q) (i : nat) (rewards : list Q) : Q :=
  match rewards with
  | [] => 0%Q
  | r :: rest =>
      (gamma ^ Z.of_nat i * r + discounted_from gamma (S i) rest)%Q
  end.

Definition discounted_return (gamma : Q) (rewards : list Q) : Q :=
  discounted_from gamma 0 rewards.

(** Modelled from the spec: the class [DQNReplayMemory] of the DQN agent's
    [utils.py] is absent from the sources.  It "maintains a bounded
    pending window of the last n raw transitions" in front of the main
    buffer. *)
Record t : Type := mk {
  main : ReplayMemory.t Transition;
  window : list Transition;
  n_step : nat;
  gamma : Q
}.

Definition create (C n : nat) (g : Q) : t :=
  mk (ReplayMemory.create C) [] n g.

(** Modelled from the spec: the aggregated transition, the discounted
    return "combined with the state at the window's head and the
    next_state at the window's tail" and "the final next_state/done". *)
Definition aggregate (g : Q) (w : list Transition) : option Transition :=
  match w with
  | [] => None
  | hd :: _ =>
      let tl := List.last w hd in
      Some {| state := state hd;
              action := action hd;
              reward := discounted_return g (fmap reward w);
              next_state := next_state tl;
              done := done tl |}
  end.

Definition push_aggregate (g : Q) (w : list Transition)
    (m : ReplayMemory.t Transition) : ReplayMemory.t Transition :=
  match aggregate g w with
  | Some tr => ReplayMemory.push tr m
  | None => m
  end.

(** Modelled from the spec: [push] of the n-step memory.  "On each new raw
    transition, if the window has n entries, it computes a discounted
    n-step return [...] and pushes that single aggregated Transition into
    the main buffer; the window then slides by one.  Early termination
    (done=True at any point inside the window) immediately aggregates an
    episode-incomplete transition using only the rewards accumulated so
    far and flushes the window." *)
Definition push (tr : Transition) (b : t) : t :=
  let w := window b ++ [tr] in
  if done tr then
    {| main := push_aggregate (gamma b) w (main b);
       window := [];
       n_step := n_step b; gamma := gamma b |}
  else if decide (n_step b ≤ length w) then
    {| main := push_aggregate (gamma b) w (main b);
       window := tail w;
       n_step := n_step b; gamma := gamma b |}
  else
    {| main := main b; window := w;
       n_step := n_step b; gamma := gamma b |}.

Definition len (b : t) : nat := ReplayMemory.len (main b).

End NStep.

(** ** TD3: [TD3/model.py] *)

Module TD3.

(** The classes [Actor] and [Critic] of [networks.py] and the function
    [update_targets] of [utils.py] are absent from the sources; they wrap
    the numeric framework and are taken as parameters.  [actor_forward]
    and [critic_forward] are a network applied to a batch;
    [actor_update] and [critic_update] are the method [update(loss)], one
    optimizer step on the network's own parameters for a loss given as a
    function of these parameters; [update_targets target nn tau] is the
    new target network.  The gradient buffers of the parameters, which
    every [update] clears before use, are not part of the state.  These
    steps are taken to return: what a step that raises leaves behind is
    not modelled, and what is said below of the networks after a call is
    said of calls that return. *)
Record Framework : Type := {
  net : Type;
  opt : Type;
  actor_forward : net → list (list Q) → list (list Q);
  critic_forward : net → list (list Q) → list (list Q) → list Q;
  actor_update : (net → Q) → net → opt → net * opt;
  critic_update : (net → Q) → net → opt → net * opt;
  update_targets : net → net → Q → net
}.

(** A network, its target copy and its optimizer. *)
Record Network (F : Framework) : Type := mkNetwork {
  nn : net F;
  target_nn : net F;
  optimizer : opt F
}.
Arguments mkNetwork {F}.
Arguments nn {F}.
Arguments target_nn {F}.
Arguments optimizer {F}.

(** The entries of [config] the model reads; [REPLACEMENT] is the
    configuration of the replay memory's draw. *)
Record config : Type := {
  BATCH_SIZE : nat;
  GAMMA : Q;
  TAU : Q;
  UPDATE_SIGMA : Q;
  UPDATE_CLIP : Q;
  REPLACEMENT : bool
}.

Record Model (F : Framework) : Type := mkModel {
  memory : ReplayMemory.t Transition;
  critic_A : Network F;
  critic_B : Network F;
  actor : Network F;
  low_bound : Q;
  high_bound : Q;
  update_step : Z
}.
Arguments mkModel {F}.
Arguments memory {F}.
Arguments critic_A {F}.
Arguments critic_B {F}.
Arguments actor {F}.
Arguments low_bound {F}.
Arguments high_bound {F}.
Arguments update_step {F}.

(** The five tensors of a batch. *)
Record Batch : Type := mkBatch {
  states : list (list Q);
  actions : list (list Q);
  rewards : list Q;
  next_states : list (list Q);
  dones : list Q
}.

(** Lines 42-49: the sampled transitions are transposed, and the five
    columns become tensors.  [None] is an exception (an index out of
    range, or a column that is no tensor). *)
Definition tensors (transitions : list (list value)) : option Batch :=
  let batch := zip_star transitions in
  c0 ← batch !! 0; s ← float_matrix c0;
  c1 ← batch !! 1; a ← float_matrix c1;
  c2 ← batch !! 2; r ← float_vector c2;
  c3 ← batch !! 3; s' ← float_matrix c3;
  c4 ← batch !! 4; d ← float_vector c4;
  Some (mkBatch s a r s' d).

(** The five parallel sequences (states, actions, rewards, next_states,
    dones) of a sequence of transitions, and their tensors. *)
Definition columns (ts : list Transition) : list (list value) :=
  [(fun tr => VVec (state tr)) <$> ts;
   (fun tr => VVec (action tr)) <$> ts;
   (fun tr => VNum (reward tr)) <$> ts;
   (fun tr => VVec (next_state tr)) <$> ts;
   (fun tr => VBool (done tr)) <$> ts].

Definition batch_of (ts : list Transition) : Batch :=
  mkBatch (state <$> ts) (action <$> ts) (reward <$> ts)
          (next_state <$> ts) (float_of_bool ∘ done <$> ts).

Section Optimize.
Context {F : Framework} `{RandomSource}.

(** [update(loss, grad_clipping=False)] on a network. *)
Definition step_critic (loss : net F → Q) (c : Network F) : Network F :=
  let (n, o) := critic_update F loss (nn c) (optimizer c) in
  mkNetwork n (target_nn c) o.

Definition step_actor (loss : net F → Q) (a : Network F) : Network F :=
  let (n, o) := actor_update F loss (nn a) (optimizer a) in
  mkNetwork n (target_nn a) o.

(** [update_targets(x.target_nn, x.nn, TAU)] *)
Definition soft_update (tau : Q) (x : Network F) : Network F :=
  mkNetwork (nn x) (update_targets F (target_nn x) (nn x) tau)
            (optimizer x).

(** Lines 56-59: the target actor's actions, with clipped noise. *)
Definition smoothed_actions (cfg : config) (m : Model F) (b : Batch)
    (noise : list Q) : list (list Q) :=
  let next_actions := actor_forward F (target_nn (actor m)) (next_states b) in
  let noise := fmap (clamp (- UPDATE_CLIP cfg) (UPDATE_CLIP cfg)) noise in
  zip_with
    (fun row n =>
       fmap (fun a => clamp (low_bound m) (high_bound m) (a + n)%Q) row)
    next_actions noise.

(** Lines 62-63: the two target critics at the next states. *)
Definition target_Qa (cfg : config) (m : Model F) (b : Batch)
    (noise : list Q) : list Q :=
  critic_forward F (target_nn (critic_A m)) (next_states b)
                 (smoothed_actions cfg m b noise).

Definition target_Qb (cfg : config) (m : Model F) (b : Batch)
    (noise : list Q) : list Q :=
  critic_forward F (target_nn (critic_B m)) (next_states b)
                 (smoothed_actions cfg m b noise).

(** Line 67: [rewards + done*GAMMA*target_Q]. *)
Definition bootstrap (gamma : Q) (rewards dones target : list Q) : list Q :=
  zip_with Qplus rewards
           (zip_with Qmult (fmap (fun d => (d * gamma)%Q) dones) target).

(** Lines 62-67: the critic target. *)
Definition target_Q (cfg : config) (m : Model F) (b : Batch)
    (noise : list Q) : list Q :=
  bootstrap (GAMMA cfg) (rewards b) (dones b)
            (zip_with Qmin (target_Qa cfg m b noise)
                           (target_Qb cfg m b noise)).

(** Lines 42-90 of [Model.optimize]: what is done with the value that
    [sample] has returned, [update_step] being counted already. *)
Definition optimize_from (cfg : config) (m : Model F) (step : Z)
    (transitions : list (list value)) (g1 : rng)
  : rng * Model F * result (option Q * option Q) :=
  let m1 := mkModel (memory m) (critic_A m) (critic_B m) (actor m)
                    (low_bound m) (high_bound m) step in
  match tensors transitions with
  | None => (g1, m1, Raise Error)
  | Some b =>
      let (noise, g2) :=
        rng_normal (UPDATE_SIGMA cfg) (BATCH_SIZE cfg) g1 in
      let target := target_Q cfg m b noise in
      let loss_A := fun n =>
        mse_loss (critic_forward F n (states b) (actions b)) target in
      let loss_B := fun n =>
        mse_loss (critic_forward F n (states b) (actions b)) target in
      let loss_critic_A := loss_A (nn (critic_A m)) in
      let cA := step_critic loss_A (critic_A m) in
      let cB := step_critic loss_B (critic_B m) in
      if decide (step mod 2 = 0)%Z then
        let loss := fun n =>
          (- mean (critic_forward F (nn cA) (states b)
                     (actor_forward F n (states b))))%Q in
        let loss_actor := loss (nn (actor m)) in
        let a := step_actor loss (actor m) in
        (g2,
         mkModel (memory m)
                 (soft_update (TAU cfg) cA)
                 (soft_update (TAU cfg) cB)
                 (soft_update (TAU cfg) a)
                 (low_bound m) (high_bound m) step,
         Ok (Some loss_actor, Some loss_critic_A))
      else
        (g2,
         mkModel (memory m) cA cB (actor m)
                 (low_bound m) (high_bound m) step,
         Ok (None, Some loss_critic_A))
  end.

(** [Model.optimize], lines 34-90.  The result is the random state and
    the model after the call, and what the call returns or raises.  The
    sampled transitions are the tuples that the driver has pushed. *)
Definition optimize (cfg : config) (g : rng) (m : Model F)
  : rng * Model F * result (option Q * option Q) :=
  if decide (ReplayMemory.len (memory m) < BATCH_SIZE cfg) then
    (g, m, Ok (None, None))
  else
    let step := (update_step m + 1)%Z in
    match ReplayMemory.sample (REPLACEMENT cfg) (BATCH_SIZE cfg)
                              (memory m) g with
    | (None, g1) =>
        (g1,
         mkModel (memory m) (critic_A m) (critic_B m) (actor m)
                 (low_bound m) (high_bound m) step,
         Raise Error)
    | (Some transitions, g1) =>
        optimize_from cfg m step (fmap as_tuple transitions) g1
    end.

(** The calls [optimize(); optimize(); ...], as long as none raises. *)
Fixpoint optimize_n (cfg : config) (n : nat) (g : rng) (m : Model F)
  : rng * Model F :=
  match n with
  | 0 => (g, m)
  | S n' =>
      let '(g1, m1, _) := optimize cfg g m in
      optimize_n cfg n' g1 m1
  end.

End Optimize.

End TD3.

(** ** SAC: [SAC/model.py] *)

Module SAC.

(** The networks of [networks.py] are absent from the sources.  [nets] is
    the block of the five networks, their optimizers and [log_alpha];
    [target_value] is [self.target_value_net] applied to a batch;
    [gradient_updates] stands for lines 63-77 and 81-108, the steps of the
    optimizers and the soft update of the target network, which are the
    numeric framework's; it is given the target of line 79, and is taken
    to return. *)
Record Framework : Type := {
  nets : Type;
  target_value : nets → list (list Q) → list Q;
  gradient_updates :
    ∀ `{RandomSource},
      bool → Q → nets → TD3.Batch → list Q → rng → nets * rng
}.

Record config : Type := {
  BATCH_SIZE : nat;
  GAMMA : Q;
  TAU : Q;
  AUTO_ALPHA : bool;
  REPLACEMENT : bool
}.

Record Model (F : Framework) : Type := mkModel {
  memory : ReplayMemory.t Transition;
  networks : nets F
}.
Arguments mkModel {F}.
Arguments memory {F}.
Arguments networks {F}.

(** Lines 54-61: the transposed sample is unpacked into exactly five
    columns, which become tensors.  [None] is an exception. *)
Definition tensors (transitions : list (list value)) : option TD3.Batch :=
  match zip_star transitions with
  | [c0; c1; c2; c3; c4] =>
      s ← float_matrix c0;
      a ← float_matrix c1;
      r ← float_vector c2;
      s' ← float_matrix c3;
      d ← float_vector c4;
      Some (TD3.mkBatch s a r s' d)
  | _ => None
  end.

(** Line 79: [rewards + (1 - done) * GAMMA * next_V]. *)
Definition bootstrap (gamma : Q) (rewards dones next_V : list Q) : list Q :=
  zip_with Qplus rewards
           (zip_with Qmult (fmap (fun d => ((1 - d) * gamma)%Q) dones) next_V).

Section Optimize.
Context {F : Framework} `{RandomSource}.

(** Lines 78-79. *)
Definition target_Q (cfg : config) (m : Model F) (b : TD3.Batch) : list Q :=
  bootstrap (GAMMA cfg) (TD3.rewards b) (TD3.dones b)
            (target_value F (networks m) (TD3.next_states b)).

(** Lines 54-108 of [Model.optimize]: what is done with the value that
    [sample] has returned. *)
Definition optimize_from (cfg : config) (m : Model F)
    (transitions : list (list value)) (g1 : rng)
  : rng * Model F * result unit :=
  match tensors transitions with
  | None => (g1, m, Raise Error)
  | Some b =>
      let (n, g2) :=
        gradient_updates F (AUTO_ALPHA cfg) (TAU cfg) (networks m)
                         b (target_Q cfg m b) g1 in
      (g2, mkModel (memory m) n, Ok tt)
  end.

(** [Model.optimize], lines 48-108; it returns [None]. *)
Definition optimize (cfg : config) (g : rng) (m : Model F)
  : rng * Model F * result unit :=
  if decide (ReplayMemory.len (memory m) < BATCH_SIZE cfg) then
    (g, m, Ok tt)
  else
    match ReplayMemory.sample (REPLACEMENT cfg) (BATCH_SIZE cfg)
                              (memory m) g with
    | (None, g1) => (g1, m, Raise Error)
    | (Some transitions, g1) =>
        optimize_from cfg m (fmap as_tuple transitions) g1
    end.

End Optimize.

End SAC.

(** ** DQN: [DQN/model.py] *)

Module DQN.

(** The tuple the DQN agent stores: the four items that the driver
    pushes (line 94 of [train.py]), which are the four fields that
    [optimize_model] reads ([batch.state], [batch.action],
    [batch.reward], [batch.next_state]); a final state has [next_state]
    [None]. *)
Record Transition : Type := mkTransition {
  state : list Q;
  action : Z;
  reward : Q;
  next_state : option (list Q)
}.

Definition as_tuple (tr : Transition) : list value :=
  [VVec (state tr); VInt (action tr); VNum (reward tr);
   match next_state tr with Some s => VVec s | None => VNone end].

(** The network [DQN] of [networks.py] is absent from the sources, and the
    optimizer and the scheduler are torch's.  [forward] is the network
    applied to a batch of states (one row of action values per state);
    [update clamp loss] is the body of [Agent.update]: the gradient of the
    loss, clamped to [-1, 1] when [clamp] is set, then one step of the
    optimizer and of the scheduler, both kept in [opt].  It can raise, or
    be interrupted by the user, at any of its statements: it gives the
    network and the optimizer as they are then, and how it ended. *)
Record Framework : Type := {
  net : Type;
  opt : Type;
  forward : net → list (list Q) → list (list Q);
  update : bool → (net → Q) → net → opt → net * opt * result unit
}.

(** [class Agent] *)
Record Agent (F : Framework) : Type := mkAgent {
  nn : net F;
  target_nn : net F;
  optimizer : opt F
}.
Arguments mkAgent {F}.
Arguments nn {F}.
Arguments target_nn {F}.
Arguments optimizer {F}.

Record config : Type := {
  BATCH_SIZE : nat;
  GAMMA : Q;
  N_STEP : Z;
  DOUBLE_DQN : bool;
  GRAD_CLAMPING : bool;
  REPLACEMENT : bool
}.

(** [class Model].  The memory is a [DQNReplayMemory], absent from the
    sources; [optimize_model] reads it through [len] and [sample] only,
    which are those of its store of transitions. *)
Record Model (F : Framework) : Type := mkModel {
  memory : ReplayMemory.t Transition;
  agent : Agent F
}.
Arguments mkModel {F}.
Arguments memory {F}.
Arguments agent {F}.

(** [Agent.update(loss)], lines 47-54: the target network is not
    touched. *)
Definition Agent_update {F : Framework} (cfg : config) (loss : net F → Q)
    (a : Agent F) : Agent F * result unit :=
  let '(n, o, r) :=
    update F (GRAD_CLAMPING cfg) loss (nn a) (optimizer a) in
  (mkAgent n (target_nn a) o, r).

(** [t.gather(1, index)]: the item of each row at the row's index. *)
Definition gather (rows : list (list Q)) (index : list Z)
  : option (list Q) :=
  mapM (fun '(row, i) =>
          if decide (0 ≤ i)%Z then row !! Z.to_nat i else None)
       (zip rows index).

(** [t.max(1)]: the largest item of each row, and its position. *)
Fixpoint row_max (row : list Q) : option (Q * Z) :=
  match row with
  | [] => None
  | x :: rest =>
      match row_max rest with
      | None => Some (x, 0%Z)
      | Some (y, i) =>
          if Qle_bool y x then Some (x, 0%Z) else Some (y, (i + 1)%Z)
      end
  end.

(** [v[mask] = values] on [v = torch.zeros(n)]. *)
Fixpoint scatter (mask : list bool) (values : list Q) : list Q :=
  match mask with
  | [] => []
  | false :: mask' => 0%Q :: scatter mask' values
  | true :: mask' =>
      match values with
      | [] => 0%Q :: scatter mask' []
      | x :: values' => x :: scatter mask' values'
      end
  end.

Record Batch : Type := mkBatch {
  state_batch : list (list Q);
  action_batch : list Z;
  reward_batch : list Q;
  non_final_mask : list bool;
  non_final_next_states : list (list Q)
}.

Definition int_scalar (v : value) : option Z :=
  match v with
  | VInt z => Some z
  | _ => None
  end.

Definition is_not_None (v : value) : bool :=
  match v with
  | VNone => false
  | _ => true
  end.

(** Lines 121-132: the transposed sample fills the fields of the named
    tuple [Transition] of [utils.py], which is absent from the sources;
    its fields are the four that line 94 of [train.py] pushes, in that
    order, the four that these lines read by name.  [torch.cat] refuses an
    empty list. *)
Definition tensors (transitions : list (list value)) : option Batch :=
  match zip_star transitions with
  | [c_state; c_action; c_reward; c_next] =>
      let non_final := filter (fun v => is_not_None v = true) c_next in
      s ← float_matrix c_state;
      a ← mapM int_scalar c_action;
      r ← float_vector c_reward;
      n ← float_matrix non_final;
      if decide (n = []) then None
      else Some (mkBatch s a r (fmap is_not_None c_next) n)
  | _ => None
  end.

Section Optimize.
Context {F : Framework} `{RandomSource}.

(** Lines 138-157: the value of the next states, zero for final ones. *)
Definition next_state_values (cfg : config) (a : Agent F) (b : Batch)
  : option (list Q) :=
  if DOUBLE_DQN cfg then
    best ← mapM row_max (forward F (nn a) (non_final_next_states b));
    temp ← gather (forward F (target_nn a) (non_final_next_states b))
                  (fmap snd best);
    Some (scatter (non_final_mask b) temp)
  else
    best ← mapM row_max (forward F (target_nn a) (non_final_next_states b));
    Some (scatter (non_final_mask b) (fmap fst best)).

(** Line 160: [next_state_values * GAMMA**N_STEP + reward_batch]. *)
Definition expected_values (cfg : config) (next_values rewards : list Q)
  : list Q :=
  zip_with Qplus
           (fmap (fun v => (v * GAMMA cfg ^ N_STEP cfg)%Q) next_values)
           rewards.

(** [Model.optimize_model], lines 114-167; it returns [None]. *)
Definition optimize_model (cfg : config) (g : rng) (m : Model F)
  : rng * Model F * result unit :=
  if decide (ReplayMemory.len (memory m) < BATCH_SIZE cfg) then
    (g, m, Ok tt)
  else
    match ReplayMemory.sample (REPLACEMENT cfg) (BATCH_SIZE cfg)
                              (memory m) g with
    | (None, g1) => (g1, m, Raise Error)
    | (Some transitions, g1) =>
        match tensors (fmap as_tuple transitions) with
        | None => (g1, m, Raise Error)
        | Some b =>
            match gather (forward F (nn (agent m)) (state_batch b))
                         (action_batch b),
                  next_state_values cfg (agent m) b with
            | Some _, Some next_values =>
                let expected :=
                  expected_values cfg next_values (reward_batch b) in
                let loss := fun n =>
                  match gather (forward F n (state_batch b))
                               (action_batch b) with
                  | Some values => smooth_l1_loss values expected
                  | None => 0%Q
                  end in
                let (a, r) := Agent_update cfg loss (agent m) in
                (g1, mkModel (memory m) a, r)
            | _, _ => (g1, m, Raise Error)
            end
        end
    end.

End Optimize.

End DQN.

(** ** The drivers' effects *)

(** The calls the claims are about, as they are made: a push into the replay
    memory with its arguments, a call of [model.save()], and the branch of
    an episode loop that forces [done] at a step. *)
Inductive event : Type :=
  | EvPush (args : list value)
  | EvSave
  | EvForcedDone (step : Z).

(** The shapes of the arguments of a push: the five fields with the flag
    [done], or the four fields without it. *)
Definition five_fields (e : event) : Prop :=
  ∀ args, e = EvPush args →
    ∃ s a r s' d, args = [VVec s; VVec a; VNum r; VVec s'; VBool d].

Definition four_fields (e : event) : Prop :=
  ∀ args, e = EvPush args →
    ∃ s a r s', args = [VVec s; VInt a; VNum r; VVec s'].

Definition not_forced (e : event) : Prop :=
  ∀ k, e ≠ EvForcedDone k.

Module Eff.

(** The state of a running driver: the world behind the method calls (the
    environment, the model, the files), the driver's own variables, and
    the trace. *)
Record st (W V : Type) : Type := mkSt {
  world : W;
  vars : V;
  trace : list event
}.
Arguments mkSt {W V}.
Arguments world {W V}.
Arguments vars {W V}.
Arguments trace {W V}.

Definition M (W V A : Type) : Type := st W V → st W V * result A.

Section Ops.
Context {W V : Type}.

Definition ret {A : Type} (a : A) : M W V A := fun s => (s, Ok a).

Definition bind {A B : Type} (f : A → M W V B) (m : M W V A) : M W V B :=
  fun s =>
    match m s with
    | (s1, Ok a) => f a s1
    | (s1, Raise e) => (s1, Raise e)
    end.

Definition raise {A : Type} (e : exc) : M W V A := fun s => (s, Raise e).

(** A method call on the world; it can raise. *)
Definition call {A : Type} (f : W → W * result A) : M W V A :=
  fun s =>
    let (w, r) := f (world s) in
    (mkSt w (vars s) (trace s), r).

Definition emit (e : event) : M W V unit :=
  fun s => (mkSt (world s) (vars s) (trace s ++ [e]), Ok tt).

Definition get : M W V V := fun s => (s, Ok (vars s)).

Definition modify (f : V → V) : M W V unit :=
  fun s => (mkSt (world s) (f (vars s)) (trace s), Ok tt).

(** [try: body / except KeyboardInterrupt: pass] *)
Definition except_KeyboardInterrupt (body : M W V unit) : M W V unit :=
  fun s =>
    match body s with
    | (s1, Raise KeyboardInterrupt) => (s1, Ok tt)
    | other => other
    end.

(** [try: body / finally: fin]: the final block runs however the body
    ends; the body's exception is raised again after it, unless the
    final block raises itself. *)
Definition finally {A : Type} (body : M W V A) (fin : M W V unit)
  : M W V A :=
  fun s =>
    let (s1, r) := body s in
    match fin s1 with
    | (s2, Ok _) => (s2, r)
    | (s2, Raise e) => (s2, Raise e)
    end.

(** [for x in xs: body x] *)
Fixpoint for_each {B : Type} (xs : list B) (body : B → M W V unit)
  : M W V unit :=
  match xs with
  | [] => ret tt
  | x :: rest => bind (fun _ => for_each rest body) (body x)
  end.

(** [while cond: body], for at most [n] rounds. *)
Fixpoint while (n : nat) (cond : V → bool) (body : M W V unit)
  : M W V unit :=
  fun s =>
    if cond (vars s) then
      match n with
      | 0 => (s, Ok tt)
      | S n' => bind (fun _ => while n' cond body) body s
      end
    else (s, Ok tt).

End Ops.

#[global] Instance M_ret {W V : Type} : MRet (M W V) := @ret W V.
#[global] Instance M_bind {W V : Type} : MBind (M W V) := @bind W V.

(** A property of the trace that a computation keeps. *)
Definition keeps {W V A : Type} (P : event → Prop) (m : M W V A) : Prop :=
  ∀ s, Forall P (trace s) → Forall P (trace (m s).1).

(** A computation only adds to the trace. *)
Definition extends {W V A : Type} (m : M W V A) : Prop :=
  ∀ s, trace s `prefix_of` trace (m s).1.

End Eff.

(** [range(n)] *)
Definition range (n : Z) : list Z := fmap Z.of_nat (seq 0 (Z.to_nat n)).

(** ** The DQN driver: [DQN/train.py] *)

Module DQN_train.
Import Eff.

(** The methods the driver calls, on the environment ([env_reset],
    [env_step]), on the model ([select_action], [memory_push], [optimize],
    [save]) and on the console and the tensorboard writer ([report_episode]
    for lines 102-105, [report_saved] for line 114, [report_stats] for
    lines 118-129).  Each one can raise. *)
Record Interface : Type := {
  world : Type;
  env_reset : world → world * result (list Q);
  select_action : list Q → Z → world → world * result Z;
  env_step : Z → world → world * result (list Q * Q * bool);
  memory_push : list value → world → world * result unit;
  optimize : Z → Z → world → world * result (option Q);
  save : world → world * result unit;
  report_episode : Z → Q → option Q → world → world * result unit;
  report_saved : world → world * result unit;
  report_stats : Z → Z → world → world * result unit
}.

Record config : Type := {
  MAX_EPISODES : Z;
  MAX_STEPS : Z
}.

(** The local variables of [train]; [loss] is unbound until the first
    call of [model.optimize]. *)
Record locals : Type := mkLocals {
  state : list Q;
  done : bool;
  step : Z;
  current_reward : Q;
  loss : option (option Q);
  nb_total_steps : Z;
  nb_episodes_done : Z
}.

Definition init : locals := mkLocals [] false 0 0 None 0 0.

Definition set_state (x : list Q) (v : locals) : locals :=
  mkLocals x (done v) (step v) (current_reward v) (loss v)
           (nb_total_steps v) (nb_episodes_done v).
Definition set_done (x : bool) (v : locals) : locals :=
  mkLocals (state v) x (step v) (current_reward v) (loss v)
           (nb_total_steps v) (nb_episodes_done v).
Definition set_step (x : Z) (v : locals) : locals :=
  mkLocals (state v) (done v) x (current_reward v) (loss v)
           (nb_total_steps v) (nb_episodes_done v).
Definition set_current_reward (x : Q) (v : locals) : locals :=
  mkLocals (state v) (done v) (step v) x (loss v)
           (nb_total_steps v) (nb_episodes_done v).
Definition set_loss (x : option Q) (v : locals) : locals :=
  mkLocals (state v) (done v) (step v) (current_reward v) (Some x)
           (nb_total_steps v) (nb_episodes_done v).
Definition set_nb_total_steps (x : Z) (v : locals) : locals :=
  mkLocals (state v) (done v) (step v) (current_reward v) (loss v)
           x (nb_episodes_done v).
Definition set_nb_episodes_done (x : Z) (v : locals) : locals :=
  mkLocals (state v) (done v) (step v) (current_reward v) (loss v)
           (nb_total_steps v) x.

(** Line 94: the arguments of [model.memory.push]. *)
Definition push_args (state : list Q) (action : Z) (reward : Q)
    (next_state : list Q) : list value :=
  [VVec state; VInt action; VNum reward; VVec next_state].

Section Train.
Context (I : Interface) (cfg : config).

#[local] Abbreviation M := (Eff.M (world I) locals).

(** Line 80: [not done and step < config["MAX_STEPS"]]. *)
Definition guard (v : locals) : bool :=
  negb (done v) && bool_decide (step v < MAX_STEPS cfg)%Z.

(** Lines 82-100: one round of the episode loop, for the values [v] of
    the variables at its start. *)
Definition round_with (v : locals) (episode : Z) : M unit :=
  action ← call (select_action I (state v) episode);
  '(next_state, reward, done1) ← call (env_step I action);
  modify (set_current_reward (current_reward v + reward)%Q);;
  modify (set_done done1);;
  (if negb done1 && bool_decide (step v = MAX_STEPS cfg) then
     emit (EvForcedDone (step v));;
     modify (set_done true)
   else mret tt);;
  emit (EvPush (push_args (state v) action reward next_state));;
  call (memory_push I (push_args (state v) action reward next_state));;
  modify (set_state next_state);;
  l ← call (optimize I (nb_episodes_done v) (step v));
  modify (set_loss l);;
  modify (set_step (step v + 1)%Z);;
  modify (set_nb_total_steps (nb_total_steps v + 1)%Z).

Definition round (episode : Z) : M unit :=
  v ← get;
  round_with v episode.

(** Lines 74-107: one episode.  The episode loop makes at most
    [MAX_STEPS] rounds, since [step] starts at 0 and grows by one. *)
Definition run_episode (episode : Z) : M unit :=
  s0 ← call (env_reset I);
  modify (set_state s0);;
  modify (set_done false);;
  modify (set_step 0%Z);;
  modify (set_current_reward 0%Q);;
  while (Z.to_nat (MAX_STEPS cfg)) guard (round episode);;
  v ← get;
  match loss v with
  | None => raise Error
  | Some l => call (report_episode I episode (current_reward v) l)
  end;;
  modify (set_nb_episodes_done (nb_episodes_done v + 1)%Z).

(** Lines 70-107: the training loop. *)
Definition training_loop : M unit :=
  modify (set_nb_episodes_done 0%Z);;
  for_each (range (MAX_EPISODES cfg)) run_episode.

(** Lines 112-114: the final block. *)
Definition final_block : M unit :=
  emit EvSave;;
  call (save I);;
  call (report_saved I).

(** Lines 69-114 around a body. *)
Definition guarded (body : M unit) : M unit :=
  finally (except_KeyboardInterrupt body) final_block.

(** Lines 66-129 of [train]: the statistics divide by the number of
    episodes done. *)
Definition train : M unit :=
  modify (set_nb_total_steps 0%Z);;
  guarded training_loop;;
  v ← get;
  if decide (nb_episodes_done v = 0%Z) then raise Error
  else call (report_stats I (nb_total_steps v) (nb_episodes_done v)).

Definition run (w : world I) : st (world I) locals * result unit :=
  train (mkSt w init []).

End Train.

End DQN_train.

(** ** The driver of the other agents: [commons/run_expe.py] *)

Module run_expe.
Import Eff.

(** The methods the driver calls, on the environment, on the model, and
    on the plotting library ([plot_eval] for lines 138-142, [plot_rewards]
    for lines 146-156).  Each one can raise. *)
Record Interface : Type := {
  world : Type;
  env_reset : world → world * result (list Q);
  select_action : list Q → Z → world → world * result (list Q);
  env_finishCFD : bool → world → world * result unit;
  env_step : list Q → world → world * result (list Q * Q * bool);
  memory_push : list value → world → world * result unit;
  optimize : world → world * result unit;
  env_fill_array_tobesaved : world → world * result unit;
  save : world → world * result unit;
  evaluate : world → world * result Q;
  plot_eval : list Q → world → world * result unit;
  plot_rewards : list Q → list Z → world → world * result unit;
  env_print_array_in_files : world → world * result unit;
  env_plot_training_output : list Q → world → world * result unit;
  env_close : world → world * result unit
}.

(** The entries of [config] the driver reads; [STARCCM] is the test
    [config["GAME"]["id"] == "STARCCMexternalfiles"]. *)
Record config : Type := {
  STARCCM : bool;
  MAX_EPISODES : Z;
  MAX_STEPS : Z;
  FREQ_SAVE : Z;
  FREQ_EVAL : Z;
  FREQ_PLOT : Z
}.

(** The local variables of [train]. *)
Record locals : Type := mkLocals {
  state : list Q;
  done : bool;
  step : Z;
  episode_reward : Q;
  rewards : list Q;
  eval_rewards : list Q;
  lenghts : list Z;
  nb_total_steps : Z;
  nb_episodes : Z
}.

Definition init : locals := mkLocals [] false 0 0 [] [] [] 0 0.

Definition set_state (x : list Q) (v : locals) : locals :=
  mkLocals x (done v) (step v) (episode_reward v) (rewards v)
           (eval_rewards v) (lenghts v) (nb_total_steps v) (nb_episodes v).
Definition set_done (x : bool) (v : locals) : locals :=
  mkLocals (state v) x (step v) (episode_reward v) (rewards v)
           (eval_rewards v) (lenghts v) (nb_total_steps v) (nb_episodes v).
Definition set_step (x : Z) (v : locals) : locals :=
  mkLocals (state v) (done v) x (episode_reward v) (rewards v)
           (eval_rewards v) (lenghts v) (nb_total_steps v) (nb_episodes v).
Definition set_episode_reward (x : Q) (v : locals) : locals :=
  mkLocals (state v) (done v) (step v) x (rewards v)
           (eval_rewards v) (lenghts v) (nb_total_steps v) (nb_episodes v).
Definition set_rewards (x : list Q) (v : locals) : locals :=
  mkLocals (state v) (done v) (step v) (episode_reward v) x
           (eval_rewards v) (lenghts v) (nb_total_steps v) (nb_episodes v).
Definition set_eval_rewards (x : list Q) (v : locals) : locals :=
  mkLocals (state v) (done v) (step v) (episode_reward v) (rewards v)
           x (lenghts v) (nb_total_steps v) (nb_episodes v).
Definition set_lenghts (x : list Z) (v : locals) : locals :=
  mkLocals (state v) (done v) (step v) (episode_reward v) (rewards v)
           (eval_rewards v) x (nb_total_steps v) (nb_episodes v).
Definition set_nb_total_steps (x : Z) (v : locals) : locals :=
  mkLocals (state v) (done v) (step v) (episode_reward v) (rewards v)
           (eval_rewards v) (lenghts v) x (nb_episodes v).
Definition set_nb_episodes (x : Z) (v : locals) : locals :=
  mkLocals (state v) (done v) (step v) (episode_reward v) (rewards v)
           (eval_rewards v) (lenghts v) (nb_total_steps v) x.

(** Line 118: the arguments of [model.memory.push]. *)
Definition push_args (state action : list Q) (reward : Q)
    (next_state : list Q) (done : bool) : list value :=
  [VVec state; VVec action; VNum reward; VVec next_state; VBool done].

Section Train.
Context (I : Interface) (cfg : config).

#[local] Abbreviation M := (Eff.M (world I) locals).

(** Line 100: [not done and step < config["MAX_STEPS"]]. *)
Definition guard (v : locals) : bool :=
  negb (done v) && bool_decide (step v < MAX_STEPS cfg)%Z.

(** [if episode % freq == 0: body]; the remainder raises for [freq] 0. *)
Definition every (freq episode : Z) (body : M unit) : M unit :=
  if decide (freq = 0%Z) then raise Error
  else if decide (episode mod freq = 0)%Z then body
  else mret tt.

(** Lines 102-124: one round of the episode loop, for the values [v] of
    the variables at its start. *)
Definition round_with (v : locals) (episode : Z) : M unit :=
  action ← call (select_action I (state v) episode);
  (if STARCCM cfg then call (env_finishCFD I false) else mret tt);;
  '(next_state, reward, done1) ← call (env_step I action);
  modify (set_episode_reward (episode_reward v + reward)%Q);;
  modify (set_done done1);;
  (if STARCCM cfg
      && (negb done1 && bool_decide (step v = MAX_STEPS cfg - 1)%Z) then
     emit (EvForcedDone (step v));;
     modify (set_done true)
   else mret tt);;
  v1 ← get;
  emit (EvPush (push_args (state v) action reward next_state (done v1)));;
  call (memory_push I
          (push_args (state v) action reward next_state (done v1)));;
  modify (set_state next_state);;
  call (optimize I);;
  modify (set_step (step v + 1)%Z);;
  modify (set_nb_total_steps (nb_total_steps v + 1)%Z).

Definition round (episode : Z) : M unit :=
  v ← get;
  round_with v episode.

(** Lines 94-158: one episode. *)
Definition run_episode (episode : Z) : M unit :=
  modify (set_done false);;
  modify (set_step 0%Z);;
  modify (set_episode_reward 0%Q);;
  s0 ← call (env_reset I);
  modify (set_state s0);;
  while (Z.to_nat (MAX_STEPS cfg)) guard (round episode);;
  v ← get;
  modify (set_rewards (rewards v ++ [episode_reward v]));;
  modify (set_lenghts (lenghts v ++ [step v]));;
  call (env_fill_array_tobesaved I);;
  every (FREQ_SAVE cfg) episode (emit EvSave;; call (save I));;
  every (FREQ_EVAL cfg) episode
        (r ← call (evaluate I);
         modify (set_eval_rewards (eval_rewards v ++ [r]));;
         call (plot_eval I (eval_rewards v ++ [r])));;
  every (FREQ_PLOT cfg) episode
        (call (plot_rewards I (rewards v ++ [episode_reward v])
                              (lenghts v ++ [step v])));;
  modify (set_nb_episodes (nb_episodes v + 1)%Z).

(** Lines 92-158: the training loop. *)
Definition training_loop : M unit :=
  for_each (range (MAX_EPISODES cfg)) run_episode.

(** Lines 163-171: the final block. *)
Definition final_block : M unit :=
  call (env_print_array_in_files I);;
  v ← get;
  call (env_plot_training_output I (rewards v));;
  call (env_close I);;
  emit EvSave;;
  call (save I);;
  if STARCCM cfg then call (env_finishCFD I true) else mret tt.

(** Lines 91-171 around a body. *)
Definition guarded (body : M unit) : M unit :=
  finally (except_KeyboardInterrupt body) final_block.

(** Lines 82-171 of [train]. *)
Definition train : M unit :=
  modify (set_nb_total_steps 0%Z);;
  modify (set_nb_episodes 0%Z);;
  modify (set_rewards []);;
  modify (set_eval_rewards []);;
  modify (set_lenghts []);;
  guarded training_loop.

Definition run (w : world I) : st (world I) locals * result unit :=
  train (mkSt w init []).

End Train.

End run_expe.

(** ** Small instances, to run the definitions *)

Module Examples.

(** A counter as random state; the noise is zero. *)
Definition counter_random : RandomSource :=
  {| rng := nat;
     rng_next := fun s => (7 * s + 3, S s);
     rng_normal := fun _ n s => (repeat 0%Q n, S s) |}.

Definition tr0 : Transition := mkTransition [0%Q] [1%Q] 1 [1%Q] false.
Definition tr1 : Transition := mkTransition [1%Q] [0%Q] 2 [2%Q] false.
Definition tr2 : Transition := mkTransition [2%Q] [1%Q] 4 [3%Q] true.

(** A buffer of four slots after three pushes. *)
Definition three : ReplayMemory.t Transition :=
  ReplayMemory.push_all [tr0; tr1; tr2] (ReplayMemory.create 4).

(** An n-step memory with a window of three and discount 1/2. *)
Definition nstep3 : NStep.t := NStep.create 4 3 (1 # 2).

(** A toy framework for TD3: a network is one number. *)
Definition td3_framework : TD3.Framework :=
  {| TD3.net := Q;
     TD3.opt := nat;
     TD3.actor_forward := fun n states => (fun _ => [n]) <$> states;
     TD3.critic_forward := fun n states _ => (fun _ => n) <$> states;
     TD3.actor_update := fun loss n o => ((n + 1)%Q, S o);
     TD3.critic_update := fun loss n o => ((n - loss n)%Q, S o);
     TD3.update_targets := fun t n tau => (tau * n + (1 - tau) * t)%Q |}.

Definition td3_config (batch_size : nat) : TD3.config :=
  {| TD3.BATCH_SIZE := batch_size;
     TD3.GAMMA := 1 # 2;
     TD3.TAU := 1 # 10;
     TD3.UPDATE_SIGMA := 1 # 5;
     TD3.UPDATE_CLIP := 1 # 2;
     TD3.REPLACEMENT := false |}.

Definition td3_model (update_step : Z) : TD3.Model td3_framework :=
  TD3.mkModel three
              (TD3.mkNetwork (F := td3_framework) 1%Q 1%Q 0)
              (TD3.mkNetwork (F := td3_framework) 2%Q 2%Q 0)
              (TD3.mkNetwork (F := td3_framework) 0%Q 0%Q 0)
              (-1) 1 update_step.

(** A toy framework for SAC. *)
Definition sac_framework : SAC.Framework :=
  {| SAC.nets := Q;
     SAC.target_value := fun n states => (fun _ => n) <$> states;
     SAC.gradient_updates := fun _ _ _ n _ _ g => ((n + 1)%Q, g) |}.

Definition sac_config (batch_size : nat) : SAC.config :=
  {| SAC.BATCH_SIZE := batch_size;
     SAC.GAMMA := 1 # 2;
     SAC.TAU := 1 # 10;
     SAC.AUTO_ALPHA := false;
     SAC.REPLACEMENT := false |}.

Definition sac_model : SAC.Model sac_framework :=
  SAC.mkModel (F := sac_framework) three 3%Q.

(** A toy framework for DQN, with two actions. *)
Definition dqn_framework : DQN.Framework :=
  {| DQN.net := Q;
     DQN.opt := nat;
     DQN.forward := fun n states => (fun _ => [n; (n + 1)%Q]) <$> states;
     DQN.update := fun _ loss n o => ((n - loss n)%Q, S o, Ok tt) |}.

Definition dqn_config (batch_size : nat) : DQN.config :=
  {| DQN.BATCH_SIZE := batch_size;
     DQN.GAMMA := 1 # 2;
     DQN.N_STEP := 3;
     DQN.DOUBLE_DQN := false;
     DQN.GRAD_CLAMPING := true;
     DQN.REPLACEMENT := false |}.

Definition dqn_model : DQN.Model dqn_framework :=
  DQN.mkModel
    (ReplayMemory.push_all
       [DQN.mkTransition [0%Q] 0 1 (Some [1%Q]);
        DQN.mkTransition [1%Q] 1 2 (Some [2%Q]);
        DQN.mkTransition [2%Q] 0 4 None]
       (ReplayMemory.create 4))
    (DQN.mkAgent (F := dqn_framework) 1%Q 1%Q 0).

(** A world for the DQN driver: a clock of the environment's steps.  An
    episode ends at its third step.  [optimize_works] tells whether the
    call of [model.optimize] returns; the class [Model] of [DQN/model.py]
    has no method of this name (it has [optimize_model]), so that on this
    model the call raises. *)
Definition dqn_world (optimize_works : bool) : DQN_train.Interface :=
  {| DQN_train.world := nat;
     DQN_train.env_reset := fun w => (w, Ok [0%Q]);
     DQN_train.select_action := fun _ _ w => (w, Ok 1%Z);
     DQN_train.env_step := fun _ w =>
       (S w, Ok ([inject_Z (Z.of_nat w)], 1%Q, bool_decide (w mod 3 = 2)));
     DQN_train.memory_push := fun _ w => (w, Ok tt);
     DQN_train.optimize := fun _ _ w =>
       (w, if optimize_works then Ok (Some 0%Q) else Raise Error);
     DQN_train.save := fun w => (w, Ok tt);
     DQN_train.report_episode := fun _ _ _ w => (w, Ok tt);
     DQN_train.report_saved := fun w => (w, Ok tt);
     DQN_train.report_stats := fun _ _ w => (w, Ok tt) |}.

Definition dqn_train_config : DQN_train.config :=
  {| DQN_train.MAX_EPISODES := 2; DQN_train.MAX_STEPS := 2 |}.

(** A world for the driver of [commons].  [interrupted] tells whether the
    user interrupts the first call of [env.reset]; [dump_fails] whether
    [env.print_array_in_files] raises. *)
Definition commons_world (interrupted dump_fails : bool)
  : run_expe.Interface :=
  {| run_expe.world := nat;
     run_expe.env_reset := fun w =>
       (w, if interrupted then Raise KeyboardInterrupt else Ok [0%Q]);
     run_expe.select_action := fun _ _ w => (w, Ok [1%Q]);
     run_expe.env_finishCFD := fun _ w => (w, Ok tt);
     run_expe.env_step := fun _ w =>
       (S w, Ok ([inject_Z (Z.of_nat w)], 1%Q, bool_decide (w mod 3 = 2)));
     run_expe.memory_push := fun _ w => (w, Ok tt);
     run_expe.optimize := fun w => (w, Ok tt);
     run_expe.env_fill_array_tobesaved := fun w => (w, Ok tt);
     run_expe.save := fun w => (w, Ok tt);
     run_expe.evaluate := fun w => (w, Ok 0%Q);
     run_expe.plot_eval := fun _ w => (w, Ok tt);
     run_expe.plot_rewards := fun _ _ w => (w, Ok tt);
     run_expe.env_print_array_in_files := fun w =>
       (w, if dump_fails then Raise Error else Ok tt);
     run_expe.env_plot_training_output := fun _ w => (w, Ok tt);
     run_expe.env_close := fun w => (w, Ok tt) |}.

Definition commons_config : run_expe.config :=
  {| run_expe.STARCCM := true;
     run_expe.MAX_EPISODES := 2;
     run_expe.MAX_STEPS := 2;
     run_expe.FREQ_SAVE := 5;
     run_expe.FREQ_EVAL := 5;
     run_expe.FREQ_PLOT := 5 |}.

End Examples.

(** ** More of [DQN/model.py]: rewards, actions, checkpoints *)

(** A computation that returns or raises. *)
#[global] Instance result_ret : MRet result := fun _ a => Ok a.
#[global] Instance result_bind : MBind result :=
  fun _ _ f r =>
    match r with
    | Ok a => f a
    | Raise e => Raise e
    end.

(** Python's [a and b]: [b] is evaluated, and can raise, only when [a]
    holds. *)
Definition and_then (a : bool) (b : result bool) : result bool :=
  if a then b else Ok false.

(** Python's [random.random()], a float of the unit interval. *)
Class UniformSource `{RandomSource} : Type := {
  rng_random : rng → Q * rng
}.

Module DQN_model.

(** [t[0][0]]; an index out of range raises. *)
Definition item00 (t : list (list Q)) : result Q :=
  match t !! 0 with
  | Some row =>
      match row !! 0 with
      | Some x => Ok x
      | None => Raise Error
      end
  | None => Raise Error
  end.

(** [Model.intermediate_reward], lines 102-112, for [config['GAME']]. *)
Definition intermediate_reward (GAME : string) (reward : Q)
    (next_state : list (list Q)) : result Q :=
  and_then (String.eqb GAME "Acrobot-v1")
           (x ← item00 next_state; Ok (negb (Qeq_bool x 0)))
  ≫= fun c1 : bool =>
  if c1 then
    x ← item00 next_state; Ok (reward + 1 - x)%Q
  else
    and_then (String.eqb GAME "MountainCar-v0")
             (x ← item00 next_state; Ok (negb (Qle_bool (1 # 2) x)))
    ≫= fun c2 : bool =>
    if c2 then
      x ← item00 next_state; Ok (Qabs (x + (4 # 10)))
    else
      and_then (String.eqb GAME "MountainCar-v0")
               (x ← item00 next_state; Ok (Qle_bool (1 # 2) x))
      ≫= fun c3 : bool =>
      if c3 then Ok 100%Q else Ok reward.

Section Actions.
Context {F : DQN.Framework} `{UniformSource}.

(** [random.randrange(n)]; it raises for an empty range. *)
Definition randrange (n : Z) (g : rng) : result Z * rng :=
  if decide (n ≤ 0)%Z then (Raise Error, g)
  else
    let (r, g') := rng_next g in
    (Ok (Z.of_nat r mod n)%Z, g').

(** Line 96: [self.agent.nn(state).max(1)[1].view(1, 1)], the position of
    the largest action value of the one state of the batch. *)
Definition greedy (m : DQN.Model F) (state : list (list Q)) : result Z :=
  match mapM DQN.row_max (DQN.forward F (DQN.nn (DQN.agent m)) state) with
  | Some [best] => Ok best.2
  | _ => Raise Error
  end.

(** [Model.select_action], lines 93-100.  The function
    [get_epsilon_threshold] of [utils.py] is absent from the sources: its
    value at an episode is the parameter [epsilon]. *)
Definition select_action (epsilon : Z → Q) (action_size : Z)
    (m : DQN.Model F) (state : list (list Q)) (episode : Z)
    (evaluation : bool) (g : rng) : result Z * rng :=
  if evaluation then (greedy m state, g)
  else
    let (u, g1) := rng_random g in
    if negb (Qle_bool u (epsilon episode)) then (greedy m state, g1)
    else randrange action_size g1.

End Actions.

Section Checkpoints.
Context {F : DQN.Framework}.

(** The files of the disk that hold parameters of networks, by path; they
    are written by [torch.save] and read by [torch.load], which raises for a
    missing file. *)
Definition path_nn (folder : string) : string :=
  folder +:+ "/models/dqn.pth".
Definition path_target_nn (folder : string) : string :=
  folder +:+ "/models/dqn_target.pth".

(** [Agent.save], lines 56-58. *)
Definition Agent_save (folder : string) (a : DQN.Agent F)
    (files : gmap string (DQN.net F)) : gmap string (DQN.net F) :=
  <[path_target_nn folder := DQN.target_nn a]>
    (<[path_nn folder := DQN.nn a]> files).

(** [Agent.load], lines 60-62: the network is replaced before the file of
    the target network is read. *)
Definition Agent_load (folder : string) (files : gmap string (DQN.net F))
    (a : DQN.Agent F) : DQN.Agent F * result unit :=
  match files !! path_nn folder with
  | None => (a, Raise Error)
  | Some n =>
      let a1 := DQN.mkAgent n (DQN.target_nn a) (DQN.optimizer a) in
      match files !! path_target_nn folder with
      | None => (a1, Raise Error)
      | Some t => (DQN.mkAgent n t (DQN.optimizer a), Ok tt)
      end
  end.

(** [Model.save], lines 185-186. *)
Definition save (folder : string) (m : DQN.Model F)
    (files : gmap string (DQN.net F)) : gmap string (DQN.net F) :=
  Agent_save folder (DQN.agent m) files.

(** [Model.load], lines 188-192: a missing file is reported by another
    exception. *)
Definition load (folder : string) (files : gmap string (DQN.net F))
    (m : DQN.Model F) : DQN.Model F * result unit :=
  match Agent_load folder files (DQN.agent m) with
  | (a, Ok _) => (DQN.mkModel (DQN.memory m) a, Ok tt)
  | (a, Raise _) => (DQN.mkModel (DQN.memory m) a, Raise Error)
  end.

End Checkpoints.

(** A transition whose next state is [None] is final. *)
Definition is_final (tr : DQN.Transition) : bool :=
  match DQN.next_state tr with
  | Some _ => false
  | None => true
  end.

End DQN_model.

(** ** [evaluate] of TD3 and of SAC *)

(** A method that returns from every state of the world. *)
Definition never_raises {W A : Type} (f : W → W * result A) : Prop :=
  ∀ w, ∃ a, (f w).2 = Ok a.

(** A method during which the user does not interrupt the program. *)
Definition never_interrupted {W A : Type} (f : W → W * result A) : Prop :=
  ∀ w, (f w).2 ≠ Raise KeyboardInterrupt.

Module TD3_evaluate.
Import Eff.

(** The methods that [Model.evaluate] of [TD3/model.py] calls, on
    [self.eval_env] and on the actor (through [self.select_action]). *)
Record Interface : Type := {
  world : Type;
  env_reset : world → world * result (list Q);
  select_action : list Q → world → world * result (list Q);
  env_step : list Q → world → world * result (list Q * Q * bool);
  env_render : world → world * result unit
}.

Record locals : Type := mkLocals {
  rewards : list Q;
  state : list Q;
  done : bool;
  step : Z
}.

Definition init : locals := mkLocals [] [] false 0.

Definition set_rewards (x : list Q) (v : locals) : locals :=
  mkLocals x (state v) (done v) (step v).
Definition set_state (x : list Q) (v : locals) : locals :=
  mkLocals (rewards v) x (done v) (step v).
Definition set_done (x : bool) (v : locals) : locals :=
  mkLocals (rewards v) (state v) x (step v).
Definition set_step (x : Z) (v : locals) : locals :=
  mkLocals (rewards v) (state v) (done v) x.

Section Evaluate.
Context (I : Interface) (MAX_STEPS : Z).

#[local] Abbreviation M := (Eff.M (world I) locals).

(** Line 101: [not done and step < self.config["MAX_STEPS"]]. *)
Definition guard (v : locals) : bool :=
  negb (done v) && bool_decide (step v < MAX_STEPS)%Z.

(** Lines 103-108: one step of an episode; [rewards[ep] += r] raises for
    an index out of range. *)
Definition round (render : bool) (ep : Z) : M unit :=
  v ← get;
  action ← call (select_action I (state v));
  '(next_state, r, done1) ← call (env_step I action);
  modify (set_state next_state);;
  modify (set_done done1);;
  (if render then call (env_render I) else mret tt);;
  match rewards v !! Z.to_nat ep with
  | Some x => modify (set_rewards (<[Z.to_nat ep := (x + r)%Q]> (rewards v)))
  | None => raise Error
  end;;
  modify (set_step (step v + 1)%Z).

(** Lines 98-108: one episode. *)
Definition episode (render : bool) (ep : Z) : M unit :=
  s0 ← call (env_reset I);
  modify (set_state s0);;
  modify (set_done false);;
  modify (set_step 0%Z);;
  while (Z.to_nat MAX_STEPS) guard (round render ep).

(** [Model.evaluate], lines 92-110: the mean of the rewards of [n_ep]
    episodes; the division raises for [n_ep] 0. *)
Definition evaluate (n_ep : Z) (render : bool) : M Q :=
  modify (set_rewards (replicate (Z.to_nat n_ep) 0%Q));;
  for_each (range n_ep) (episode render);;
  v ← get;
  if decide (n_ep = 0%Z) then raise Error
  else mret (Qsum (rewards v) / inject_Z n_ep)%Q.

End Evaluate.

End TD3_evaluate.

Module SAC_evaluate.
Import Eff.

(** The methods that [Model.evaluate] of [SAC/model.py] calls, on
    [self.eval_env], on the actor and on the writer of the film
    ([get_writer], [append_data], [writer_close] of imageio). *)
Record Interface : Type := {
  world : Type;
  frame : Type;
  env_reset : world → world * result (list Q);
  get_action : list Q → world → world * result (list Q);
  env_step : list Q → world → world * result (list Q * Q * bool);
  env_render : world → world * result unit;
  env_render_rgb : world → world * result frame;
  env_close : world → world * result unit;
  get_writer : world → world * result unit;
  append_data : frame → world → world * result unit;
  writer_close : world → world * result unit
}.

Record locals : Type := mkLocals {
  rewards : list Q;
  state : list Q;
  reward : Q;
  done : bool;
  steps : Z
}.

Definition init : locals := mkLocals [] [] 0 false 0.

Definition set_rewards (x : list Q) (v : locals) : locals :=
  mkLocals x (state v) (reward v) (done v) (steps v).
Definition set_state (x : list Q) (v : locals) : locals :=
  mkLocals (rewards v) x (reward v) (done v) (steps v).
Definition set_reward (x : Q) (v : locals) : locals :=
  mkLocals (rewards v) (state v) x (done v) (steps v).
Definition set_done (x : bool) (v : locals) : locals :=
  mkLocals (rewards v) (state v) (reward v) x (steps v).
Definition set_steps (x : Z) (v : locals) : locals :=
  mkLocals (rewards v) (state v) (reward v) (done v) x.

(** Line 139: [sum(rewards)/len(rewards) if rewards else 0]. *)
Definition score (rewards : list Q) : Q :=
  match rewards with
  | [] => 0%Q
  | _ => (Qsum rewards / inject_Z (Z.of_nat (length rewards)))%Q
  end.

Section Evaluate.
Context (I : Interface) (MAX_STEPS : Z).

#[local] Abbreviation M := (Eff.M (world I) locals).

(** Line 120: [not done and steps < self.config["MAX_STEPS"]]. *)
Definition guard (v : locals) : bool :=
  negb (done v) && bool_decide (steps v < MAX_STEPS)%Z.

(** Lines 121-128: one step of an episode. *)
Definition round (render gif : bool) (i : Z) : M unit :=
  v ← get;
  action ← call (get_action I (state v));
  '(next_state, r, done1) ← call (env_step I action);
  modify (set_state next_state);;
  modify (set_done done1);;
  (if render then call (env_render I) else mret tt);;
  (if bool_decide (i = 0%Z) && gif then
     f ← call (env_render_rgb I);
     call (append_data I f)
   else mret tt);;
  modify (set_reward (reward v + r)%Q);;
  modify (set_steps (steps v + 1)%Z).

(** Lines 116-129: one episode. *)
Definition episode (render gif : bool) (i : Z) : M unit :=
  s0 ← call (env_reset I);
  modify (set_state s0);;
  modify (set_reward 0%Q);;
  modify (set_done false);;
  modify (set_steps 0%Z);;
  while (Z.to_nat MAX_STEPS) guard (round render gif i);;
  v ← get;
  modify (set_rewards (rewards v ++ [reward v])).

(** Lines 134-137: the final block. *)
Definition final_block (gif : bool) : M unit :=
  call (env_close I);;
  if gif then call (writer_close I) else mret tt.

(** [Model.evaluate], lines 110-140. *)
Definition evaluate (n_ep : Z) (render gif : bool) : M Q :=
  modify (set_rewards []);;
  (if gif then call (get_writer I) else mret tt);;
  finally
    (except_KeyboardInterrupt
       (for_each (range n_ep) (episode render gif)))
    (final_block gif);;
  v ← get;
  mret (score (rewards v)).

End Evaluate.

End SAC_evaluate.

(** ** Checkpoints of SAC *)

Module SAC_checkpoint.

(** The [save] and [load] methods of the network classes, which are absent
    from the sources, over the files of the disk: [net_load] gives the
    parameters that the network takes, or nothing for a missing file
    ([FileNotFoundError]). *)
Record Store : Type := {
  net : Type;
  files : Type;
  net_save : string → net → files → files;
  net_load : string → files → option net
}.

(** What a file system does: a file holds what was last saved in it, and
    saving in a file leaves the other files alone. *)
Record faithful (S : Store) : Prop := {
  load_saved : ∀ p n f, net_load S p (net_save S p n f) = Some n;
  load_other : ∀ p p' n f,
    p ≠ p' → net_load S p (net_save S p' n f) = net_load S p f
}.

Section Checkpoints.
Context {S : Store}.

(** The five networks of [Model], lines 26-32. *)
Record Networks : Type := mkNetworks {
  value_net : net S;
  target_value_net : net S;
  soft_Q_net1 : net S;
  soft_Q_net2 : net S;
  soft_actor : net S
}.

Definition path_value (folder : string) : string :=
  folder +:+ "/models/value.pth".
Definition path_value_target (folder : string) : string :=
  folder +:+ "/models/value_target.pth".
Definition path_soft_Q (folder : string) : string :=
  folder +:+ "/models/soft_Q.pth".
Definition path_soft_actor (folder : string) : string :=
  folder +:+ "/models/soft_actor.pth".

(** [Model.save], lines 142-147. *)
Definition save (folder : string) (m : Networks) (f : files S) : files S :=
  net_save S (path_soft_actor folder) (soft_actor m)
    (net_save S (path_soft_Q folder) (soft_Q_net1 m)
       (net_save S (path_value_target folder) (target_value_net m)
          (net_save S (path_value folder) (value_net m) f))).

(** [Model.load], lines 149-157: the networks are replaced one after the
    other, until a file is missing. *)
Definition load (folder : string) (f : files S) (m : Networks)
    : Networks * result unit :=
  match net_load S (path_value folder) f with
  | None => (m, Raise Error)
  | Some v =>
  let m1 := mkNetworks v (target_value_net m) (soft_Q_net1 m)
                       (soft_Q_net2 m) (soft_actor m) in
  match net_load S (path_value_target folder) f with
  | None => (m1, Raise Error)
  | Some tv =>
  let m2 := mkNetworks v tv (soft_Q_net1 m) (soft_Q_net2 m) (soft_actor m) in
  match net_load S (path_soft_Q folder) f with
  | None => (m2, Raise Error)
  | Some q1 =>
  let m3 := mkNetworks v tv q1 (soft_Q_net2 m) (soft_actor m) in
  match net_load S (path_soft_Q folder) f with
  | None => (m3, Raise Error)
  | Some q2 =>
  let m4 := mkNetworks v tv q1 q2 (soft_actor m) in
  match net_load S (path_soft_actor folder) f with
  | None => (m4, Raise Error)
  | Some a => (mkNetworks v tv q1 q2 a, Ok tt)
  end end end end end.

End Checkpoints.
Arguments Networks : clear implicits.

End SAC_checkpoint.

(** ** The configuration of [commons/run_expe.py] *)

Module run_expe_config.

#[local] Unset Elimination Schemes.

(** A document of YAML, as [yaml.safe_load] returns it. *)
Inductive yaml : Type :=
  | YNone
  | YBool (b : bool)
  | YNum (q : Q)
  | YStr (s : string)
  | YSeq (l : list yaml)
  | YMap (m : gmap string yaml).

#[local] Set Elimination Schemes.

(** [d[k]] for a key that is a string: [KeyError] on a mapping without the
    key, [TypeError] on every other document. *)
Definition subscript (d : yaml) (k : string) : result yaml :=
  match d with
  | YMap m =>
      match m !! k with
      | Some x => Ok x
      | None => Raise Error
      end
  | _ => Raise Error
  end.

(** [load_config], lines 21-26, on the document read from the file: a game
    given by its name becomes the mapping of its keyword arguments. *)
Definition load_config (parsed : yaml) : result yaml :=
  game ← subscript parsed "GAME";
  match game, parsed with
  | YStr s, YMap m => Ok (YMap (<["GAME" := YMap {["id" := YStr s]}]> m))
  | _, _ => Ok parsed
  end.

(** [config["GAME"]["id"]], lines 51, 64, 66, 104, 110 and 169. *)
Definition game_id (config : yaml) : result yaml :=
  game ← subscript config "GAME";
  subscript game "id".

(** Lines 104, 110 and 169: [config["GAME"]["id"] == "STARCCMexternalfiles"]. *)
Definition is_STARCCM (config : yaml) : result bool :=
  id ← game_id config;
  match id with
  | YStr s => Ok (bool_decide (s = "STARCCMexternalfiles"))
  | _ => Ok false
  end.

End run_expe_config.

(** ** Pre- and postconditions of the drivers' computations *)

Module Hoare.
Import Eff.

(** [triple P m Q E]: started in a state whose variables and trace satisfy
    [P], the computation [m] ends in a state that satisfies [Q a] when it
    returns [a], and [E e] when it raises [e].  The world behind the calls is
    not constrained. *)
Definition triple {W V A : Type} (P : V → list event → Prop) (m : M W V A)
    (Q : A → V → list event → Prop) (E : exc → V → list event → Prop)
  : Prop :=
  ∀ s, P (vars s) (trace s) →
       match m s with
       | (s', Ok a) => Q a (vars s') (trace s')
       | (s', Raise e) => E e (vars s') (trace s')
       end.

End Hoare.

(** The number of pushes into the replay memory that a trace records. *)
Definition is_push (e : event) : bool :=
  match e with
  | EvPush _ => true
  | _ => false
  end.

Definition pushes (t : list event) : Z :=
  Z.of_nat (length (filter (fun e => is_push e = true) t)).

(** A push whose last argument is the flag [done], set. *)
Definition pushes_done (e : event) : Prop :=
  ∀ args, e = EvPush args → last args = Some (VBool true).

(** Between two rounds of the DQN driver the pushes are counted by
    [nb_total_steps]; after an exception the last push may not have been
    counted.  The number of episodes done is never negative. *)
Definition DQN_counted (v : DQN_train.locals) (t : list event) : Prop :=
  pushes t = DQN_train.nb_total_steps v ∧
  (0 ≤ DQN_train.nb_episodes_done v)%Z.

Definition DQN_nearly_counted (v : DQN_train.locals) (t : list event)
  : Prop :=
  (DQN_train.nb_total_steps v ≤ pushes t
   ≤ DQN_train.nb_total_steps v + 1)%Z ∧
  (0 ≤ DQN_train.nb_episodes_done v)%Z.

(** With no step allowed, no episode of the DQN driver assigns [loss]. *)
Definition DQN_idle (v : DQN_train.locals) (t : list event) : Prop :=
  DQN_train.loss v = None ∧
  DQN_train.nb_episodes_done v = 0%Z ∧
  pushes t = 0%Z.

(** What the driver of [commons] has recorded of the episodes: as many
    rewards as lengths, and lengths within the limit of steps. *)
Definition episodes_recorded (cfg : run_expe.config) (v : run_expe.locals)
  : Prop :=
  length (run_expe.rewards v) = length (run_expe.lenghts v) ∧
  Forall (fun l => (0 ≤ l ≤ Z.max 0 (run_expe.MAX_STEPS cfg))%Z)
         (run_expe.lenghts v) ∧
  (0 ≤ run_expe.step v ≤ Z.max 0 (run_expe.MAX_STEPS cfg))%Z.

(** Between two rounds of the driver of [commons] the pushes and the
    episodes are counted; without the CFD coupling no [done] was forced. *)
Definition run_counted (cfg : run_expe.config) (v : run_expe.locals)
    (t : list event) : Prop :=
  pushes t = run_expe.nb_total_steps v ∧
  run_expe.nb_episodes v = Z.of_nat (length (run_expe.rewards v)) ∧
  episodes_recorded cfg v ∧
  (run_expe.STARCCM cfg = false → Forall not_forced t).

(** After an exception the last push, or the last episode, may not have
    been counted. *)
Definition run_nearly_counted (cfg : run_expe.config) (v : run_expe.locals)
    (t : list event) : Prop :=
  (run_expe.nb_total_steps v ≤ pushes t
   ≤ run_expe.nb_total_steps v + 1)%Z ∧
  (run_expe.nb_episodes v ≤ Z.of_nat (length (run_expe.rewards v))
   ≤ run_expe.nb_episodes v + 1)%Z ∧
  episodes_recorded cfg v ∧
  (run_expe.STARCCM cfg = false → Forall not_forced t).

(** The end of an episode of the driver of [commons], from the variables
    [v0] at the end of its loop: the episode is recorded, not yet counted. *)
Definition run_recorded (cfg : run_expe.config) (v0 v : run_expe.locals)
    (t : list event) : Prop :=
  run_counted cfg v0 t ∧
  run_expe.rewards v = run_expe.rewards v0 ++ [run_expe.episode_reward v0] ∧
  run_expe.lenghts v = run_expe.lenghts v0 ++ [run_expe.step v0] ∧
  run_expe.nb_total_steps v = run_expe.nb_total_steps v0 ∧
  run_expe.nb_episodes v = run_expe.nb_episodes v0 ∧
  run_expe.step v = run_expe.step v0.

(** In an episode loop of the driver of [commons]: before the first round,
    or after a round whose push carries the present value of [done]; with
    the CFD coupling [done] is set when the limit of steps is reached. *)
Definition last_push_flagged (cfg : run_expe.config) (v : run_expe.locals)
    (t : list event) : Prop :=
  ((run_expe.step v = 0%Z ∧ run_expe.done v = false) ∨
   (∃ t' args, t = t' ++ [EvPush args] ∧
               last args = Some (VBool (run_expe.done v)))) ∧
  (0 ≤ run_expe.step v)%Z ∧
  (run_expe.STARCCM cfg = true →
   (run_expe.step v < run_expe.MAX_STEPS cfg)%Z ∨ run_expe.done v = true).

(** ** More small instances *)

Module MoreExamples.

(** [random.random()] always gives 1/2. *)
Definition half_uniform : @UniformSource Examples.counter_random :=
  @Build_UniformSource Examples.counter_random
    (fun s : nat => (1 # 2, S s)).

(** A disk where an interrupted save left the network's file only. *)
Definition half_saved : gmap string (DQN.net Examples.dqn_framework) :=
  {[ DQN_model.path_nn "runs/a" := 7%Q ]}.

(** A DQN model whose memory holds final transitions only. *)
Definition dqn_all_final : DQN.Model Examples.dqn_framework :=
  DQN.mkModel
    (ReplayMemory.push_all
       [DQN.mkTransition [0%Q] 0 1 None;
        DQN.mkTransition [1%Q] 1 2 None]
       (ReplayMemory.create 4))
    (DQN.mkAgent (F := Examples.dqn_framework) 1%Q 1%Q 0).

(** The configuration of [Examples], without the CFD coupling. *)
Definition gym_config : run_expe.config :=
  {| run_expe.STARCCM := false;
     run_expe.MAX_EPISODES := 2;
     run_expe.MAX_STEPS := 2;
     run_expe.FREQ_SAVE := 5;
     run_expe.FREQ_EVAL := 5;
     run_expe.FREQ_PLOT := 5 |}.

(** A TD3 model whose memory holds states of two dimensions and of
    one. *)
Definition td3_ragged : TD3.Model Examples.td3_framework :=
  TD3.mkModel
    (ReplayMemory.push_all
       [mkTransition [0%Q; 1%Q] [1%Q] 1 [1%Q; 1%Q] false;
        mkTransition [0%Q] [1%Q] 1 [1%Q] true]
       (ReplayMemory.create 4))
    (TD3.mkNetwork (F := Examples.td3_framework) 1%Q 1%Q 0)
    (TD3.mkNetwork (F := Examples.td3_framework) 2%Q 2%Q 0)
    (TD3.mkNetwork (F := Examples.td3_framework) 0%Q 0%Q 0)
    (-1) 1 0.

(** An environment that counts its steps and rewards each with 1. *)
Definition td3_eval_world : TD3_evaluate.Interface :=
  {| TD3_evaluate.world := nat;
     TD3_evaluate.env_reset := fun w => (w, Ok [0%Q]);
     TD3_evaluate.select_action := fun _ w => (w, Ok [0%Q]);
     TD3_evaluate.env_step := fun _ w => (S w, Ok ([0%Q], 1%Q, false));
     TD3_evaluate.env_render := fun w => (w, Ok tt) |}.

(** An environment where the user interrupts the first step. *)
Definition sac_eval_world : SAC_evaluate.Interface :=
  {| SAC_evaluate.world := nat;
     SAC_evaluate.frame := unit;
     SAC_evaluate.env_reset := fun w => (w, Ok [0%Q]);
     SAC_evaluate.get_action := fun _ w => (w, Ok [0%Q]);
     SAC_evaluate.env_step := fun _ w => (S w, Raise KeyboardInterrupt);
     SAC_evaluate.env_render := fun w => (w, Ok tt);
     SAC_evaluate.env_render_rgb := fun w => (w, Ok tt);
     SAC_evaluate.env_close := fun w => (w, Ok tt);
     SAC_evaluate.get_writer := fun w => (w, Ok tt);
     SAC_evaluate.append_data := fun _ w => (w, Ok tt);
     SAC_evaluate.writer_close := fun w => (w, Ok tt) |}.

(** A disk as a map from paths to parameters. *)
Definition disk : SAC_checkpoint.Store :=
  {| SAC_checkpoint.net := Q;
     SAC_checkpoint.files := gmap string Q;
     SAC_checkpoint.net_save := fun p n f => <[p := n]> f;
     SAC_checkpoint.net_load := fun p f => f !! p |}.

(** A configuration that names its game. *)
Definition named_game : run_expe_config.yaml :=
  run_expe_config.YMap
    {[ "GAME" := run_expe_config.YStr "Pendulum-v0";
       "MAX_STEPS" := run_expe_config.YNum 200 ]}.

End MoreExamples.

(** * Properties *)

(** ** The ring buffer *)

Section RingFacts.
Context {T : Type}.
Implicit Types (b : ReplayMemory.t T) (xs : list T) (x : T).

Import ReplayMemory.

Lemma push_all_snoc xs x b :
  push_all (xs ++ [x]) b = push x (push_all xs b).
Proof. unfold push_all. by rewrite fold_left_app. Qed.

(** Two indices less than a capacity apart fall into different slots. *)
Lemma slots_differ (C j n : nat) :
  j < n → n - j < C → j mod C ≠ n mod C.
Proof.
  intros Hjn Hd Heq.
  assert (HC : C ≠ 0) by lia.
  pose proof (Nat.div_mod j C HC) as Hj.
  pose proof (Nat.div_mod n C HC) as Hn.
  pose proof (Nat.mod_upper_bound j C HC).
  rewrite Heq in Hj.
  assert (j / C < n / C) by nia.
  nia.
Qed.

Lemma ring_inv_create C : ring_inv C (@nil T) (create C).
Proof.
  split; simpl; try done; try (intros j ?; lia).
  all: symmetry; apply Nat.Div0.mod_0_l.
Qed.

Lemma ring_inv_oldest C xs b :
  ring_inv C xs b → 0 < C → C ≤ length xs →
  memory b !! position b = xs !! (length xs - C).
Proof.
  intros [Hc Hp Hl Hs Hperm] HC Hn.
  rewrite Hp, <- (Hs (length xs - C)) by lia.
  f_equal.
  replace (length xs) with (length xs - C + 1 * C) at 1 by lia.
  by rewrite Nat.Div0.mod_add.
Qed.

Lemma ring_inv_push C xs x b :
  ring_inv C xs b → ring_inv C (xs ++ [x]) (push x b).
Proof.
  intros Hinv. pose proof Hinv as [Hc Hp Hl Hs Hperm].
  destruct (decide (length (memory b) < capacity b)) as [Hlt|Hge].
  - assert (Hn : length xs < C) by lia.
    assert (Hm : length (memory b) = length xs) by lia.
    split; unfold push; simpl.
    + done.
    + rewrite Hp, Hc, length_app; simpl.
      rewrite (Nat.mod_small (length xs)) by lia. done.
    + rewrite decide_True by done.
      rewrite !length_app; simpl. lia.
    + rewrite decide_True by done.
      rewrite length_app; simpl. intros j Hj.
      rewrite Nat.mod_small by lia.
      destruct (decide (j = length xs)) as [->|Hne].
      * rewrite <- Hm at 1.
        rewrite !list_lookup_middle; done.
      * rewrite !lookup_app_l by lia.
        rewrite <- (Hs j) by lia.
        by rewrite Nat.mod_small by lia.
    + rewrite decide_True by done.
      rewrite length_app; simpl.
      replace (length xs + 1 - C) with 0 by lia.
      replace (length xs - C) with 0 in Hperm by lia.
      simpl in *. by rewrite Hperm.
  - assert (Hn : C ≤ length xs) by lia.
    assert (Hm : length (memory b) = C) by lia.
    destruct (decide (C = 0)) as [->|HC].
    { split; unfold push; simpl.
      - done.
      - rewrite Hc, Hp, length_app. reflexivity.
      - rewrite decide_False by done. rewrite length_insert. lia.
      - intros j. rewrite length_app; simpl. lia.
      - rewrite decide_False by done.
        apply nil_length_inv in Hm. rewrite Hm; simpl.
        rewrite length_app; simpl.
        rewrite drop_ge by (rewrite length_app; simpl; lia). done. }
    assert (Hold : memory b !! position b = xs !! (length xs - C)).
    { apply ring_inv_oldest; [done|lia|done]. }
    assert (Hpos : position b < C).
    { rewrite Hp. by apply Nat.mod_upper_bound. }
    split; unfold push; simpl.
    + done.
    + rewrite Hp, Hc, length_app; simpl.
      by rewrite Nat.Div0.add_mod_idemp_l.
    + rewrite decide_False by done.
      rewrite length_insert, length_app; simpl. lia.
    + rewrite decide_False by done.
      rewrite length_app; simpl. intros j Hj.
      destruct (decide (j = length xs)) as [->|Hne].
      * rewrite <- Hp, list_lookup_insert_eq by lia.
        by rewrite list_lookup_middle.
      * rewrite list_lookup_insert_ne.
        -- rewrite lookup_app_l by lia. apply Hs; lia.
        -- rewrite Hp. intros Heq. symmetry in Heq. revert Heq.
           apply slots_differ; lia.
    + rewrite decide_False by done.
      rewrite length_app; simpl.
      destruct (lookup_lt_is_Some_2 (memory b) (position b)) as [y Hy];
        [lia|].
      rewrite insert_take_drop by lia.
      rewrite <- (take_drop_middle (memory b) (position b) y) in Hperm
        by done.
      rewrite Hy in Hold. symmetry in Hold.
      rewrite (drop_S xs y (length xs - C)) in Hperm by done.
      rewrite <- Permutation_middle in Hperm.
      apply Permutation_cons_inv in Hperm.
      rewrite <- Permutation_middle, Hperm.
      replace (length xs + 1 - C) with (S (length xs - C)) by lia.
      rewrite drop_app_le by lia.
      by rewrite Permutation_cons_append.
Qed.

Lemma ring_inv_push_all C xs : ring_inv C xs (push_all xs (create C)).
Proof.
  induction xs as [|x xs IH] using rev_ind.
  - apply ring_inv_create.
  - rewrite push_all_snoc. by apply ring_inv_push.
Qed.

Lemma ring_inv_prefix C xs b :
  ring_inv C xs b → length xs ≤ C → memory b = xs.
Proof.
  intros [Hc Hp Hl Hs Hperm] Hn.
  apply list_eq. intros i.
  destruct (decide (i < length xs)) as [Hi|Hi].
  - rewrite <- (Hs i) by lia. by rewrite Nat.mod_small by lia.
  - rewrite !lookup_ge_None_2; [done|lia|lia].
Qed.

(** C2. After the pushes [xs] into an empty buffer of capacity [C]: the
    length is at most [C]; as long as no more than [C] items were pushed,
    the length is their number and the buffer holds them in order; after
    more than [C] pushes the length is [C], the buffer holds exactly the
    last [C] items pushed, the item pushed at rank [j] sits in slot
    [j mod C], and the slot under the cursor, which the next push
    overwrites, holds the oldest of them. *)
Theorem C2_ring_buffer (C : nat) xs :
  let b := push_all xs (create C) in
  len b ≤ C ∧
  (length xs ≤ C → len b = length xs ∧ memory b = xs) ∧
  (C < length xs →
     len b = C ∧
     memory b ≡ₚ drop (length xs - C) xs ∧
     (∀ j, length xs - C ≤ j < length xs →
           memory b !! (j mod C) = xs !! j) ∧
     (0 < C → memory b !! position b = xs !! (length xs - C)) ∧
     (∀ x, memory (push x b) = <[position b := x]> (memory b))).
Proof.
  intros b. pose proof (ring_inv_push_all C xs) as Hinv.
  fold b in Hinv. pose proof Hinv as [Hc Hp Hl Hs Hperm].
  unfold len. split; [lia|]. split.
  - intros Hn. split; [lia|]. by apply (ring_inv_prefix C).
  - intros Hn. split; [lia|]. split; [done|]. split; [done|]. split.
    + intros HC. apply (ring_inv_oldest C); [done|done|lia].
    + intros x. unfold push; simpl.
      rewrite decide_False by lia. done.
Qed.

End RingFacts.

(** Five pushes into a buffer of three slots. *)
Lemma C2_ring_buffer_witness :
  ReplayMemory.memory
    (ReplayMemory.push_all [10; 11; 12; 13; 14] (ReplayMemory.create 3))
  ≡ₚ [12; 13; 14].
Proof.
  pose proof (C2_ring_buffer 3 [10; 11; 12; 13; 14]) as (_ & _ & H).
  destruct H as (_ & H & _); [simpl; lia|]. exact H.
Defined.

(** ** Sampling *)

Section SampleFacts.
Context {T : Type} `{RandomSource}.
Implicit Types (pool drawn : list T) (g : rng).

Import ReplayMemory.

Lemma draw_with_replacement_spec k pool g :
  k ≤ length pool →
  length (draw_with_replacement k pool g).1 = k ∧
  ∀ x, x ∈ (draw_with_replacement k pool g).1 → x ∈ pool.
Proof.
  revert g. induction k as [|k IH]; intros g Hk; simpl.
  - split; [done|]. intros x Hx. by apply elem_of_nil in Hx.
  - destruct (rng_next g) as [r g1].
    destruct (lookup_lt_is_Some_2 pool (r mod length pool)) as [y Hy].
    { apply Nat.mod_upper_bound. lia. }
    rewrite Hy.
    destruct (IH g1) as [Hlen Hin]; [lia|].
    destruct (draw_with_replacement k pool g1) as [rest g2]; simpl in *.
    split; [by rewrite Hlen|].
    intros x [->|Hx]%elem_of_cons.
    + by eapply list_elem_of_lookup_2.
    + by apply Hin.
Qed.

Lemma draw_without_replacement_spec k pool g :
  k ≤ length pool →
  length (draw_without_replacement k pool g).1 = k ∧
  (draw_without_replacement k pool g).1 ⊆+ pool.
Proof.
  revert pool g. induction k as [|k IH]; intros pool g Hk; simpl.
  - split; [done|]. apply submseteq_nil_l.
  - destruct (rng_next g) as [r g1].
    destruct (lookup_lt_is_Some_2 pool (r mod length pool)) as [y Hy].
    { apply Nat.mod_upper_bound. lia. }
    rewrite Hy.
    destruct (IH (delete (r mod length pool) pool) g1) as [Hlen Hin].
    { rewrite length_delete by eauto. lia. }
    destruct (draw_without_replacement k _ g1) as [rest g2]; simpl in *.
    split; [by rewrite Hlen|].
    rewrite <- (take_drop_middle pool _ y Hy).
    rewrite <- Permutation_middle. apply submseteq_skip.
    rewrite Hin, delete_take_drop. done.
Qed.

(** A buffer that holds enough transitions yields a full sample of its
    entries. *)
Lemma sample_enough (replacement : bool) (k : nat)
    (b : ReplayMemory.t T) g :
  k ≤ len b →
  ∃ drawn g',
    sample replacement k b g = (Some drawn, g') ∧
    length drawn = k ∧
    ∀ x, x ∈ drawn → x ∈ memory b.
Proof.
  intros Hk. unfold sample, len in *.
  rewrite decide_False by lia.
  destruct replacement.
  - destruct (draw_with_replacement_spec k (memory b) g Hk) as [Hlen Hin].
    destruct (draw_with_replacement k (memory b) g) as [drawn g'].
    by exists drawn, g'.
  - destruct (draw_without_replacement_spec k (memory b) g Hk)
      as [Hlen Hin].
    destruct (draw_without_replacement k (memory b) g) as [drawn g'].
    exists drawn, g'. split; [done|]. split; [done|].
    intros x Hx. by eapply elem_of_submseteq.
Qed.

(** C5. A sample of [k] transitions from a buffer that holds at least [k]
    has exactly [k] items, each of which is an entry of the buffer; the
    buffer itself is only read. *)
Theorem C5_sample_stored_entries (replacement : bool) (k : nat)
    (b : ReplayMemory.t T) g :
  k ≤ len b →
  ∃ drawn g',
    sample replacement k b g = (Some drawn, g') ∧
    length drawn = k ∧
    ∀ x, x ∈ drawn → x ∈ memory b.
Proof. apply sample_enough. Qed.

End SampleFacts.

(** Two transitions drawn from a buffer of three. *)
Lemma C5_sample_stored_entries_witness :
  ∃ drawn g',
    @ReplayMemory.sample _ Examples.counter_random false 2 Examples.three 0
      = (Some drawn, g') ∧
    length drawn = 2 ∧
    ∀ x, x ∈ drawn → x ∈ ReplayMemory.memory Examples.three.
Proof.
  apply (@C5_sample_stored_entries _ Examples.counter_random).
  vm_compute. lia.
Defined.

(** ** N-step aggregation *)

Section NStepFacts.
Implicit Types (b : NStep.t) (tr : Transition) (w : list Transition).

Lemma discounted_return_3 (g r0 r1 r2 : Q) :
  (NStep.discounted_return g [r0; r1; r2] == r0 + g * r1 + g ^ 2 * r2)%Q.
Proof.
  unfold NStep.discounted_return; simpl.
  change (g ^ 2)%Q with (g * g)%Q. change (g ^ 0)%Q with 1%Q.
  change (g ^ 1)%Q with g. ring.
Qed.

(** A window that ends with a terminal transition is flushed. *)
Lemma push_done b tr :
  done tr = true →
  NStep.push tr b =
    NStep.mk (NStep.push_aggregate (NStep.gamma b) (NStep.window b ++ [tr])
                                   (NStep.main b))
             [] (NStep.n_step b) (NStep.gamma b).
Proof. intros Hd. unfold NStep.push. by rewrite Hd. Qed.

(** A short window only grows. *)
Lemma push_pending b tr :
  done tr = false → S (length (NStep.window b)) < NStep.n_step b →
  NStep.push tr b =
    NStep.mk (NStep.main b) (NStep.window b ++ [tr])
             (NStep.n_step b) (NStep.gamma b).
Proof.
  intros Hd Hn. unfold NStep.push. rewrite Hd.
  rewrite decide_False; [done|]. rewrite length_app; simpl. lia.
Qed.

Lemma aggregate_snoc g w tr :
  ∃ agg,
    NStep.aggregate g (w ++ [tr]) = Some agg ∧
    state agg = state (default tr (head w)) ∧
    action agg = action (default tr (head w)) ∧
    reward agg = NStep.discounted_return g (fmap reward (w ++ [tr])) ∧
    next_state agg = next_state tr ∧
    done agg = done tr.
Proof.
  unfold NStep.aggregate.
  destruct w as [|hd w].
  - simpl. eexists; repeat split; reflexivity.
  - pose proof (last_last (hd :: w) tr hd) as Hl.
    simpl in Hl |- *.
    eexists; split; [reflexivity|]. simpl. by rewrite Hl.
Qed.

(** The window stays shorter than [n_step]; the other fields are kept. *)
Lemma push_window_bound b tr :
  0 < NStep.n_step b → length (NStep.window b) < NStep.n_step b →
  length (NStep.window (NStep.push tr b)) < NStep.n_step (NStep.push tr b) ∧
  NStep.n_step (NStep.push tr b) = NStep.n_step b ∧
  NStep.gamma (NStep.push tr b) = NStep.gamma b.
Proof.
  intros Hpos Hlen. unfold NStep.push.
  destruct (done tr); [by simpl|].
  destruct (decide _) as [Hfull|Hshort]; simpl; [|split; [lia|done]].
  split; [|done].
  destruct (NStep.window b) as [|a w]; simpl in *; [lia|].
  rewrite length_app. simpl. lia.
Qed.

(** After two transitions that are not terminal, a window of three holds
    these two, whatever it held before. *)
Lemma push_two b tr0 tr1 :
  NStep.n_step b = 3 → length (NStep.window b) < 3 →
  done tr0 = false → done tr1 = false →
  NStep.window (NStep.push tr1 (NStep.push tr0 b)) = [tr0; tr1] ∧
  NStep.n_step (NStep.push tr1 (NStep.push tr0 b)) = 3 ∧
  NStep.gamma (NStep.push tr1 (NStep.push tr0 b)) = NStep.gamma b.
Proof.
  destruct b as [m w n g]. simpl. intros -> Hlen Hd0 Hd1.
  destruct w as [|a [|c [|e w]]]; [| | |simpl in Hlen; lia];
    unfold NStep.push; simpl; rewrite Hd0; simpl; by rewrite Hd1.
Qed.

(** C6. With a window of three, whatever the window holds when they come,
    three transitions in a row of one episode leave the first two alone in
    the window, and the third makes the memory push one aggregated
    transition, with reward [r0 + g*r1 + g^2*r2], the state of the first
    and the next state of the third; the window then slides by one.  On
    a memory whose window is empty nothing is pushed before the third.
    The window always stays shorter than [n_step].  A terminal transition
    makes the memory push at once one transition aggregated from the
    window and itself, whose reward is the discounted sum of these rewards
    only, and leaves the window empty. *)
Theorem C6_nstep_aggregation :
  (∀ b tr0 tr1 tr2,
     NStep.n_step b = 3 → length (NStep.window b) < 3 →
     done tr0 = false → done tr1 = false →
     let b1 := NStep.push tr0 b in
     let b2 := NStep.push tr1 b1 in
     let b3 := NStep.push tr2 b2 in
     NStep.window b2 = [tr0; tr1] ∧
     (NStep.window b = [] →
      NStep.main b1 = NStep.main b ∧ NStep.main b2 = NStep.main b) ∧
     (done tr2 = false → NStep.window b3 = [tr1; tr2]) ∧
     ∃ agg,
       NStep.main b3 = ReplayMemory.push agg (NStep.main b2) ∧
       state agg = state tr0 ∧
       action agg = action tr0 ∧
       next_state agg = next_state tr2 ∧
       done agg = done tr2 ∧
       (reward agg ==
          reward tr0 + NStep.gamma b * reward tr1
          + NStep.gamma b ^ 2 * reward tr2)%Q) ∧
  (∀ b tr,
     0 < NStep.n_step b → length (NStep.window b) < NStep.n_step b →
     length (NStep.window (NStep.push tr b)) < NStep.n_step b) ∧
  (∀ b tr,
     done tr = true →
     ∃ agg,
       NStep.main (NStep.push tr b) = ReplayMemory.push agg (NStep.main b) ∧
       NStep.window (NStep.push tr b) = [] ∧
       state agg = state (default tr (head (NStep.window b))) ∧
       next_state agg = next_state tr ∧
       done agg = true ∧
       reward agg =
         NStep.discounted_return (NStep.gamma b)
           (fmap reward (NStep.window b) ++ [reward tr])).
Proof.
  split; [|split].
  - intros b tr0 tr1 tr2 Hn Hlen Hd0 Hd1 b1 b2 b3.
    destruct (push_two b tr0 tr1 Hn Hlen Hd0 Hd1) as (Hw2 & Hn2 & Hg2).
    fold b1 in Hw2, Hn2, Hg2. fold b2 in Hw2, Hn2, Hg2.
    split; [done|]. split; [|split].
    + intros Hw.
      assert (Hb1 : b1 = NStep.mk (NStep.main b) [tr0] 3 (NStep.gamma b)).
      { unfold b1. rewrite push_pending, Hw, Hn; [done|done|].
        rewrite Hw, Hn; simpl; lia. }
      split; [by rewrite Hb1|].
      unfold b2. rewrite Hb1, push_pending; simpl; [done|done|lia].
    + intros Hd2. unfold b3, NStep.push. rewrite Hd2, Hw2, Hn2. done.
    + destruct (aggregate_snoc (NStep.gamma b) [tr0; tr1] tr2)
        as (agg & Hagg & Hs & Ha & Hr & Hns & Hdone).
      exists agg.
      assert (Hmain : NStep.main b3
                      = NStep.push_aggregate (NStep.gamma b)
                          [tr0; tr1; tr2] (NStep.main b2)).
      { unfold b3, NStep.push. rewrite Hw2, Hn2, Hg2. simpl.
        by destruct (done tr2). }
      split.
      { rewrite Hmain. unfold NStep.push_aggregate.
        change [tr0; tr1; tr2] with ([tr0; tr1] ++ [tr2]).
        by rewrite Hagg. }
      split; [done|]. split; [done|]. split; [done|]. split; [done|].
      rewrite Hr. apply discounted_return_3.
  - intros b tr Hpos Hlen.
    destruct (push_window_bound b tr Hpos Hlen) as (Hb & Hn & _).
    by rewrite <- Hn.
  - intros b tr Hd.
    rewrite push_done by done; simpl.
    destruct (aggregate_snoc (NStep.gamma b) (NStep.window b) tr)
      as (agg & Hagg & Hs & _ & Hr & Hns & Hdone).
    exists agg. unfold NStep.push_aggregate. rewrite Hagg.
    rewrite fmap_app in Hr.
    repeat split; try done. by rewrite Hdone.
Qed.

End NStepFacts.

(** A window that holds two older transitions, then three transitions with
    rewards 1, 2 and 4 at discount 1/2: the third is terminal, the
    aggregated reward is 1 + 2/2 + 4/4. *)
Lemma C6_nstep_aggregation_witness :
  let b := NStep.push Examples.tr1 (NStep.push Examples.tr0 Examples.nstep3) in
  let b2 := NStep.push Examples.tr1 (NStep.push Examples.tr0 b) in
  ∃ agg,
    NStep.main (NStep.push Examples.tr2 b2)
    = ReplayMemory.push agg (NStep.main b2) ∧
    state agg = [0%Q] ∧
    next_state agg = [3%Q] ∧
    (reward agg == 1 + (1 # 2) * 2 + (1 # 2) ^ 2 * 4)%Q.
Proof.
  intros b b2.
  destruct C6_nstep_aggregation as [H _].
  destruct (H b Examples.tr0 Examples.tr1 Examples.tr2)
    as (_ & _ & _ & agg & Hmain & Hs & _ & Hn & _ & Hr);
    [reflexivity|vm_compute; lia|reflexivity|reflexivity|].
  exists agg. split; [exact Hmain|]. split; [exact Hs|].
  split; [exact Hn | exact Hr].
Defined.

(** ** Transposition of a sample *)

Section ZipFacts.
Context {A B : Type}.

Lemma heads_cons (f : A → B) (g : A → list B) (l : list A) :
  heads ((fun x => f x :: g x) <$> l) = Some (f <$> l).
Proof.
  unfold heads. induction l as [|x l IH]; [done|].
  rewrite !fmap_cons. cbn. rewrite IH. done.
Qed.

Lemma tails_cons (f : A → B) (g : A → list B) (l : list A) :
  tails ((fun x => f x :: g x) <$> l) = g <$> l.
Proof.
  unfold tails. rewrite <- list_fmap_compose. done.
Qed.

Lemma zip_rows_cons (n : nat) (f : A → B) (g : A → list B) (l : list A) :
  zip_rows (S n) ((fun x => f x :: g x) <$> l)
  = (f <$> l) :: zip_rows n (g <$> l).
Proof. simpl. by rewrite heads_cons, tails_cons. Qed.

End ZipFacts.

Section BatchFacts.
Implicit Types (ts : list Transition) (tr : Transition).

Lemma zip_star_as_tuple ts :
  ts ≠ [] → zip_star (as_tuple <$> ts) = TD3.columns ts.
Proof.
  intros Hne. destruct ts as [|tr ts]; [done|].
  unfold zip_star. rewrite fmap_cons.
  change (length (as_tuple tr)) with 5.
  rewrite <- fmap_cons. unfold as_tuple, TD3.columns.
  by rewrite !zip_rows_cons.
Qed.

Lemma float_matrix_vec {X : Type} (f : X → list Q) (l : list X) :
  float_matrix ((fun x => VVec (f x)) <$> l)
  = if uniform (f <$> l) then Some (f <$> l) else None.
Proof.
  unfold float_matrix.
  rewrite (list_fmap_compose f VVec).
  by rewrite (mapM_fmap_Some float_row VVec).
Qed.

Lemma float_vector_num {X : Type} (f : X → Q) (l : list X) :
  float_vector ((fun x => VNum (f x)) <$> l) = Some (f <$> l).
Proof.
  unfold float_vector.
  rewrite (list_fmap_compose f VNum). by apply mapM_fmap_Some.
Qed.

Lemma float_vector_bool {X : Type} (f : X → bool) (l : list X) :
  float_vector ((fun x => VBool (f x)) <$> l)
  = Some (float_of_bool ∘ f <$> l).
Proof.
  unfold float_vector. induction l as [|x l IH]; [done|].
  rewrite !fmap_cons. cbn. change (mapM float_scalar) with
    (mapM (M := option) float_scalar) in IH.
  rewrite IH. done.
Qed.




Lemma tensors_nil : TD3.tensors [] = None ∧ SAC.tensors [] = None.
Proof. done. Qed.

Lemma TD3_tensors_inv ts b :
  TD3.tensors (as_tuple <$> ts) = Some b →
  b = TD3.batch_of ts ∧ ts ≠ [] ∧ well_shaped ts.
Proof.
  destruct ts as [|tr ts]; [done|].
  unfold TD3.tensors. rewrite zip_star_as_tuple by done.
  unfold TD3.columns, well_shaped.
  cbn [lookup list_lookup mbind option_bind].
  rewrite !float_matrix_vec, float_vector_num, float_vector_bool.
  destruct (uniform (state <$> tr :: ts)); [|done].
  destruct (uniform (action <$> tr :: ts)); [|done].
  destruct (uniform (next_state <$> tr :: ts)); [|done].
  cbn. by intros [= <-].
Qed.

Lemma SAC_tensors_inv ts b :
  SAC.tensors (as_tuple <$> ts) = Some b →
  b = TD3.batch_of ts ∧ ts ≠ [] ∧ well_shaped ts.
Proof.
  destruct ts as [|tr ts]; [done|].
  unfold SAC.tensors. rewrite zip_star_as_tuple by done.
  unfold TD3.columns, well_shaped.
  rewrite !float_matrix_vec, float_vector_num, float_vector_bool.
  destruct (uniform (state <$> tr :: ts)); [|done].
  destruct (uniform (action <$> tr :: ts)); [|done].
  destruct (uniform (next_state <$> tr :: ts)); [|done].
  cbn. by intros [= <-].
Qed.

End BatchFacts.

(** ** The optimisation steps *)

(** C1. While the replay memory holds fewer transitions than the batch size,
    the optimisation step of each agent returns at once: nothing is drawn
    (the random state is the same), the model, with its networks, optimizers
    and counters, is the same, and the call returns no value ([None] for
    DQN and SAC, the pair [(None, None)] for TD3) instead of raising. *)
Theorem C1_optimize_gate :
  (∀ (F : DQN.Framework) (R : RandomSource) cfg g (m : DQN.Model F),
     ReplayMemory.len (DQN.memory m) < DQN.BATCH_SIZE cfg →
     DQN.optimize_model cfg g m = (g, m, Ok tt)) ∧
  (∀ (F : TD3.Framework) (R : RandomSource) cfg g (m : TD3.Model F),
     ReplayMemory.len (TD3.memory m) < TD3.BATCH_SIZE cfg →
     TD3.optimize cfg g m = (g, m, Ok (None, None))) ∧
  (∀ (F : SAC.Framework) (R : RandomSource) cfg g (m : SAC.Model F),
     ReplayMemory.len (SAC.memory m) < SAC.BATCH_SIZE cfg →
     SAC.optimize cfg g m = (g, m, Ok tt)).
Proof.
  split; [|split]; intros F R cfg g m Hlen.
  - unfold DQN.optimize_model. by rewrite decide_True.
  - unfold TD3.optimize, TD3.optimize_from. by rewrite decide_True.
  - unfold SAC.optimize, SAC.optimize_from. by rewrite decide_True.
Qed.

(** Three transitions in memory, a batch size of five. *)
Lemma C1_optimize_gate_witness :
  @DQN.optimize_model _ Examples.counter_random (Examples.dqn_config 5) 0
Examples.dqn_model
= (0, Examples.dqn_model, Ok tt) ∧
@TD3.optimize _ Examples.counter_random (Examples.td3_config 5) 0
(Examples.td3_model 0)
= (0, Examples.td3_model 0, Ok (None, None)) ∧
@SAC.optimize _ Examples.counter_random (Examples.sac_config 5) 0
Examples.sac_model
= (0, Examples.sac_model, Ok tt).
Proof.
  destruct C1_optimize_gate as (HD & HT & HS).
  split; [|split].
  - apply (HD _ Examples.counter_random). vm_compute. lia.
  - apply (HT _ Examples.counter_random). vm_compute. lia.
  - apply (HS _ Examples.counter_random). vm_compute. lia.
Defined.

Section Targets.

Lemma TD3_bootstrap_lookup gamma (rs ds ts : list Q) i r d t :
  rs !! i = Some r → ds !! i = Some d → ts !! i = Some t →
  TD3.bootstrap gamma rs ds ts !! i = Some (r + d * gamma * t)%Q.
Proof.
  intros Hr Hd Ht. unfold TD3.bootstrap.
  rewrite !lookup_zip_with, list_lookup_fmap, Hr, Hd, Ht. done.
Qed.

Lemma SAC_bootstrap_lookup gamma (rs ds vs : list Q) i r d v :
  rs !! i = Some r → ds !! i = Some d → vs !! i = Some v →
  SAC.bootstrap gamma rs ds vs !! i = Some (r + (1 - d) * gamma * v)%Q.
Proof.
  intros Hr Hd Hv. unfold SAC.bootstrap.
  rewrite !lookup_zip_with, list_lookup_fmap, Hr, Hd, Hv. done.
Qed.

Lemma batch_of_lookup ts i tr :
  ts !! i = Some tr →
  TD3.rewards (TD3.batch_of ts) !! i = Some (reward tr) ∧
  TD3.dones (TD3.batch_of ts) !! i = Some (float_of_bool (done tr)).
Proof.
  intros Hi. unfold TD3.batch_of; simpl.
  rewrite !list_lookup_fmap, Hi. done.
Qed.

End Targets.

(** C3. In a call of TD3's [optimize] that is not skipped, both critics make
    their step on the squared error against one target, and a call that
    returns returns the loss of critic A against it.  For the i-th sampled
    transition this target is
    [reward + done * GAMMA * min(target_Qa, target_Qb)], with the stored
    flag [done] as a number: the reward alone when the flag is false, the
    reward plus the discounted minimum of the two target critics when it is
    true.  In SAC the gradient updates are given the target
    [reward + (1 - done) * GAMMA * next_V]: the discounted value is added
    when the flag is false, and the target is the reward alone when it is
    true. *)
Theorem C3_termination_masking :
  (∀ (F : TD3.Framework) (R : RandomSource) cfg g (m : TD3.Model F) ts g1 b,
     ¬ ReplayMemory.len (TD3.memory m) < TD3.BATCH_SIZE cfg →
     ReplayMemory.sample (TD3.REPLACEMENT cfg) (TD3.BATCH_SIZE cfg)
                         (TD3.memory m) g = (Some ts, g1) →
     TD3.tensors (as_tuple <$> ts) = Some b →
     let noise :=
       (rng_normal (TD3.UPDATE_SIGMA cfg) (TD3.BATCH_SIZE cfg) g1).1 in
     let y := TD3.target_Q cfg m b noise in
     let loss := fun n =>
       mse_loss (TD3.critic_forward F n (TD3.states b) (TD3.actions b)) y in
     let m' := (TD3.optimize cfg g m).1.2 in
     (∀ la lc, (TD3.optimize cfg g m).2 = Ok (la, lc) →
        TD3.nn (TD3.critic_A m')
        = TD3.nn (TD3.step_critic loss (TD3.critic_A m)) ∧
        TD3.nn (TD3.critic_B m')
        = TD3.nn (TD3.step_critic loss (TD3.critic_B m)) ∧
        lc = Some (loss (TD3.nn (TD3.critic_A m)))) ∧
     (∀ i tr qa qb,
        ts !! i = Some tr →
        TD3.target_Qa cfg m b noise !! i = Some qa →
        TD3.target_Qb cfg m b noise !! i = Some qb →
        ∃ yi,
          y !! i = Some yi ∧
          yi = (reward tr
                + float_of_bool (done tr) * TD3.GAMMA cfg * Qmin qa qb)%Q ∧
          (done tr = false → (yi == reward tr)%Q) ∧
          (done tr = true →
           (yi == reward tr + TD3.GAMMA cfg * Qmin qa qb)%Q))) ∧
  (∀ (F : SAC.Framework) (R : RandomSource) cfg g (m : SAC.Model F) ts g1 b,
     ¬ ReplayMemory.len (SAC.memory m) < SAC.BATCH_SIZE cfg →
     ReplayMemory.sample (SAC.REPLACEMENT cfg) (SAC.BATCH_SIZE cfg)
                         (SAC.memory m) g = (Some ts, g1) →
     SAC.tensors (as_tuple <$> ts) = Some b →
     let y := SAC.target_Q cfg m b in
     let m' := (SAC.optimize cfg g m).1.2 in
     ((SAC.optimize cfg g m).2 = Ok tt →
      SAC.networks m'
      = (SAC.gradient_updates F (SAC.AUTO_ALPHA cfg) (SAC.TAU cfg)
           (SAC.networks m) b y g1).1) ∧
     (∀ i tr v,
        ts !! i = Some tr →
        SAC.target_value F (SAC.networks m) (TD3.next_states b) !! i
        = Some v →
        ∃ yi,
          y !! i = Some yi ∧
          yi = (reward tr
                + (1 - float_of_bool (done tr)) * SAC.GAMMA cfg * v)%Q ∧
          (done tr = false → (yi == reward tr + SAC.GAMMA cfg * v)%Q) ∧
          (done tr = true → (yi == reward tr)%Q))).
Proof.
  split.
  - intros F R cfg g m ts g1 b Hlen Hsample Hb noise y loss m'.
    split.
    + subst m'. unfold TD3.optimize, TD3.optimize_from.
      rewrite decide_False by done. rewrite Hsample, Hb.
      subst loss y noise.
      destruct (rng_normal _ _ _) as [noise g2]. cbn [fst].
      destruct (decide _); cbn; intros la lc [= <- <-];
        unfold TD3.soft_update; by cbn.
    + intros i tr qa qb Hi Ha Hb'.
      apply TD3_tensors_inv in Hb as [-> _].
      destruct (batch_of_lookup ts i tr Hi) as [Hr Hd].
      eexists. split; [|split; [reflexivity|]].
      * subst y. unfold TD3.target_Q.
        apply TD3_bootstrap_lookup; [done|done|].
        rewrite lookup_zip_with, Ha, Hb'. done.
      * split; intros ->; simpl; ring.
  - intros F R cfg g m ts g1 b Hlen Hsample Hb y m'.
    split.
    + subst m'. unfold SAC.optimize, SAC.optimize_from.
      rewrite decide_False by done. rewrite Hsample, Hb.
      subst y. by destruct (SAC.gradient_updates _ _ _ _ _ _ _).
    + intros i tr v Hi Hv.
      apply SAC_tensors_inv in Hb as [-> _].
      destruct (batch_of_lookup ts i tr Hi) as [Hr Hd].
      eexists. split; [|split; [reflexivity|]].
      * subst y. unfold SAC.target_Q. by apply SAC_bootstrap_lookup.
      * split; intros ->; simpl; ring.
Qed.

(** A sampled batch of a non-terminal and a terminal transition: the
    critics step against the target, to which the bootstrap term is added
    for the terminal transition in TD3, for the other one in SAC. *)
Lemma C3_termination_masking_witness :
  let ts := [Examples.tr1; Examples.tr2] in
  let y := TD3.target_Q (Examples.td3_config 2) (Examples.td3_model 0)
             (TD3.batch_of ts) [0%Q; 0%Q] in
  let ys := SAC.target_Q (Examples.sac_config 2) Examples.sac_model
              (TD3.batch_of ts) in
  (TD3.nn (TD3.critic_A
             (@TD3.optimize _ Examples.counter_random (Examples.td3_config 2)
                1 (Examples.td3_model 0)).1.2)
   = TD3.nn (TD3.step_critic
               (fun n =>
                  mse_loss (TD3.critic_forward Examples.td3_framework n
                              (state <$> ts) (action <$> ts)) y)
               (TD3.critic_A (Examples.td3_model 0)))) ∧
  (∃ yi, y !! 0 = Some yi ∧ (yi == 2)%Q) ∧
  (∃ yi, y !! 1 = Some yi ∧ (yi == 4 + (1 # 2) * Qmin 1 2)%Q) ∧
  (SAC.networks
     (@SAC.optimize _ Examples.counter_random (Examples.sac_config 2) 1
Examples.sac_model).1.2
= (@SAC.gradient_updates Examples.sac_framework Examples.counter_random
false (1 # 10) 3%Q (TD3.batch_of ts) ys (3%nat : nat)).1) ∧
(∃ yi, ys !! 0 = Some yi ∧ (yi == 2 + (1 # 2) * 3)%Q) ∧
(∃ yi, ys !! 1 = Some yi ∧ (yi == 4)%Q).
Proof.
  intros ts y ys.
  destruct C3_termination_masking as [HT HS].
  destruct (HT Examples.td3_framework Examples.counter_random
              (Examples.td3_config 2) (1%nat : nat) (Examples.td3_model 0)
              ts (3%nat : nat) (TD3.batch_of ts)) as [Hopt Hy];
    [vm_compute; lia|reflexivity|reflexivity|].
  destruct (HS Examples.sac_framework Examples.counter_random
              (Examples.sac_config 2) (1%nat : nat) Examples.sac_model
              ts (3%nat : nat) (TD3.batch_of ts)) as [Hsac Hys];
    [vm_compute; lia|reflexivity|reflexivity|].
  split; [|split; [|split; [|split; [|split]]]].
  - by destruct (Hopt _ _ eq_refl) as (HA & _ & _).
  - destruct (Hy 0 Examples.tr1 1%Q 2%Q eq_refl eq_refl eq_refl)
      as (yi & Hyi & _ & H0 & _).
    exists yi. split; [exact Hyi | apply H0; reflexivity].
  - destruct (Hy 1 Examples.tr2 1%Q 2%Q eq_refl eq_refl eq_refl)
      as (yi & Hyi & _ & _ & H1).
    exists yi. split; [exact Hyi | apply H1; reflexivity].
  - by apply Hsac.
  - destruct (Hys 0 Examples.tr1 3%Q eq_refl eq_refl)
      as (yi & Hyi & _ & H0 & _).
    exists yi. split; [exact Hyi | apply H0; reflexivity].
  - destruct (Hys 1 Examples.tr2 3%Q eq_refl eq_refl)
      as (yi & Hyi & _ & _ & H1).
    exists yi. split; [exact Hyi | apply H1; reflexivity].
Defined.

Section DelayedUpdate.
Context {F : TD3.Framework} `{RandomSource}.
Implicit Types (m : TD3.Model F) (g : rng).

(** A step of a critic leaves its target alone. *)
Lemma target_nn_step_critic loss (c : TD3.Network F) :
  TD3.target_nn (TD3.step_critic loss c) = TD3.target_nn c.
Proof.
  unfold TD3.step_critic. by destruct (TD3.critic_update F _ _ _).
Qed.

(** What a call that is not skipped does to the counter and the memory. *)
Lemma optimize_counts cfg g m :
  ¬ ReplayMemory.len (TD3.memory m) < TD3.BATCH_SIZE cfg →
  TD3.update_step (TD3.optimize cfg g m).1.2 = (TD3.update_step m + 1)%Z ∧
  TD3.memory (TD3.optimize cfg g m).1.2 = TD3.memory m.
Proof.
  intros Hlen. unfold TD3.optimize, TD3.optimize_from. rewrite decide_False by done.
  destruct (ReplayMemory.sample _ _ _ _) as [[transitions|] g1]; [|done].
  destruct (TD3.tensors _) as [b|]; [|done].
  destruct (rng_normal _ _ _) as [noise g2].
  by destruct (decide _).
Qed.

(** The counter is the number of calls that were not skipped. *)
Lemma optimize_n_counts cfg n g m :
  ¬ ReplayMemory.len (TD3.memory m) < TD3.BATCH_SIZE cfg →
  TD3.update_step (TD3.optimize_n cfg n g m).2
  = (TD3.update_step m + Z.of_nat n)%Z.
Proof.
  revert g m. induction n as [|n IH]; intros g m Hlen.
  - simpl. lia.
  - cbn [TD3.optimize_n].
    destruct (optimize_counts cfg g m Hlen) as [Hstep Hmem].
    destruct (TD3.optimize cfg g m) as [[g1 m1] r]; simpl in *.
    rewrite IH by (by rewrite Hmem). lia.
Qed.

(** C9. A call of [optimize] that is not skipped adds one to
    [update_step].  When the new counter is odd, the actor (network,
    target and optimizer) and the targets of both critics are what they
    were, and a call that returns returns [None] as actor loss.  When it is
    even, a call that returns has made one step of the actor on the loss
    [-critic_A(states, actor(states)).mean()], moved the three targets
    towards their networks, and returns the actor loss. *)
Theorem C9_delayed_actor_update cfg g m :
  ¬ ReplayMemory.len (TD3.memory m) < TD3.BATCH_SIZE cfg →
  let m' := (TD3.optimize cfg g m).1.2 in
  let r := (TD3.optimize cfg g m).2 in
  TD3.update_step m' = (TD3.update_step m + 1)%Z ∧
  (((TD3.update_step m + 1) mod 2 ≠ 0)%Z →
     TD3.actor m' = TD3.actor m ∧
     TD3.target_nn (TD3.critic_A m') = TD3.target_nn (TD3.critic_A m) ∧
     TD3.target_nn (TD3.critic_B m') = TD3.target_nn (TD3.critic_B m) ∧
     ∀ la lc, r = Ok (la, lc) → la = None) ∧
  (((TD3.update_step m + 1) mod 2 = 0)%Z →
     ∀ la lc, r = Ok (la, lc) →
       ∃ b loss,
         la = Some (loss (TD3.nn (TD3.actor m))) ∧
         (∀ n, loss n =
               (- mean (TD3.critic_forward F (TD3.nn (TD3.critic_A m'))
                          (TD3.states b)
                          (TD3.actor_forward F n (TD3.states b))))%Q) ∧
         TD3.actor m'
           = TD3.soft_update (TD3.TAU cfg)
               (TD3.step_actor loss (TD3.actor m)) ∧
         TD3.target_nn (TD3.critic_A m')
           = TD3.update_targets F (TD3.target_nn (TD3.critic_A m))
               (TD3.nn (TD3.critic_A m')) (TD3.TAU cfg) ∧
         TD3.target_nn (TD3.critic_B m')
           = TD3.update_targets F (TD3.target_nn (TD3.critic_B m))
               (TD3.nn (TD3.critic_B m')) (TD3.TAU cfg)).
Proof.
  intros Hlen m' r. subst m' r.
  split; [by apply optimize_counts|].
  unfold TD3.optimize, TD3.optimize_from. rewrite decide_False by done.
  destruct (ReplayMemory.sample _ _ _ _) as [[transitions|] g1];
    [|by split; intros; simpl].
  destruct (TD3.tensors _) as [b|]; [|by split; intros; simpl].
  destruct (rng_normal _ _ _) as [noise g2].
  destruct (decide _) as [Heven|Hodd]; simpl.
  - split; [done|]. intros _ la lc [= <- <-].
    exists b.
    exists (fun n =>
      (- mean (TD3.critic_forward F
                 (TD3.nn (TD3.step_critic
                    (fun n0 =>
                       mse_loss (TD3.critic_forward F n0 (TD3.states b)
                                   (TD3.actions b))
                                (TD3.target_Q cfg m b noise))
                    (TD3.critic_A m)))
                 (TD3.states b)
                 (TD3.actor_forward F n (TD3.states b))))%Q).
    rewrite !target_nn_step_critic. repeat split; reflexivity.
  - split; [|done]. intros _.
    rewrite !target_nn_step_critic.
    repeat split; try done. by intros la lc [= <- _].
Qed.

End DelayedUpdate.

(** The first call on a new model leaves the actor alone, the second one
    updates it. *)
Lemma C9_delayed_actor_update_witness :
  TD3.actor
    (@TD3.optimize _ Examples.counter_random (Examples.td3_config 2) 0
       (Examples.td3_model 0)).1.2
  = TD3.actor (Examples.td3_model 0) ∧
  ∃ b loss,
    TD3.actor
      (@TD3.optimize _ Examples.counter_random (Examples.td3_config 2) 0
         (Examples.td3_model 1)).1.2
    = TD3.soft_update (1 # 10)
        (TD3.step_actor loss (TD3.actor (Examples.td3_model 1))) ∧
    ∀ n, loss n =
         (- mean (TD3.critic_forward Examples.td3_framework
                    (TD3.nn (TD3.critic_A
                       (@TD3.optimize _ Examples.counter_random
                          (Examples.td3_config 2) 0%nat
                          (Examples.td3_model 1%Z)).1.2))
                    (TD3.states b)
                    (TD3.actor_forward Examples.td3_framework n
                       (TD3.states b))))%Q.
Proof.
  split.
  - destruct (@C9_delayed_actor_update _ Examples.counter_random
                (Examples.td3_config 2) 0 (Examples.td3_model 0))
      as (_ & Hodd & _); [vm_compute; lia|].
    destruct Hodd as (Ha & _); [vm_compute; discriminate|]. exact Ha.
  - destruct (@C9_delayed_actor_update _ Examples.counter_random
                (Examples.td3_config 2) 0 (Examples.td3_model 1))
      as (_ & _ & Heven); [vm_compute; lia|].
    destruct (Heven eq_refl _ _ eq_refl) as (b & loss & _ & Hl & Ha & _).
    exists b, loss. split; [exact Ha | exact Hl].
Defined.

(** ** The shape of a sample *)

Section SampleShape.
Context `{RandomSource}.
Implicit Types (ts : list Transition) (g : rng).







End SampleShape.



(** ** The drivers' traces *)

Section EffFacts.
Context {W V : Type}.
Implicit Types (s : Eff.st W V) (P : event → Prop).

Import Eff.

Lemma bind_run {A B : Type} (m : M W V A) (f : A → M W V B) s :
  (m ≫= f) s =
    match m s with
    | (s1, Ok a) => f a s1
    | (s1, Raise e) => (s1, Raise e)
    end.
Proof. reflexivity. Qed.

(** *** Properties that a computation keeps *)

Lemma keeps_ret {A : Type} P (a : A) : keeps P (mret a : M W V A).
Proof. by intros s Hs. Qed.

Lemma keeps_raise {A : Type} P e : keeps P (raise e : M W V A).
Proof. by intros s Hs. Qed.

Lemma keeps_call {A : Type} P (f : W → W * result A) :
  keeps P (call f : M W V A).
Proof. intros s Hs. unfold call. by destruct (f (world s)). Qed.

Lemma keeps_get P : keeps P (get : M W V V).
Proof. by intros s Hs. Qed.

Lemma keeps_modify P (f : V → V) : keeps P (modify f : M W V unit).
Proof. by intros s Hs. Qed.

Lemma keeps_emit P e : P e → keeps P (emit e : M W V unit).
Proof.
  intros He s Hs. simpl. apply Forall_app. split; [done|].
  by apply Forall_singleton.
Qed.

Lemma keeps_bind {A B : Type} P (m : M W V A) (f : A → M W V B) :
  keeps P m → (∀ a, keeps P (f a)) → keeps P (m ≫= f).
Proof.
  intros Hm Hf s Hs. rewrite bind_run. specialize (Hm s Hs).
  destruct (m s) as [s1 [a|e]]; simpl in *; [by apply Hf|done].
Qed.

Lemma keeps_except P (body : M W V unit) :
  keeps P body → keeps P (except_KeyboardInterrupt body).
Proof.
  intros Hb s Hs. unfold except_KeyboardInterrupt. specialize (Hb s Hs).
  by destruct (body s) as [s1 [a|[|]]].
Qed.

Lemma keeps_finally {A : Type} P (body : M W V A) (fin : M W V unit) :
  keeps P body → keeps P fin → keeps P (finally body fin).
Proof.
  intros Hb Hf s Hs. unfold finally. specialize (Hb s Hs).
  destruct (body s) as [s1 r]. specialize (Hf s1 Hb).
  by destruct (fin s1) as [s2 [a|e]].
Qed.

Lemma keeps_for_each {B : Type} P (xs : list B) (body : B → M W V unit) :
  (∀ x, keeps P (body x)) → keeps P (for_each xs body).
Proof.
  intros Hb. induction xs as [|x xs IH]; simpl.
  - apply keeps_ret.
  - apply (keeps_bind P (body x)); [apply Hb|by intros _].
Qed.

(** The body of a loop is only run under the loop's guard. *)
Lemma keeps_while P (n : nat) (cond : V → bool) (body : M W V unit) :
  (∀ s, cond (vars s) = true →
        Forall P (trace s) → Forall P (trace (body s).1)) →
  keeps P (while n cond body).
Proof.
  intros Hb. induction n as [|n IH]; intros s Hs; simpl;
    destruct (cond (vars s)) eqn:Hc; try done.
  unfold bind. specialize (Hb s Hc Hs).
  destruct (body s) as [s1 [a|e]]; simpl in *; [by apply IH|done].
Qed.

(** *** The trace only grows *)

Lemma extends_ret {A : Type} (a : A) : extends (mret a : M W V A).
Proof. by intros s. Qed.

Lemma extends_raise {A : Type} e : extends (raise e : M W V A).
Proof. by intros s. Qed.

Lemma extends_call {A : Type} (f : W → W * result A) :
  extends (call f : M W V A).
Proof. intros s. unfold call. by destruct (f (world s)). Qed.

Lemma extends_get : extends (get : M W V V).
Proof. by intros s. Qed.

Lemma extends_modify (f : V → V) : extends (modify f : M W V unit).
Proof. by intros s. Qed.

Lemma extends_emit e : extends (emit e : M W V unit).
Proof. intros s. simpl. by apply prefix_app_r. Qed.

Lemma extends_bind {A B : Type} (m : M W V A) (f : A → M W V B) :
  extends m → (∀ a, extends (f a)) → extends (m ≫= f).
Proof.
  intros Hm Hf s. rewrite bind_run. specialize (Hm s).
  destruct (m s) as [s1 [a|e]]; simpl in *; [|done].
  etrans; [exact Hm|apply Hf].
Qed.

(** *** Calls and the trace *)

Lemma call_trace {A : Type} (f : W → W * result A) s :
  trace (call f s).1 = trace s ∧ vars (call f s).1 = vars s.
Proof. unfold call. by destruct (f (world s)). Qed.

Lemma call_returns {A : Type} (f : W → W * result A) (a : A) s :
  (f (world s)).2 = Ok a →
  call f s = (mkSt (f (world s)).1 (vars s) (trace s), Ok a).
Proof. unfold call. destruct (f (world s)) as [w r]; simpl. by intros ->. Qed.

(** The final block of a [try] statement is run however the body ends:
    what holds of the trace after the final block, from any state, holds
    after the statement. *)
Lemma finally_runs {A : Type} (Q : list event → Prop)
    (body : M W V A) (fin : M W V unit) :
  (∀ s1, Q (trace (fin s1).1)) → ∀ s, Q (trace (finally body fin s).1).
Proof.
  intros Hf s. unfold finally. destruct (body s) as [s1 r].
  specialize (Hf s1). by destruct (fin s1) as [s2 [a|e]].
Qed.

End EffFacts.

(** One step of a proof that a computation keeps a property of the trace,
    chosen by the head of the computation. *)
Ltac keeps_step :=
  lazymatch goal with
  | |- Eff.keeps _ (mbind _ _) => apply keeps_bind; [|intros ?]
  | |- Eff.keeps _ (mret _) => apply keeps_ret
  | |- Eff.keeps _ (Eff.raise _) => apply keeps_raise
  | |- Eff.keeps _ (Eff.call _) => apply keeps_call
  | |- Eff.keeps _ Eff.get => apply keeps_get
  | |- Eff.keeps _ (Eff.modify _) => apply keeps_modify
  | |- Eff.keeps _ (Eff.except_KeyboardInterrupt _) => apply keeps_except
  | |- Eff.keeps _ (Eff.finally _ _) => apply keeps_finally
  | |- Eff.keeps _ (Eff.for_each _ _) => apply keeps_for_each
  end.

(** ** The DQN driver *)

Section DQNTrainFacts.
Context (I : DQN_train.Interface) (cfg : DQN_train.config).
Implicit Types (s : Eff.st (DQN_train.world I) DQN_train.locals).
Implicit Types (v : DQN_train.locals) (P : event → Prop).

Import Eff.

(** Line 90 under the guard of line 80: the test is false. *)
Lemma guard_excludes_force v (done1 : bool) :
  DQN_train.guard cfg v = true →
  negb done1 && bool_decide (DQN_train.step v = DQN_train.MAX_STEPS cfg)
  = false.
Proof.
  unfold DQN_train.guard. intros [_ Hlt%bool_decide_eq_true]%andb_true_iff.
  rewrite bool_decide_eq_false_2 by lia. by destruct done1.
Qed.

Lemma round_with_keeps P v episode :
  (∀ st a r st', P (EvPush (DQN_train.push_args st a r st'))) →
  (DQN_train.guard cfg v = true ∨ ∀ k, P (EvForcedDone k)) →
  keeps P (DQN_train.round_with I cfg v episode).
Proof.
  intros Hpush Hforce. unfold DQN_train.round_with.
  apply keeps_bind; [apply keeps_call|intros action].
  apply keeps_bind; [apply keeps_call|intros [[next_state reward] done1]].
  do 2 (keeps_step; [keeps_step|]).
  keeps_step.
  { destruct (negb done1 && _) eqn:Htest; [|keeps_step].
    destruct Hforce as [Hguard|Hforce].
    - by rewrite guard_excludes_force in Htest.
    - keeps_step; [by apply keeps_emit|keeps_step]. }
  keeps_step; [by apply keeps_emit|].
  repeat keeps_step.
Qed.

Lemma round_keeps P episode s :
  (∀ st a r st', P (EvPush (DQN_train.push_args st a r st'))) →
  (DQN_train.guard cfg (vars s) = true ∨ ∀ k, P (EvForcedDone k)) →
  Forall P (trace s) →
  Forall P (trace (DQN_train.round I cfg episode s).1).
Proof.
  intros Hpush Hforce Hs. unfold DQN_train.round. rewrite bind_run; simpl.
  by apply round_with_keeps.
Qed.

Lemma training_loop_keeps P :
  (∀ st a r st', P (EvPush (DQN_train.push_args st a r st'))) →
  keeps P (DQN_train.training_loop I cfg).
Proof.
  intros Hpush. unfold DQN_train.training_loop.
  keeps_step; [keeps_step|]. keeps_step. intros episode.
  unfold DQN_train.run_episode.
  do 5 (keeps_step; [keeps_step|]).
  keeps_step.
  { apply keeps_while. intros s Hguard Hs.
    apply round_keeps; auto. }
  apply keeps_bind; [apply keeps_get|intros v].
  keeps_step; [|keeps_step].
  destruct (DQN_train.loss v); keeps_step.
Qed.

Lemma train_keeps P :
  (∀ st a r st', P (EvPush (DQN_train.push_args st a r st'))) →
  P EvSave →
  keeps P (DQN_train.train I cfg).
Proof.
  intros Hpush Hsave. unfold DQN_train.train, DQN_train.guarded.
  keeps_step; [keeps_step|].
  keeps_step.
  { keeps_step.
    - keeps_step. by apply training_loop_keeps.
    - unfold DQN_train.final_block.
      keeps_step; [by apply keeps_emit|]. repeat keeps_step. }
  keeps_step; [keeps_step|].
  destruct (decide _); keeps_step.
Qed.

(** *** The episode loop runs to its end *)

Lemma round_counts episode s s' :
  DQN_train.round I cfg episode s = (s', Ok tt) →
  DQN_train.step (vars s') = (DQN_train.step (vars s) + 1)%Z.
Proof.
  unfold DQN_train.round, DQN_train.round_with.
  rewrite bind_run; simpl. rewrite bind_run.
  destruct (call_trace (DQN_train.select_action I
              (DQN_train.state (vars s)) episode) s) as [_ Hv1].
  destruct (call _ s) as [s1 [a|e]]; [|done]. simpl in Hv1.
  rewrite bind_run.
  destruct (call_trace (DQN_train.env_step I a) s1) as [_ Hv2].
  destruct (call _ s1) as [s2 [[[next_state reward] done1]|e]]; [|done].
  simpl in Hv2.
  unfold mbind, M_bind, bind, modify, emit, mret, M_ret, ret; simpl.
  destruct (negb done1 && _); simpl.
  - unfold call; simpl.
    destruct (DQN_train.memory_push I _ _) as [w3 [[]|e]]; [|done]; simpl.
    destruct (DQN_train.optimize I _ _ _) as [w4 [l|e]]; [|done]; simpl.
    by intros [= <-].
  - unfold call; simpl.
    destruct (DQN_train.memory_push I _ _) as [w3 [[]|e]]; [|done]; simpl.
    destruct (DQN_train.optimize I _ _ _) as [w4 [l|e]]; [|done]; simpl.
    by intros [= <-].
Qed.

Lemma while_exits episode (n : nat) s :
  (Z.to_nat (DQN_train.MAX_STEPS cfg - DQN_train.step (vars s)) ≤ n)%nat →
  ∀ s', while n (DQN_train.guard cfg) (DQN_train.round I cfg episode) s
        = (s', Ok tt) →
        DQN_train.guard cfg (vars s') = false.
Proof.
  revert s. induction n as [|n IH]; intros s Hn s'; simpl;
    destruct (DQN_train.guard cfg (vars s)) eqn:Hguard.
  - apply andb_true_iff in Hguard as [_ Hlt%bool_decide_eq_true]. lia.
  - by intros [= <-].
  - unfold bind.
    destruct (DQN_train.round I cfg episode s) as [s1 [[]|e]] eqn:Hround;
      [|done].
    apply round_counts in Hround.
    apply andb_true_iff in Hguard as [_ Hlt%bool_decide_eq_true].
    apply IH. lia.
  - by intros [= <-].
Qed.

(** C10. Under the guard of the episode loop the test of line 90 is false;
    no run of the training forces [done]; and the episode loop, started
    at step 0, ends with its guard false whenever no call raises: by a
    terminal state or at [step = MAX_STEPS], never by the forced flag. *)
Theorem C10_forced_done_unreachable :
  (∀ v (done1 : bool),
     DQN_train.guard cfg v = true →
     negb done1 && bool_decide (DQN_train.step v = DQN_train.MAX_STEPS cfg)
     = false) ∧
  (∀ w k, EvForcedDone k ∉ trace (DQN_train.run I cfg w).1) ∧
  (∀ episode s s',
     DQN_train.step (vars s) = 0%Z →
     while (Z.to_nat (DQN_train.MAX_STEPS cfg)) (DQN_train.guard cfg)
           (DQN_train.round I cfg episode) s = (s', Ok tt) →
     DQN_train.guard cfg (vars s') = false).
Proof.
  split; [exact guard_excludes_force|]. split.
  - intros w k Hin.
    assert (Hall : Forall not_forced (trace (DQN_train.run I cfg w).1)).
    { unfold DQN_train.run. by apply train_keeps. }
    rewrite Forall_forall in Hall. by apply (Hall _ Hin k).
  - intros episode s s' Hstep. apply while_exits. rewrite Hstep. lia.
Qed.

End DQNTrainFacts.

(** At the first round of an episode the test of line 90 is false, and a
    run of two episodes of at most two steps forces no [done]. *)
Lemma C10_forced_done_unreachable_witness :
  negb false
  && bool_decide (DQN_train.step DQN_train.init
                  = DQN_train.MAX_STEPS Examples.dqn_train_config) = false ∧
  (EvForcedDone 2 ∉
     Eff.trace (DQN_train.run (Examples.dqn_world true)
Examples.dqn_train_config 0).1).
Proof.
  destruct (C10_forced_done_unreachable (Examples.dqn_world true)
Examples.dqn_train_config) as (H1 & H2 & _).
split; [apply H1; reflexivity | apply H2].
Defined.

(** ** The driver of [commons] *)

Section RunExpeFacts.
Context (I : run_expe.Interface) (cfg : run_expe.config).
Implicit Types (s : Eff.st (run_expe.world I) run_expe.locals).
Implicit Types (v : run_expe.locals) (P : event → Prop).

Import Eff.

Lemma run_expe_round_keeps P v episode :
  (∀ st a r st' d, P (EvPush (run_expe.push_args st a r st' d))) →
  (∀ k, P (EvForcedDone k)) →
  keeps P (run_expe.round_with I cfg v episode).
Proof.
  intros Hpush Hforce. unfold run_expe.round_with.
  apply keeps_bind; [apply keeps_call|intros action].
  keeps_step; [destruct (run_expe.STARCCM cfg); keeps_step|].
  apply keeps_bind; [apply keeps_call|intros [[next_state reward] done1]].
  do 2 (keeps_step; [keeps_step|]).
  keeps_step.
  { destruct (_ && _); [|keeps_step].
    keeps_step; [by apply keeps_emit|keeps_step]. }
  apply keeps_bind; [apply keeps_get|intros v1].
  keeps_step; [by apply keeps_emit|].
  repeat keeps_step.
Qed.

Lemma every_keeps P freq episode (body : M (run_expe.world I) _ unit) :
  keeps P body → keeps P (run_expe.every I freq episode body).
Proof.
  intros Hb. unfold run_expe.every.
  destruct (decide (freq = 0%Z)); [keeps_step|].
  destruct (decide (episode mod freq = 0)%Z); [done|keeps_step].
Qed.

Lemma run_expe_train_keeps P :
  (∀ st a r st' d, P (EvPush (run_expe.push_args st a r st' d))) →
  (∀ k, P (EvForcedDone k)) →
  P EvSave →
  keeps P (run_expe.train I cfg).
Proof.
  intros Hpush Hforce Hsave. unfold run_expe.train, run_expe.guarded.
  do 5 (keeps_step; [keeps_step|]).
  keeps_step.
  - keeps_step. unfold run_expe.training_loop. keeps_step. intros episode.
    unfold run_expe.run_episode.
    do 3 (keeps_step; [keeps_step|]).
    apply keeps_bind; [apply keeps_call|intros s0].
    keeps_step; [keeps_step|].
    keeps_step.
    { apply keeps_while. intros s _ Hs.
      unfold run_expe.round. rewrite bind_run; simpl.
      by apply run_expe_round_keeps. }
    apply keeps_bind; [apply keeps_get|intros v].
    do 3 (keeps_step; [keeps_step|]).
    keeps_step.
    { apply every_keeps. keeps_step; [by apply keeps_emit|keeps_step]. }
    keeps_step.
    { apply every_keeps. repeat keeps_step. }
    keeps_step; [apply every_keeps|]; keeps_step.
  - unfold run_expe.final_block.
    keeps_step; [keeps_step|].
    apply keeps_bind; [apply keeps_get|intros v].
    do 2 (keeps_step; [keeps_step|]).
    keeps_step; [by apply keeps_emit|].
    keeps_step; [keeps_step|].
    destruct (run_expe.STARCCM cfg); keeps_step.
Qed.

(** *** The episode loop runs to its end *)

Lemma run_expe_round_counts episode s s' :
  run_expe.round I cfg episode s = (s', Ok tt) →
  run_expe.step (vars s') = (run_expe.step (vars s) + 1)%Z.
Proof.
  unfold run_expe.round, run_expe.round_with.
  unfold mbind, M_bind, bind, get, modify, emit, call, mret, M_ret, ret;
    simpl.
  destruct (run_expe.select_action I _ _ _) as [w1 [a|e]]; [|done]; simpl.
  destruct (run_expe.STARCCM cfg); simpl.
  - destruct (run_expe.env_finishCFD I false w1) as [w2 [[]|e]]; [|done];
      simpl.
    destruct (run_expe.env_step I a w2)
      as [w3 [[[next_state reward] done1]|e]]; [|done]; simpl.
    destruct (negb done1 && _); simpl;
      (destruct (run_expe.memory_push I _ _) as [w4 [[]|e]]; [|done]; simpl;
       destruct (run_expe.optimize I w4) as [w5 [[]|e]]; [|done]; simpl;
       by intros [= <-]).
  - destruct (run_expe.env_step I a w1)
      as [w3 [[[next_state reward] done1]|e]]; [|done]; simpl.
    destruct (run_expe.memory_push I _ _) as [w4 [[]|e]]; [|done]; simpl.
    destruct (run_expe.optimize I w4) as [w5 [[]|e]]; [|done]; simpl.
    by intros [= <-].
Qed.

Lemma run_expe_while_exits episode (n : nat) s :
  (Z.to_nat (run_expe.MAX_STEPS cfg - run_expe.step (vars s)) ≤ n)%nat →
  ∀ s', while n (run_expe.guard cfg) (run_expe.round I cfg episode) s
        = (s', Ok tt) →
        run_expe.guard cfg (vars s') = false.
Proof.
  revert s. induction n as [|n IH]; intros s Hn s'; simpl;
    destruct (run_expe.guard cfg (vars s)) eqn:Hguard.
  - apply andb_true_iff in Hguard as [_ Hlt%bool_decide_eq_true]. lia.
  - by intros [= <-].
  - unfold bind.
    destruct (run_expe.round I cfg episode s) as [s1 [[]|e]] eqn:Hround;
      [|done].
    apply run_expe_round_counts in Hround.
    apply andb_true_iff in Hguard as [_ Hlt%bool_decide_eq_true].
    apply IH. lia.
  - by intros [= <-].
Qed.

End RunExpeFacts.

(** C4, as amended. Every push made by the driver of [commons] supplies the
    five fields, the flag [done] being the last; every push made by the DQN
    driver supplies the four fields state, action, reward and next state,
    and no flag. *)
Theorem C4_pushed_fields :
  (∀ (I : run_expe.Interface) cfg w args,
     EvPush args ∈ Eff.trace (run_expe.run I cfg w).1 →
     ∃ s a r s' d, args = [VVec s; VVec a; VNum r; VVec s'; VBool d]) ∧
  (∀ (I : DQN_train.Interface) cfg w args,
     EvPush args ∈ Eff.trace (DQN_train.run I cfg w).1 →
     ∃ s a r s', args = [VVec s; VInt a; VNum r; VVec s']).
Proof.
  split.
  - intros I cfg w args Hin.
    assert (Hall : Forall five_fields (Eff.trace (run_expe.run I cfg w).1)).
    { unfold run_expe.run. apply run_expe_train_keeps; try done.
      intros st a r st' d args' [= <-]. by eexists _, _, _, _, _. }
    rewrite Forall_forall in Hall. by apply (Hall _ Hin).
  - intros I cfg w args Hin.
    assert (Hall : Forall four_fields (Eff.trace (DQN_train.run I cfg w).1)).
    { unfold DQN_train.run. apply train_keeps; try done.
      intros st a r st' args' [= <-]. by eexists _, _, _, _. }
    rewrite Forall_forall in Hall. by apply (Hall _ Hin).
Qed.

(** The pushes of a run of each driver. *)
Lemma C4_pushed_fields_witness :
  (∃ s a r s' d,
     [VVec [0%Q]; VVec [1%Q]; VNum 1; VVec [1%Q]; VBool true]
     = [VVec s; VVec a; VNum r; VVec s'; VBool d]) ∧
  (∃ s a r s',
     [VVec [0%Q]; VInt 1; VNum 1; VVec [0%Q]]
     = [VVec s; VInt a; VNum r; VVec s']).
Proof.
  destruct C4_pushed_fields as (H5 & H4). split.
  - apply (H5 (Examples.commons_world false false) Examples.commons_config 0).
    vm_compute. do 2 apply list_elem_of_further. apply list_elem_of_here.
  - apply (H4 (Examples.dqn_world false) Examples.dqn_train_config 0).
    vm_compute. apply list_elem_of_here.
Defined.

(** The first push of the DQN driver: four fields, none of them a flag. *)
Lemma C4_counterexample :
  ∃ args,
    EvPush args ∈
      Eff.trace (DQN_train.run (Examples.dqn_world false)
Examples.dqn_train_config 0).1 ∧
length args = 4 ∧
(∀ d, VBool d ∉ args) ∧
¬ five_fields (EvPush args).
Proof.
  exists [VVec [0%Q]; VInt 1; VNum 1; VVec [0%Q]].
  split; [vm_compute; apply list_elem_of_here|].
  split; [reflexivity|]. split.
  - intros d Hin. repeat (apply elem_of_cons in Hin as [Hin|Hin]; [done|]).
    by apply elem_of_nil in Hin.
  - intros H5. by destruct (H5 _ eq_refl) as (s & a & r & s' & d & Heq).
Qed.

(** ** The checkpoint at the end of a training *)

Section SaveFacts.
Import Eff.

Lemma except_trace {W V : Type} (body : M W V unit) (s : st W V) :
  trace (except_KeyboardInterrupt body s).1 = trace (body s).1.
Proof.
  unfold except_KeyboardInterrupt. by destruct (body s) as [s1 [a|[|]]].
Qed.

(** The final block of the DQN driver begins with the call of
    [model.save()]. *)
Lemma DQN_final_block_saves (I : DQN_train.Interface) s :
  trace (DQN_train.final_block I s).1 = trace s ++ [EvSave].
Proof.
  unfold DQN_train.final_block, mbind, M_bind, bind, emit, call; simpl.
  destruct (DQN_train.save I (world s)) as [w [[]|e]]; simpl; [|done].
  by destruct (DQN_train.report_saved I w) as [w' [[]|e]].
Qed.

Lemma DQN_guarded_saves (I : DQN_train.Interface) body s :
  trace (DQN_train.guarded I body s).1 = trace (body s).1 ++ [EvSave].
Proof.
  unfold DQN_train.guarded, finally.
  pose proof (except_trace body s) as Hbody.
  destruct (except_KeyboardInterrupt body s) as [s1 r]; simpl in *.
  pose proof (DQN_final_block_saves I s1) as Hfin.
  destruct (DQN_train.final_block I s1) as [s2 [a|e]]; simpl in *;
    congruence.
Qed.

Lemma DQN_run_saves (I : DQN_train.Interface) cfg w :
  ∃ t, trace (DQN_train.run I cfg w).1 = t ++ [EvSave].
Proof.
  unfold DQN_train.run, DQN_train.train.
  rewrite bind_run; simpl. rewrite bind_run.
  match goal with
  | |- context [DQN_train.guarded I ?body ?s] =>
      pose proof (DQN_guarded_saves I body s) as Hsave;
      destruct (DQN_train.guarded I body s) as [s1 [[]|e]]
  end; simpl in *; [|by eexists].
  rewrite bind_run; simpl.
  destruct (decide _); simpl; [by eexists|].
  destruct (call_trace (DQN_train.report_stats I
              (DQN_train.nb_total_steps (vars s1))
              (DQN_train.nb_episodes_done (vars s1))) s1) as [-> _].
  by eexists.
Qed.

(** The final block of the driver of [commons] calls [model.save()] after
    three methods of the environment. *)
Lemma run_expe_final_block_saves (I : run_expe.Interface) cfg s :
  (∀ w, (run_expe.env_print_array_in_files I w).2 = Ok tt) →
  (∀ rs w, (run_expe.env_plot_training_output I rs w).2 = Ok tt) →
  (∀ w, (run_expe.env_close I w).2 = Ok tt) →
  trace (run_expe.final_block I cfg s).1 = trace s ++ [EvSave].
Proof.
  intros Hprint Hplot Hclose.
  unfold run_expe.final_block, mbind, M_bind, bind, get, emit, call; simpl.
  pose proof (Hprint (world s)) as H1.
  destruct (run_expe.env_print_array_in_files I (world s)) as [w1 r1].
  simpl in H1; subst r1; simpl.
  pose proof (Hplot (run_expe.rewards (vars s)) w1) as H2.
  destruct (run_expe.env_plot_training_output I _ w1) as [w2 r2].
  simpl in H2; subst r2; simpl.
  pose proof (Hclose w2) as H3.
  destruct (run_expe.env_close I w2) as [w3 r3].
  simpl in H3; subst r3; simpl.
  destruct (run_expe.save I w3) as [w4 [[]|e]]; simpl; [|done].
  destruct (run_expe.STARCCM cfg); simpl; [|done].
  by destruct (run_expe.env_finishCFD I true w4) as [w5 [[]|e]].
Qed.

Lemma run_expe_guarded_saves (I : run_expe.Interface) cfg body s :
  (∀ w, (run_expe.env_print_array_in_files I w).2 = Ok tt) →
  (∀ rs w, (run_expe.env_plot_training_output I rs w).2 = Ok tt) →
  (∀ w, (run_expe.env_close I w).2 = Ok tt) →
  trace (run_expe.guarded I cfg body s).1 = trace (body s).1 ++ [EvSave].
Proof.
  intros Hprint Hplot Hclose.
  unfold run_expe.guarded, finally.
  pose proof (except_trace body s) as Hbody.
  destruct (except_KeyboardInterrupt body s) as [s1 r]; simpl in *.
  pose proof (run_expe_final_block_saves I cfg s1 Hprint Hplot Hclose)
    as Hfin.
  destruct (run_expe.final_block I cfg s1) as [s2 [a|e]]; simpl in *;
    congruence.
Qed.

End SaveFacts.

(** C8, as amended. In the DQN driver the final block begins with
    [model.save()]: however the training loop ends (to its end, by the user's
    interrupt, by another exception), the call is made next, and it is the
    last recorded call of every run.  In the driver of [commons] the final
    block calls [env.print_array_in_files], [env.plot_training_output] and
    [env.close] first: the same holds provided these three calls return. *)
Theorem C8_save_on_exit :
  (∀ (I : DQN_train.Interface) body s,
     Eff.trace (DQN_train.guarded I body s).1
     = Eff.trace (body s).1 ++ [EvSave]) ∧
  (∀ (I : DQN_train.Interface) cfg w,
     ∃ t, Eff.trace (DQN_train.run I cfg w).1 = t ++ [EvSave]) ∧
  (∀ (I : run_expe.Interface) cfg,
     (∀ w, (run_expe.env_print_array_in_files I w).2 = Ok tt) →
     (∀ rs w, (run_expe.env_plot_training_output I rs w).2 = Ok tt) →
     (∀ w, (run_expe.env_close I w).2 = Ok tt) →
     (∀ body s,
        Eff.trace (run_expe.guarded I cfg body s).1
        = Eff.trace (body s).1 ++ [EvSave]) ∧
     (∀ w, ∃ t, Eff.trace (run_expe.run I cfg w).1 = t ++ [EvSave])).
Proof.
  split; [exact DQN_guarded_saves|]. split; [exact DQN_run_saves|].
  intros I cfg Hprint Hplot Hclose.
  split; [intros body s; by apply run_expe_guarded_saves|].
  intros w. unfold run_expe.run, run_expe.train.
  eexists. simpl. by apply run_expe_guarded_saves.
Qed.

(** A training interrupted at the first [env.reset()], in each driver. *)
Lemma C8_save_on_exit_witness :
  (∃ t, Eff.trace (DQN_train.run (Examples.dqn_world false)
Examples.dqn_train_config 0).1 = t ++ [EvSave]) ∧
(∃ t, Eff.trace (run_expe.run (Examples.commons_world true false)
Examples.commons_config 0).1 = t ++ [EvSave]).
Proof.
  destruct C8_save_on_exit as (_ & HD & HC). split.
  - apply HD.
  - apply (HC (Examples.commons_world true false) Examples.commons_config);
      reflexivity.
Defined.

(** The driver of [commons], interrupted at the first [env.reset()], with an
    environment whose [print_array_in_files] raises: the training loop ends
    by the interrupt, the final block raises before [model.save()], and the
    run ends by this exception without any call of [model.save()]. *)
Lemma C8_counterexample :
  let I := Examples.commons_world true true in
  let cfg := Examples.commons_config in
  (run_expe.training_loop I cfg (Eff.mkSt 0 run_expe.init [])).2
    = Raise KeyboardInterrupt ∧
  (run_expe.run I cfg 0).2 = Raise Error ∧
  (EvSave ∉ Eff.trace (run_expe.run I cfg 0).1) ∧
  ¬ (∃ t, Eff.trace (run_expe.run I cfg 0).1 = t ++ [EvSave]).
Proof.
  split; [reflexivity|]. split; [reflexivity|]. split.
  - vm_compute. apply not_elem_of_nil.
  - intros [t Ht]. vm_compute in Ht. by destruct t.
Qed.

(** * Further properties *)

(** ** Rewards and actions of the DQN model *)

Section IntermediateReward.
Implicit Types (reward x : Q) (next_state : list (list Q)).

(** X1. For MountainCar the reward of the environment is not used: the
    shaped reward depends on the position alone, is never negative, is 100
    from position 1/2 on and [|x + 0.4|] below, which is at most 0.9 on
    the positions from -1.2 that the environment can reach. *)
Theorem X1_mountaincar_reward x (row : list Q) next_state :
  ∃ y,
    (∀ reward,
       DQN_model.intermediate_reward "MountainCar-v0" reward
         ((x :: row) :: next_state) = Ok y) ∧
    (0 <= y)%Q ∧
    ((1 # 2 <= x)%Q → y = 100%Q) ∧
    ((x < 1 # 2)%Q → y = Qabs (x + (4 # 10))) ∧
    ((- (12 # 10) <= x)%Q → (x < 1 # 2)%Q → (y <= 9 # 10)%Q).
Proof.
  exists (if Qle_bool (1 # 2) x then 100%Q else Qabs (x + (4 # 10))).
  destruct (Qle_bool (1 # 2) x) eqn:Hx.
  - pose proof (proj1 (Qle_bool_iff _ _) Hx) as Hle.
    split; [intros reward; cbn; by rewrite Hx|].
    split; [done|]. split; [done|].
    split; intros; lra.
  - assert (Hlt : (x < 1 # 2)%Q).
    { apply Qnot_le_lt. intros Hle%Qle_bool_iff. congruence. }
    split; [intros reward; cbn; by rewrite Hx|].
    split; [apply Qabs_nonneg|]. split; [intros; lra|].
    split; [done|]. intros Hlo _.
    apply Qabs_Qle_condition. split; lra.
Qed.

(** X2. For a game that is neither Acrobot nor MountainCar the reward is
    returned as it is, and the next state is not read: an empty one does
    not raise. *)
Theorem X2_other_games_reward (GAME : string) reward next_state :
  GAME ≠ "Acrobot-v1" → GAME ≠ "MountainCar-v0" →
  DQN_model.intermediate_reward GAME reward next_state = Ok reward.
Proof.
  intros HA%String.eqb_neq HM%String.eqb_neq.
  unfold DQN_model.intermediate_reward. rewrite HA, HM. reflexivity.
Qed.

Lemma item00_error next_state e :
  DQN_model.item00 next_state = Raise e → e = Error.
Proof.
  unfold DQN_model.item00.
  destruct (next_state !! 0) as [row|]; [|congruence].
  destruct (row !! 0); congruence.
Qed.

(** X3. [intermediate_reward] raises exactly for the two shaped games on
    a next state without a first item. *)
Theorem X3_reward_raises (GAME : string) reward next_state :
  (∃ e, DQN_model.intermediate_reward GAME reward next_state = Raise e) ↔
  (GAME = "Acrobot-v1" ∨ GAME = "MountainCar-v0") ∧
  DQN_model.item00 next_state = Raise Error.
Proof.
  unfold DQN_model.intermediate_reward.
  destruct (String.eqb_spec GAME "Acrobot-v1") as [->|HA].
  - cbn. destruct (DQN_model.item00 next_state) as [x|e] eqn:Hitem; cbn.
    + split; [|by intros [_ ?]].
      destruct (Qeq_bool x 0); cbn; by intros [e ?].
    + apply item00_error in Hitem as ->. split; [by auto|by eexists].
  - destruct (String.eqb_spec GAME "MountainCar-v0") as [->|HM].
    + cbn. destruct (DQN_model.item00 next_state) as [x|e] eqn:Hitem; cbn.
      * split; [|by intros [_ ?]].
        destruct (Qle_bool (1 # 2) x); cbn; by intros [e ?].
      * apply item00_error in Hitem as ->. split; [by auto|by eexists].
    + cbn. split; [by intros [e ?]|]. by intros [[?|?] _].
Qed.

End IntermediateReward.

(** CartPole, with an empty next state. *)
Lemma X2_other_games_reward_witness :
  DQN_model.intermediate_reward "CartPole-v1" 1 [] = Ok 1%Q.
Proof. apply X2_other_games_reward; discriminate. Defined.

Section SelectAction.
Context {F : DQN.Framework} `{UniformSource}.

(** [t.max(1)] gives the largest item of a row and a position of it. *)
Lemma row_max_spec (row : list Q) :
  row ≠ [] →
  ∃ x i,
    DQN.row_max row = Some (x, i) ∧
    (0 ≤ i < Z.of_nat (length row))%Z ∧
    row !! Z.to_nat i = Some x ∧
    Forall (fun y => (y <= x)%Q) row.
Proof.
  induction row as [|y row IH]; [done|]. intros _.
  destruct row as [|z row].
  - exists y, 0%Z. cbn. repeat split; try lia.
    apply Forall_singleton. lra.
  - destruct IH as (x & i & Hmax & Hi & Hlook & Hall); [done|].
    cbn [DQN.row_max]. cbn [DQN.row_max] in Hmax. rewrite Hmax.
    destruct (Qle_bool x y) eqn:Hle.
    + apply Qle_bool_iff in Hle.
      exists y, 0%Z. repeat split; try (cbn; lia).
      apply Forall_cons. split; [lra|].
      eapply Forall_impl; [exact Hall|]. intros; cbn in *; lra.
    + assert (Hlt : (y < x)%Q).
      { apply Qnot_le_lt. intros Hle'%Qle_bool_iff. congruence. }
      exists x, (i + 1)%Z. repeat split; try (cbn in *; lia).
      * replace (Z.to_nat (i + 1)) with (S (Z.to_nat i)) by lia. done.
      * apply Forall_cons. split; [lra|done].
Qed.

Lemma greedy_in_range (action_size : Z) (m : DQN.Model F) state a :
  Forall (fun row => Z.of_nat (length row) = action_size)
         (DQN.forward F (DQN.nn (DQN.agent m)) state) →
  DQN_model.greedy m state = Ok a →
  (0 ≤ a < action_size)%Z.
Proof.
  intros Hrows. unfold DQN_model.greedy.
  destruct (mapM _ _) as [[|[x i] [|? ?]]|] eqn:Hmap; try done.
  intros [= <-]; simpl.
  apply mapM_Some_1 in Hmap.
  destruct (DQN.forward F _ state) as [|row rows]; [by inversion Hmap|].
  apply Forall2_cons_1 in Hmap as [Hrow _].
  apply Forall_cons_1 in Hrows as [<- _].
  destruct (decide (row = [])) as [->|Hne]; [done|].
  destruct (row_max_spec row Hne) as (x' & i' & Hmax & Hi & _).
  rewrite Hmax in Hrow. by injection Hrow as <- <-.
Qed.

(** X4. When the network gives [action_size] values for a state, the
    action that [select_action] returns is an index of an action,
    [0 <= a < action_size], be it chosen by the network or at random; in
    evaluation mode no random number is drawn. *)
Theorem X4_select_action_in_range (epsilon : Z → Q) (action_size : Z)
    (m : DQN.Model F) state (episode : Z) (evaluation : bool)
    (g g' : rng) (a : Z) :
  Forall (fun row => Z.of_nat (length row) = action_size)
         (DQN.forward F (DQN.nn (DQN.agent m)) state) →
  DQN_model.select_action epsilon action_size m state episode evaluation g
    = (Ok a, g') →
  (0 ≤ a < action_size)%Z ∧ (evaluation = true → g' = g).
Proof.
  intros Hrows. unfold DQN_model.select_action.
  destruct evaluation.
  - intros [= Hg <-]. split; [|done]. by eapply greedy_in_range.
  - destruct (rng_random g) as [u g1].
    destruct (negb _).
    + intros [= Hg <-]. split; [|done]. by eapply greedy_in_range.
    + unfold DQN_model.randrange.
      destruct (decide (action_size ≤ 0)%Z); [done|].
      destruct (rng_next g1) as [r g2]. intros [= <- <-].
      split; [|done]. apply Z.mod_pos_bound. lia.
Qed.

End SelectAction.

(** The toy network has two action values; an exploring and an evaluating
    call. *)
Lemma X4_select_action_in_range_witness :
  (0 ≤ 0 < 2)%Z ∧ (0 ≤ 1 < 2)%Z.
Proof.
  split.
  - apply (@X4_select_action_in_range Examples.dqn_framework
Examples.counter_random MoreExamples.half_uniform
(fun _ => 1%Q) 2 Examples.dqn_model [[0%Q]] 0 false 0 2 0).
+ repeat constructor.
+ reflexivity.
- apply (@X4_select_action_in_range Examples.dqn_framework
Examples.counter_random MoreExamples.half_uniform
(fun _ => 1%Q) 2 Examples.dqn_model [[0%Q]] 0 true 0 0 1).
+ repeat constructor.
+ reflexivity.
Defined.

(** ** Checkpoints of the DQN model *)

Section Checkpoints.
Context {F : DQN.Framework}.
Implicit Types (m : DQN.Model F) (files : gmap string (DQN.net F)).

Lemma paths_differ (folder : string) :
  DQN_model.path_nn folder ≠ DQN_model.path_target_nn folder.
Proof.
  unfold DQN_model.path_nn, DQN_model.path_target_nn.
  intros Heq%String.app_inj. discriminate Heq.
Qed.

(** X5. Loading from the folder a model was saved in gives the saved
    network and target network; the optimizer and the replay memory are
    not part of the checkpoint: they stay those of the loading model. *)
Theorem X5_load_after_save (folder : string) m m' files :
  DQN_model.load folder (DQN_model.save folder m files) m'
  = (DQN.mkModel (DQN.memory m')
       (DQN.mkAgent (DQN.nn (DQN.agent m)) (DQN.target_nn (DQN.agent m))
                    (DQN.optimizer (DQN.agent m'))),
     Ok tt).
Proof.
  unfold DQN_model.load, DQN_model.Agent_load, DQN_model.save,
    DQN_model.Agent_save.
  rewrite lookup_insert_ne by (symmetry; apply paths_differ).
  rewrite !lookup_insert_eq. done.
Qed.

(** X6. When the file of the target network is missing, [load] raises;
    the target network, the optimizer and the memory are unchanged, but
    the load is not atomic: if the file of the network is there, the
    network has been replaced by its content. *)
Theorem X6_load_missing_target (folder : string) m files :
  files !! DQN_model.path_target_nn folder = None →
  ∃ m1,
    DQN_model.load folder files m = (m1, Raise Error) ∧
    DQN.memory m1 = DQN.memory m ∧
    DQN.target_nn (DQN.agent m1) = DQN.target_nn (DQN.agent m) ∧
    DQN.optimizer (DQN.agent m1) = DQN.optimizer (DQN.agent m) ∧
    DQN.nn (DQN.agent m1)
    = default (DQN.nn (DQN.agent m)) (files !! DQN_model.path_nn folder).
Proof.
  intros Hmissing.
  unfold DQN_model.load, DQN_model.Agent_load. rewrite Hmissing.
  destruct (files !! DQN_model.path_nn folder) as [n|]; simpl.
  - by eexists.
  - exists m. by destruct m as [? []].
Qed.

End Checkpoints.

(** The network's file alone: the load raises and the network is 7. *)
Lemma X6_load_missing_target_witness :
  ∃ m1,
    DQN_model.load "runs/a" MoreExamples.half_saved Examples.dqn_model
    = (m1, Raise Error) ∧
    DQN.nn (DQN.agent m1) = 7%Q.
Proof.
  destruct (@X6_load_missing_target Examples.dqn_framework "runs/a"
Examples.dqn_model MoreExamples.half_saved)
as (m1 & Hload & _ & _ & _ & Hnn); [reflexivity|].
exists m1. split; [exact Hload|]. rewrite Hnn. reflexivity.
Defined.

(** ** The optimisation step of DQN *)

Section DQNTensors.
Implicit Types (ts : list DQN.Transition) (tr : DQN.Transition).

Lemma DQN_zip_star_as_tuple ts :
  ts ≠ [] →
  zip_star (DQN.as_tuple <$> ts)
  = [(fun tr => VVec (DQN.state tr)) <$> ts;
     (fun tr => VInt (DQN.action tr)) <$> ts;
     (fun tr => VNum (DQN.reward tr)) <$> ts;
     (fun tr => match DQN.next_state tr with
                | Some s => VVec s
                | None => VNone
                end) <$> ts].
Proof.
  intros Hne. destruct ts as [|tr ts]; [done|].
  unfold zip_star. rewrite fmap_cons.
  change (length (DQN.as_tuple tr)) with 4.
  rewrite <- fmap_cons. unfold DQN.as_tuple.
  by rewrite !zip_rows_cons.
Qed.

Lemma int_column ts :
  mapM DQN.int_scalar ((fun tr => VInt (DQN.action tr)) <$> ts)
  = Some (DQN.action <$> ts).
Proof.
  rewrite (list_fmap_compose DQN.action VInt). by apply mapM_fmap_Some.
Qed.

Lemma non_final_rows ts :
  mapM float_row
    (filter (fun v => DQN.is_not_None v = true)
       ((fun tr => match DQN.next_state tr with
                   | Some s => VVec s
                   | None => VNone
                   end) <$> ts))
  = Some (omap DQN.next_state ts).
Proof.
  induction ts as [|tr ts IH]; [done|].
  rewrite fmap_cons. cbn beta.
  change (mapM float_row) with (mapM (M := option) float_row) in IH.
  destruct (DQN.next_state tr) as [s|] eqn:Hs.
  - rewrite filter_cons_True by done. cbn. rewrite Hs.
    cbn in IH. by rewrite IH.
  - rewrite filter_cons_False by (cbn; congruence). cbn. by rewrite Hs.
Qed.

Lemma non_final_column ts :
  float_matrix
    (filter (fun v => DQN.is_not_None v = true)
       ((fun tr => match DQN.next_state tr with
                   | Some s => VVec s
                   | None => VNone
                   end) <$> ts))
  = if uniform (omap DQN.next_state ts)
    then Some (omap DQN.next_state ts) else None.
Proof. unfold float_matrix. by rewrite non_final_rows. Qed.

Lemma mask_column ts :
  DQN.is_not_None
    <$> ((fun tr => match DQN.next_state tr with
                    | Some s => VVec s
                    | None => VNone
                    end) <$> ts)
  = (negb ∘ DQN_model.is_final) <$> ts.
Proof.
  rewrite <- list_fmap_compose. apply list_fmap_ext.
  intros i tr _. unfold DQN_model.is_final; cbn. by destruct (DQN.next_state tr).
Qed.

(** The tensors of a sample of the four-field records. *)
Lemma DQN_tensors_inv ts b :
  DQN.tensors (DQN.as_tuple <$> ts) = Some b →
  DQN.state_batch b = DQN.state <$> ts ∧
  DQN.action_batch b = DQN.action <$> ts ∧
  DQN.reward_batch b = DQN.reward <$> ts ∧
  DQN.non_final_mask b = (negb ∘ DQN_model.is_final) <$> ts ∧
  DQN.non_final_next_states b = omap DQN.next_state ts ∧
  omap DQN.next_state ts ≠ [].
Proof.
  destruct (decide (ts = [])) as [->|Hts]; [done|].
  unfold DQN.tensors. rewrite DQN_zip_star_as_tuple by done.
  rewrite float_matrix_vec, int_column, float_vector_num, non_final_column.
  destruct (uniform (DQN.state <$> ts)); [|done].
  destruct (uniform (omap DQN.next_state ts)); [|done].
  cbn. destruct (decide _) as [|Hne]; [done|].
  intros [= <-]; cbn. by rewrite mask_column.
Qed.

End DQNTensors.

Section DQNOptimize.
Context {F : DQN.Framework} `{RandomSource}.
Implicit Types (m : DQN.Model F) (g : rng).

Lemma Agent_update_target cfg loss (a : DQN.Agent F) :
  DQN.target_nn (DQN.Agent_update cfg loss a).1 = DQN.target_nn a.
Proof.
  unfold DQN.Agent_update. by destruct (DQN.update F _ _ _ _) as [[n o] r].
Qed.

(** X7. [optimize_model] never changes the replay memory nor the target
    network, whatever its outcome; and a call that raises has changed
    nothing of the model, unless it is [Agent.update] that raised, which
    leaves the network and the optimizer as they were at that point. *)
Theorem X7_optimize_model_frame cfg g m :
  let m' := (DQN.optimize_model cfg g m).1.2 in
  DQN.memory m' = DQN.memory m ∧
  DQN.target_nn (DQN.agent m') = DQN.target_nn (DQN.agent m) ∧
  (∀ e, (DQN.optimize_model cfg g m).2 = Raise e →
        m' = m ∨
        ∃ loss,
          DQN.Agent_update cfg loss (DQN.agent m)
          = (DQN.agent m', Raise e)).
Proof.
  unfold DQN.optimize_model.
  destruct (decide _); [done|].
  destruct (ReplayMemory.sample _ _ _ _) as [[transitions|] g1];
    [|by split; [|split; [|left]]].
  destruct (DQN.tensors _) as [b|]; [|by split; [|split; [|left]]].
  destruct (DQN.gather _ _); [|by split; [|split; [|left]]].
  destruct (DQN.next_state_values _ _ _); [|by split; [|split; [|left]]].
  match goal with
  | |- context [DQN.Agent_update cfg ?l (DQN.agent m)] =>
      pose proof (Agent_update_target cfg l (DQN.agent m)) as Ht;
      destruct (DQN.Agent_update cfg l (DQN.agent m)) as [a r] eqn:Hup
  end.
  cbn in *. split; [done|]. split; [done|].
  intros e ->. right. by eexists.
Qed.

Lemma omap_all_final (ts : list DQN.Transition) :
  Forall (fun tr => DQN.next_state tr = None) ts →
  omap DQN.next_state ts = [].
Proof.
  induction 1 as [|tr ts Htr _ IH]; [done|]. cbn. by rewrite Htr.
Qed.

(** X8. When every transition of the memory is final, a call of
    [optimize_model] that is not skipped raises, and leaves the model as it
    was: the next states that are not [None] make an empty list, which
    [torch.cat] refuses. *)
Theorem X8_all_final_raises cfg g m :
  ¬ ReplayMemory.len (DQN.memory m) < DQN.BATCH_SIZE cfg →
  Forall (fun tr => DQN.next_state tr = None)
         (ReplayMemory.memory (DQN.memory m)) →
  (DQN.optimize_model cfg g m).2 = Raise Error ∧
  (DQN.optimize_model cfg g m).1.2 = m.
Proof.
  intros Hlen Hfinal. unfold DQN.optimize_model.
  rewrite decide_False by done.
  destruct (sample_enough (DQN.REPLACEMENT cfg) (DQN.BATCH_SIZE cfg)
              (DQN.memory m) g) as (drawn & g' & -> & _ & Hin); [lia|].
  destruct (DQN.tensors _) as [b|] eqn:Hb; [|done].
  apply DQN_tensors_inv in Hb as (_ & _ & _ & _ & _ & Hne).
  exfalso. apply Hne, omap_all_final.
  rewrite Forall_forall in Hfinal. apply Forall_forall.
  intros tr Htr. by apply Hfinal, Hin.
Qed.




End DQNOptimize.

(** Two final transitions in memory, a batch of two. *)
Lemma X8_all_final_raises_witness :
  (@DQN.optimize_model _ Examples.counter_random (Examples.dqn_config 2) 0
     MoreExamples.dqn_all_final).2 = Raise Error ∧
  (@DQN.optimize_model _ Examples.counter_random (Examples.dqn_config 2) 0
     MoreExamples.dqn_all_final).1.2 = MoreExamples.dqn_all_final.
Proof.
  apply (@X8_all_final_raises _ Examples.counter_random).
  - vm_compute. lia.
  - repeat constructor.
Defined.


(** ** The optimisation step of TD3 *)

Section TD3More.
Context {F : TD3.Framework} `{RandomSource}.
Implicit Types (m : TD3.Model F) (g : rng).



(** X11. [optimize] never changes the replay memory nor the bounds of the
    actions.  A call whose sample cannot be made into tensors raises
    before any network is touched, but has counted: [update_step] is one
    more than it was. *)
Theorem X11_optimize_frame cfg g m :
  let m' := (TD3.optimize cfg g m).1.2 in
  TD3.memory m' = TD3.memory m ∧
  TD3.low_bound m' = TD3.low_bound m ∧
  TD3.high_bound m' = TD3.high_bound m ∧
  (∀ ts g1,
     ¬ ReplayMemory.len (TD3.memory m) < TD3.BATCH_SIZE cfg →
     ReplayMemory.sample (TD3.REPLACEMENT cfg) (TD3.BATCH_SIZE cfg)
                         (TD3.memory m) g = (Some ts, g1) →
     TD3.tensors (as_tuple <$> ts) = None →
     (TD3.optimize cfg g m).2 = Raise Error ∧
     TD3.critic_A m' = TD3.critic_A m ∧
     TD3.critic_B m' = TD3.critic_B m ∧
     TD3.actor m' = TD3.actor m ∧
     TD3.update_step m' = (TD3.update_step m + 1)%Z).
Proof.
  unfold TD3.optimize, TD3.optimize_from.
  destruct (decide _) as [Hskip|Hgo]; [done|].
  destruct (ReplayMemory.sample _ _ _ _) as [[transitions|] g1]; [|done].
  destruct (TD3.tensors _) as [b|] eqn:Hb.
  - destruct (rng_normal _ _ _) as [noise g2].
    destruct (decide _); cbn; (split; [done|]); (split; [done|]);
      (split; [done|]); intros ? ? _ [= <- <-]; congruence.
  - cbn. do 3 (split; [done|]). by intros ? ? _ _ _.
Qed.

End TD3More.


(** States of different dimensions: the call raises, and has counted. *)
Lemma X11_optimize_frame_witness :
  let out := @TD3.optimize _ Examples.counter_random (Examples.td3_config 2)
               (0%nat : nat) MoreExamples.td3_ragged in
  out.2 = Raise Error ∧
  TD3.critic_A out.1.2 = TD3.critic_A MoreExamples.td3_ragged ∧
  TD3.update_step out.1.2 = 1%Z.
Proof.
  intros out.
  destruct (@X11_optimize_frame Examples.td3_framework
Examples.counter_random (Examples.td3_config 2) (0%nat : nat)
MoreExamples.td3_ragged) as (_ & _ & _ & Hraise).
destruct (Hraise _ _ ltac:(vm_compute; lia) eq_refl eq_refl)
as (Hr & HA & _ & _ & Hstep).
split; [exact Hr|]. split; [exact HA | exact Hstep].
Defined.

(** ** A batch size of zero *)

Section EmptyBatch.
Context `{RandomSource}.

Lemma sample_nothing {T : Type} (replacement : bool)
    (b : ReplayMemory.t T) (g : rng) :
  ReplayMemory.sample replacement 0 b g = (Some [], g).
Proof.
  unfold ReplayMemory.sample. rewrite decide_False by lia.
  by destruct replacement.
Qed.

(** X12. With a batch size of 0 the test on the length of the memory
    never skips the step, and the step raises in each agent, since an
    empty sample has no columns; TD3 has counted the call all the same. *)
Theorem X12_empty_batch_raises :
  (∀ (F : DQN.Framework) cfg g (m : DQN.Model F),
     DQN.BATCH_SIZE cfg = 0 →
     DQN.optimize_model cfg g m = (g, m, Raise Error)) ∧
  (∀ (F : TD3.Framework) cfg g (m : TD3.Model F),
     TD3.BATCH_SIZE cfg = 0 →
     (TD3.optimize cfg g m).2 = Raise Error ∧
     TD3.update_step (TD3.optimize cfg g m).1.2
     = (TD3.update_step m + 1)%Z) ∧
  (∀ (F : SAC.Framework) cfg g (m : SAC.Model F),
     SAC.BATCH_SIZE cfg = 0 →
     SAC.optimize cfg g m = (g, m, Raise Error)).
Proof.
  split; [|split]; intros F cfg g m Hzero.
  - unfold DQN.optimize_model. rewrite Hzero.
    rewrite decide_False by lia. by rewrite sample_nothing.
  - unfold TD3.optimize, TD3.optimize_from. rewrite Hzero.
    rewrite decide_False by lia. by rewrite sample_nothing.
  - unfold SAC.optimize, SAC.optimize_from. rewrite Hzero.
    rewrite decide_False by lia. by rewrite sample_nothing.
Qed.

End EmptyBatch.

(** The toy models with a batch size of 0. *)
Lemma X12_empty_batch_raises_witness :
  @DQN.optimize_model _ Examples.counter_random (Examples.dqn_config 0) 0
Examples.dqn_model = (0, Examples.dqn_model, Raise Error) ∧
(@TD3.optimize _ Examples.counter_random (Examples.td3_config 0) 0
(Examples.td3_model 0)).2 = Raise Error ∧
@SAC.optimize _ Examples.counter_random (Examples.sac_config 0) 0
Examples.sac_model = (0, Examples.sac_model, Raise Error).
Proof.
  destruct (@X12_empty_batch_raises Examples.counter_random)
    as (HD & HT & HS).
  split; [|split].
  - by apply HD.
  - by apply HT.
  - by apply HS.
Defined.

(** ** Rules for pre- and postconditions *)

Section HoareRules.
Context {W V : Type}.
Implicit Types (P : V → list event → Prop).
Implicit Types (E : exc → V → list event → Prop).

Import Eff Hoare.

Lemma triple_ret {A : Type} P E (Q : A → V → list event → Prop) (a : A) :
  (∀ v t, P v t → Q a v t) → triple P (mret a : M W V A) Q E.
Proof. intros HQ s Hs. by apply HQ. Qed.

Lemma triple_raise {A : Type} P E (Q : A → V → list event → Prop) e :
  (∀ v t, P v t → E e v t) → triple P (raise e : M W V A) Q E.
Proof. intros HE s Hs. by apply HE. Qed.

Lemma triple_call {A : Type} P E (Q : A → V → list event → Prop)
    (f : W → W * result A) :
  (∀ a v t, P v t → Q a v t) → (∀ e v t, P v t → E e v t) →
  triple P (call f : M W V A) Q E.
Proof.
  intros HQ HE s Hs. unfold call.
  destruct (f (world s)) as [w [a|e]]; simpl; [by apply HQ|by apply HE].
Qed.

Lemma triple_get P E (Q : V → V → list event → Prop) :
  (∀ v t, P v t → Q v v t) → triple P (get : M W V V) Q E.
Proof. intros HQ s Hs. by apply HQ. Qed.

Lemma triple_modify P E (Q : unit → V → list event → Prop) (f : V → V) :
  (∀ v t, P v t → Q tt (f v) t) → triple P (modify f : M W V unit) Q E.
Proof. intros HQ s Hs. by apply HQ. Qed.

Lemma triple_emit P E (Q : unit → V → list event → Prop) ev :
  (∀ v t, P v t → Q tt v (t ++ [ev])) → triple P (emit ev : M W V unit) Q E.
Proof. intros HQ s Hs. by apply HQ. Qed.

Lemma triple_bind {A B : Type} P E (R : A → V → list event → Prop)
    (Q : B → V → list event → Prop) (m : M W V A) (f : A → M W V B) :
  triple P m R E → (∀ a, triple (R a) (f a) Q E) → triple P (m ≫= f) Q E.
Proof.
  intros Hm Hf s Hs. rewrite bind_run. specialize (Hm s Hs).
  destruct (m s) as [s1 [a|e]]; [by apply Hf|done].
Qed.

Lemma triple_conseq {A : Type} P P' E E'
    (Q Q' : A → V → list event → Prop) (m : M W V A) :
  triple P' m Q' E' →
  (∀ v t, P v t → P' v t) →
  (∀ a v t, Q' a v t → Q a v t) →
  (∀ e v t, E' e v t → E e v t) →
  triple P m Q E.
Proof.
  intros Hm HP HQ HE s Hs. specialize (Hm s (HP _ _ Hs)).
  destruct (m s) as [s1 [a|e]]; [by apply HQ|by apply HE].
Qed.

(** A loop over a list keeps the property that each round keeps. *)
Lemma triple_for_each {B : Type} P E (xs : list B)
    (body : B → M W V unit) :
  (∀ x, triple P (body x) (fun _ => P) E) →
  triple P (for_each xs body) (fun _ => P) E.
Proof.
  intros Hb. induction xs as [|x xs IH]; simpl.
  - by apply triple_ret.
  - apply (triple_bind P E (fun _ => P)); [apply Hb|by intros _].
Qed.

(** A guarded loop keeps the property that a round keeps under the
    guard. *)
Lemma triple_while P E (n : nat) (cond : V → bool) (body : M W V unit) :
  triple (fun v t => P v t ∧ cond v = true) body (fun _ => P) E →
  triple P (while n cond body) (fun _ => P) E.
Proof.
  intros Hb. induction n as [|n IH]; intros s Hs; simpl;
    destruct (cond (vars s)) eqn:Hc; try done.
  unfold bind. specialize (Hb s (conj Hs Hc)).
  destruct (body s) as [s1 [a|e]]; [by apply IH|done].
Qed.

(** The user's interrupt becomes a return. *)
Lemma triple_except P E (Q : unit → V → list event → Prop)
    (body : M W V unit) :
  triple P body Q
         (fun e v t =>
            match e with
            | KeyboardInterrupt => Q tt v t
            | Error => E Error v t
            end) →
  triple P (except_KeyboardInterrupt body) Q E.
Proof.
  intros Hb s Hs. unfold except_KeyboardInterrupt. specialize (Hb s Hs).
  by destruct (body s) as [s1 [[]|[|]]].
Qed.

(** A final block is run from whatever state the body ends in. *)
Lemma triple_finally {A : Type} P E (R : V → list event → Prop)
    (Q : V → list event → Prop) (body : M W V A) (fin : M W V unit) :
  triple P body (fun _ => R) (fun _ => R) →
  triple R fin (fun _ => Q) (fun _ => Q) →
  triple P (finally body fin) (fun _ => Q) (fun _ => Q).
Proof.
  intros Hb Hf s Hs. unfold finally. specialize (Hb s Hs).
  destruct (body s) as [s1 r].
  assert (HR : R (vars s1) (trace s1)) by (by destruct r).
  specialize (Hf s1 HR).
  destruct (fin s1) as [s2 [[]|e]]; [by destruct r|done].
Qed.

Lemma pushes_snoc (t : list event) ev :
  pushes (t ++ [ev]) = (pushes t + if is_push ev then 1 else 0)%Z.
Proof.
  unfold pushes. rewrite filter_app, length_app.
  destruct (is_push ev) eqn:Hev.
  - rewrite filter_cons_True by done. simpl. lia.
  - rewrite filter_cons_False by congruence. simpl. lia.
Qed.

End HoareRules.

(** ** Counters of the DQN driver *)

Section DQNCounters.
Context (I : DQN_train.Interface) (cfg : DQN_train.config).
Implicit Types (v : DQN_train.locals) (t : list event).

Import Eff Hoare.

Lemma DQN_counted_nearly v t : DQN_counted v t → DQN_nearly_counted v t.
Proof. intros [Hp He]. split; [lia|done]. Qed.

Lemma DQN_round_counted episode :
  triple (fun v t => DQN_counted v t ∧ DQN_train.guard cfg v = true)
         (DQN_train.round I cfg episode)
         (fun _ => DQN_counted) (fun _ => DQN_nearly_counted).
Proof.
  intros s [[Hp He] Hguard].
  unfold DQN_train.round, DQN_train.round_with.
  unfold mbind, M_bind, bind, get, modify, emit, call, mret, M_ret, ret;
    simpl.
  destruct (DQN_train.select_action I _ _ _) as [w1 [a|e]]; simpl;
    [|split; [lia|done]].
  destruct (DQN_train.env_step I a w1)
    as [w2 [[[next_state reward] done1]|e]]; simpl; [|split; [lia|done]].
  rewrite guard_excludes_force by done. simpl.
  destruct (DQN_train.memory_push I _ w2) as [w3 [[]|e]]; simpl;
    [|split; [rewrite pushes_snoc; simpl; lia|done]].
  destruct (DQN_train.optimize I _ _ w3) as [w4 [l|e]]; simpl;
    split; try done; rewrite pushes_snoc; simpl; lia.
Qed.

Lemma DQN_training_loop_counted :
  triple (fun v t => pushes t = DQN_train.nb_total_steps v)
         (DQN_train.training_loop I cfg)
         (fun _ => DQN_counted) (fun _ => DQN_nearly_counted).
Proof.
  unfold DQN_train.training_loop.
  apply (triple_bind _ _ (fun _ => DQN_counted)).
  { apply triple_modify. intros v t Hp. by split. }
  intros _. apply triple_for_each. intros episode.
  unfold DQN_train.run_episode.
  apply (triple_bind _ _ (fun _ => DQN_counted)).
  { apply triple_call; [done|]. intros; by apply DQN_counted_nearly. }
  intros s0.
  do 4 (apply (triple_bind _ _ (fun _ => DQN_counted));
        [apply triple_modify; by intros v t [Hp He]|intros _]).
  apply (triple_bind _ _ (fun _ => DQN_counted)).
  { apply triple_while, DQN_round_counted. }
  intros _.
  apply (triple_bind _ _ (fun v0 v t => DQN_counted v t ∧ v0 = v)).
  { apply triple_get. by intros v t Hc. }
  intros v0.
  apply (triple_bind _ _ (fun _ v t => DQN_counted v t ∧ v0 = v)).
  { destruct (DQN_train.loss v0).
    - apply triple_call; [done|].
      intros e v t [Hc _]. by apply DQN_counted_nearly.
    - apply triple_raise. intros v t [Hc _]. by apply DQN_counted_nearly. }
  intros _. apply triple_modify.
  intros v t [[Hp He] ->]. split; [done|simpl; lia].
Qed.

Lemma DQN_final_block_counted :
  triple DQN_nearly_counted (DQN_train.final_block I)
         (fun _ => DQN_nearly_counted) (fun _ => DQN_nearly_counted).
Proof.
  unfold DQN_train.final_block.
  apply (triple_bind _ _ (fun _ => DQN_nearly_counted)).
  { apply triple_emit. intros v t [Hp He].
    split; [rewrite pushes_snoc; simpl; lia|done]. }
  intros _. apply (triple_bind _ _ (fun _ => DQN_nearly_counted)).
  { by apply triple_call. }
  intros _. by apply triple_call.
Qed.

Lemma DQN_guarded_counted :
  triple (fun v t => pushes t = DQN_train.nb_total_steps v)
         (DQN_train.guarded I (DQN_train.training_loop I cfg))
         (fun _ => DQN_nearly_counted) (fun _ => DQN_nearly_counted).
Proof.
  unfold DQN_train.guarded.
  apply (triple_finally _ (fun _ => DQN_nearly_counted)
           DQN_nearly_counted).
  - apply triple_except.
    eapply triple_conseq; [apply DQN_training_loop_counted|done|..].
    + intros ? v t Hc. by apply DQN_counted_nearly.
    + by intros [|] v t Hc.
  - apply DQN_final_block_counted.
Qed.

(** X13. At the end of a run of the DQN driver, however it ends,
    [nb_total_steps] is the number of the pushes into the replay memory,
    or one less when an exception came between the last push and its
    count; and a run that returns has done at least one episode, since its
    statistics divide by their number. *)
Theorem X13_DQN_steps_counted (w : DQN_train.world I) :
  let s' := (DQN_train.run I cfg w).1 in
  (DQN_train.nb_total_steps (vars s') ≤ pushes (trace s')
   ≤ DQN_train.nb_total_steps (vars s') + 1)%Z ∧
  ((DQN_train.run I cfg w).2 = Ok tt →
   (1 ≤ DQN_train.nb_episodes_done (vars s'))%Z).
Proof.
  unfold DQN_train.run, DQN_train.train.
  rewrite bind_run; simpl. rewrite bind_run.
  match goal with
  | |- context [DQN_train.guarded I ?body ?s] =>
      generalize (DQN_guarded_counted s eq_refl);
      destruct (DQN_train.guarded I body s) as [s1 [[]|e]]
  end; simpl; intros Hc; [|by destruct Hc].
  rewrite bind_run; simpl.
  destruct Hc as [Hp He].
  destruct (decide _) as [Hz|Hz]; simpl; [done|].
  destruct (call_trace (DQN_train.report_stats I
              (DQN_train.nb_total_steps (vars s1))
              (DQN_train.nb_episodes_done (vars s1))) s1) as [Ht Hv].
  rewrite Ht, Hv. split; [done|]. intros _. lia.
Qed.

End DQNCounters.

Section DQNIdle.
Context (I : DQN_train.Interface) (cfg : DQN_train.config).
Context (Hmax : (DQN_train.MAX_STEPS cfg ≤ 0)%Z).
Implicit Types (v : DQN_train.locals) (t : list event).

Import Eff Hoare.

Lemma DQN_episode_idle episode :
  triple DQN_idle (DQN_train.run_episode I cfg episode)
         (fun _ => DQN_idle) (fun _ => DQN_idle).
Proof.
  unfold DQN_train.run_episode.
  apply (triple_bind _ _ (fun _ => DQN_idle)); [by apply triple_call|].
  intros s0.
  do 2 (apply (triple_bind _ _ (fun _ => DQN_idle));
        [by apply triple_modify|intros _]).
  apply (triple_bind _ _
           (fun _ v t => DQN_idle v t ∧ DQN_train.step v = 0%Z)).
  { apply triple_modify. by intros v t Hi. }
  intros _.
  apply (triple_bind _ _
           (fun _ v t => DQN_idle v t ∧ DQN_train.step v = 0%Z)).
  { apply triple_modify. by intros v t Hi. }
  intros _.
  apply (triple_bind _ _
           (fun _ v t => DQN_idle v t ∧ DQN_train.step v = 0%Z)).
  { eapply triple_conseq;
      [apply (triple_while
                (fun v t => DQN_idle v t ∧ DQN_train.step v = 0%Z)
                (fun _ => DQN_idle))|done|done|done].
    intros s [[_ Hstep] Hguard]. exfalso.
    unfold DQN_train.guard in Hguard.
    apply andb_true_iff in Hguard as [_ Hlt%bool_decide_eq_true]. lia. }
  intros _.
  apply (triple_bind _ _ (fun v0 v t => DQN_idle v t ∧ v0 = v)).
  { intros s [Hi _]. by split. }
  intros v0.
  apply (triple_bind _ _ (fun _ _ _ => False)); [|by intros _ s []].
  destruct (DQN_train.loss v0) eqn:Hloss.
  - intros s [[Hl _] ->]. congruence.
  - apply triple_raise. by intros v t [Hi _].
Qed.

(** X14. When [MAX_STEPS] is not positive, no episode makes a step: a run
    of the DQN driver pushes nothing and never returns; it ends by an
    exception, that of an episode (which reports a [loss] that was never
    assigned) or of the statistics (which divide by the number of episodes
    done, zero). *)
Theorem X14_DQN_no_step_no_return (w : DQN_train.world I) :
  (DQN_train.run I cfg w).2 ≠ Ok tt ∧
  pushes (trace (DQN_train.run I cfg w).1) = 0%Z.
Proof.
  assert (Hguarded :
    triple (fun v t => DQN_train.loss v = None ∧ pushes t = 0%Z)
           (DQN_train.guarded I (DQN_train.training_loop I cfg))
           (fun _ => DQN_idle) (fun _ => DQN_idle)).
  { unfold DQN_train.guarded.
    apply (triple_finally _ (fun _ => DQN_idle) DQN_idle).
    - apply triple_except. unfold DQN_train.training_loop.
      apply (triple_bind _ _ (fun _ => DQN_idle)).
      { apply triple_modify. by intros v t [Hl Hp]. }
      intros _. eapply triple_conseq;
        [apply (triple_for_each DQN_idle (fun _ => DQN_idle));
         apply DQN_episode_idle|done|done|].
      by intros [|].
    - unfold DQN_train.final_block.
      apply (triple_bind _ _ (fun _ => DQN_idle)).
      { apply triple_emit. intros v t (Hl & He & Hp).
        repeat split; try done. rewrite pushes_snoc, Hp. done. }
      intros _. apply (triple_bind _ _ (fun _ => DQN_idle));
        [by apply triple_call|].
      intros _. by apply triple_call. }
  unfold DQN_train.run, DQN_train.train.
  rewrite bind_run; simpl. rewrite bind_run.
  match goal with
  | |- context [DQN_train.guarded I ?body ?s] =>
      generalize (Hguarded s (conj eq_refl eq_refl));
      destruct (DQN_train.guarded I body s) as [s1 [[]|e]]
  end; simpl; intros (Hl & He & Hp); [|done].
  rewrite bind_run; simpl. by rewrite decide_True.
Qed.

End DQNIdle.

(** A run with [MAX_STEPS] 0 in the toy world. *)
Lemma X14_DQN_no_step_no_return_witness :
  (DQN_train.run (Examples.dqn_world true)
     {| DQN_train.MAX_EPISODES := 2; DQN_train.MAX_STEPS := 0 |} 0).2
  ≠ Ok tt ∧
  pushes (Eff.trace
            (DQN_train.run (Examples.dqn_world true)
               {| DQN_train.MAX_EPISODES := 2; DQN_train.MAX_STEPS := 0 |}
               0).1) = 0%Z.
Proof.
  apply X14_DQN_no_step_no_return. simpl. lia.
Defined.

(** ** What becomes of an exception of the training loop *)

Section Swallowed.
Import Eff.

(** X15. In both drivers, when the calls of the final block return, an
    interrupt of the training loop by the user is swallowed (the guarded
    loop returns), and any other outcome of the loop, a return or another
    exception, is that of the guarded loop. *)
Theorem X15_interrupt_swallowed :
  (∀ (I : DQN_train.Interface) body s,
     (∀ w, (DQN_train.save I w).2 = Ok tt) →
     (∀ w, (DQN_train.report_saved I w).2 = Ok tt) →
     (DQN_train.guarded I body s).2
     = match (body s).2 with
       | Raise KeyboardInterrupt => Ok tt
       | r => r
       end) ∧
  (∀ (I : run_expe.Interface) cfg body s,
     (∀ w, (run_expe.env_print_array_in_files I w).2 = Ok tt) →
     (∀ rs w, (run_expe.env_plot_training_output I rs w).2 = Ok tt) →
     (∀ w, (run_expe.env_close I w).2 = Ok tt) →
     (∀ w, (run_expe.save I w).2 = Ok tt) →
     (∀ b w, (run_expe.env_finishCFD I b w).2 = Ok tt) →
     (run_expe.guarded I cfg body s).2
     = match (body s).2 with
       | Raise KeyboardInterrupt => Ok tt
       | r => r
       end).
Proof.
  split.
  - intros I body s Hsave Hreport.
    unfold DQN_train.guarded, finally, except_KeyboardInterrupt.
    destruct (body s) as [s1 r]; simpl.
    assert (Hfin : ∀ s2, (DQN_train.final_block I s2).2 = Ok tt).
    { intros s2.
      unfold DQN_train.final_block, mbind, M_bind, bind, emit, call; simpl.
      pose proof (Hsave (world s2)) as H1.
      destruct (DQN_train.save I (world s2)) as [w1 r1].
      simpl in H1; subst r1; simpl.
      pose proof (Hreport w1) as H2.
      destruct (DQN_train.report_saved I w1) as [w2 r2]. done. }
    destruct r as [[]|[|]];
      match goal with
      | |- context [DQN_train.final_block I ?s2] =>
          generalize (Hfin s2);
          destruct (DQN_train.final_block I s2) as [s3 r3]
      end; simpl; by intros ->.
  - intros I cfg body s Hprint Hplot Hclose Hsave Hfinish.
    unfold run_expe.guarded, finally, except_KeyboardInterrupt.
    destruct (body s) as [s1 r]; simpl.
    assert (Hfin : ∀ s2, (run_expe.final_block I cfg s2).2 = Ok tt).
    { intros s2.
      unfold run_expe.final_block, mbind, M_bind, bind, get, emit, call;
        simpl.
      pose proof (Hprint (world s2)) as H1.
      destruct (run_expe.env_print_array_in_files I (world s2))
        as [w1 r1].
      simpl in H1; subst r1; simpl.
      pose proof (Hplot (run_expe.rewards (vars s2)) w1) as H2.
      destruct (run_expe.env_plot_training_output I _ w1) as [w2 r2].
      simpl in H2; subst r2; simpl.
      pose proof (Hclose w2) as H3.
      destruct (run_expe.env_close I w2) as [w3 r3].
      simpl in H3; subst r3; simpl.
      pose proof (Hsave w3) as H4.
      destruct (run_expe.save I w3) as [w4 r4].
      simpl in H4; subst r4; simpl.
      destruct (run_expe.STARCCM cfg); simpl; [|done].
      pose proof (Hfinish true w4) as H5.
      destruct (run_expe.env_finishCFD I true w4) as [w5 r5]. done. }
    destruct r as [[]|[|]];
      match goal with
      | |- context [run_expe.final_block I cfg ?s2] =>
          generalize (Hfin s2);
          destruct (run_expe.final_block I cfg s2) as [s3 r3]
      end; simpl; by intros ->.
Qed.

End Swallowed.

(** The training loop of the toy worlds: interrupted at the first reset in
    the one, stopped by the missing method [optimize] in the other. *)
Lemma X15_interrupt_swallowed_witness :
  (run_expe.guarded (Examples.commons_world true false)
Examples.commons_config
(run_expe.training_loop (Examples.commons_world true false)
Examples.commons_config)
(Eff.mkSt 0 run_expe.init [])).2 = Ok tt ∧
(DQN_train.guarded (Examples.dqn_world false)
(DQN_train.training_loop (Examples.dqn_world false)
Examples.dqn_train_config)
(Eff.mkSt 0 DQN_train.init [])).2 = Raise Error.
Proof.
  destruct X15_interrupt_swallowed as [HD HC]. split.
  - by rewrite HC.
  - by rewrite HD.
Defined.

(** ** Counters of the driver of [commons] *)

Section RunCounters.
Context (I : run_expe.Interface) (cfg : run_expe.config).
Implicit Types (v : run_expe.locals) (t : list event).

Import Eff Hoare.

Lemma run_counted_nearly v t :
  run_counted cfg v t → run_nearly_counted cfg v t.
Proof.
  intros (Hp & He & Hr & Hf). split; [lia|]. split; [lia|]. done.
Qed.

Lemma run_recorded_nearly v0 v t :
  run_recorded cfg v0 v t → run_nearly_counted cfg v t.
Proof.
  intros ((Hp & He & (Hlen & Hall & Hstep) & Hf) & Hr & Hl & Ht & Hn & Hs).
  repeat split; try done; rewrite ?Hr, ?Hl, ?Ht, ?Hn, ?Hs, ?length_app;
    simpl; try lia.
  apply Forall_app. split; [done|]. by apply Forall_singleton.
Qed.

Lemma not_forced_snoc t ev :
  not_forced ev →
  (run_expe.STARCCM cfg = false → Forall not_forced t) →
  run_expe.STARCCM cfg = false → Forall not_forced (t ++ [ev]).
Proof.
  intros Hev Ht Hs. apply Forall_app. split; [by apply Ht|].
  by apply Forall_singleton.
Qed.

Lemma run_round_counted episode :
  triple (fun v t => run_counted cfg v t ∧ run_expe.guard cfg v = true)
         (run_expe.round I cfg episode)
         (fun _ => run_counted cfg) (fun _ => run_nearly_counted cfg).
Proof.
  intros s [(Hp & He & (Hlen & Hall & Hstep) & Hf) Hguard].
  assert (Hlt : (run_expe.step (vars s) < run_expe.MAX_STEPS cfg)%Z).
  { unfold run_expe.guard in Hguard.
    by apply andb_true_iff in Hguard as [_ Hlt%bool_decide_eq_true]. }
  assert (Hpush : ∀ args, not_forced (EvPush args)) by done.
  unfold run_expe.round, run_expe.round_with.
  unfold mbind, M_bind, bind, get, modify, emit, call, mret, M_ret, ret;
    simpl.
  destruct (run_expe.select_action I _ _ _) as [w1 [a|e]]; simpl;
    [|by apply run_counted_nearly].
  assert (Hc : run_counted cfg (vars s) (trace s)) by done.
  destruct (run_expe.STARCCM cfg) eqn:Hstar; simpl.
  - destruct (run_expe.env_finishCFD I false w1) as [w2 [[]|e]]; simpl;
      [|by apply run_counted_nearly].
    destruct (run_expe.env_step I a w2)
      as [w3 [[[next_state reward] done1]|e]]; simpl;
      [|by apply run_counted_nearly].
    destruct (negb done1 && _); simpl;
      (destruct (run_expe.memory_push I _ _) as [w4 [[]|e]]; simpl;
       [destruct (run_expe.optimize I w4) as [w5 [[]|e]]; simpl|];
       unfold run_counted, run_nearly_counted, episodes_recorded; simpl;
       rewrite ?pushes_snoc, Hstar; simpl;
       repeat split; try done; lia).
  - destruct (run_expe.env_step I a w1)
      as [w3 [[[next_state reward] done1]|e]]; simpl;
      [|by apply run_counted_nearly].
    destruct (run_expe.memory_push I _ _) as [w4 [[]|e]]; simpl;
      [destruct (run_expe.optimize I w4) as [w5 [[]|e]]; simpl|];
      unfold run_counted, run_nearly_counted, episodes_recorded; simpl;
      rewrite ?pushes_snoc; simpl;
      (repeat split; try done; try lia;
       intros _; apply Forall_app; split; [by apply Hf|];
       by apply Forall_singleton).
Qed.

Lemma triple_every P E freq episode
    (body : M (run_expe.world I) run_expe.locals unit) :
  triple P body (fun _ => P) E →
  (∀ v t, P v t → E Error v t) →
  triple P (run_expe.every I freq episode body) (fun _ => P) E.
Proof.
  intros Hb HE. unfold run_expe.every.
  destruct (decide (freq = 0%Z)); [by apply triple_raise|].
  destruct (decide (episode mod freq = 0)%Z); [done|by apply triple_ret].
Qed.

Lemma run_episode_counted episode :
  triple (run_counted cfg) (run_expe.run_episode I cfg episode)
         (fun _ => run_counted cfg) (fun _ => run_nearly_counted cfg).
Proof.
  unfold run_expe.run_episode.
  apply (triple_bind _ _ (fun _ => run_counted cfg)).
  { apply triple_modify. by intros v t Hc. }
  intros _. apply (triple_bind _ _ (fun _ => run_counted cfg)).
  { apply triple_modify. intros v t (Hp & He & (Hlen & Hall & Hstep) & Hf).
    repeat split; try done; simpl; lia. }
  intros _. apply (triple_bind _ _ (fun _ => run_counted cfg)).
  { apply triple_modify. by intros v t Hc. }
  intros _. apply (triple_bind _ _ (fun _ => run_counted cfg)).
  { apply triple_call; [done|]. intros; by apply run_counted_nearly. }
  intros s0. apply (triple_bind _ _ (fun _ => run_counted cfg)).
  { apply triple_modify. by intros v t Hc. }
  intros _. apply (triple_bind _ _ (fun _ => run_counted cfg)).
  { apply triple_while, run_round_counted. }
  intros _.
  apply (triple_bind _ _ (fun v0 v t => run_counted cfg v t ∧ v = v0)).
  { intros s Hc. by split. }
  intros v0.
  apply (triple_bind _ _ (fun _ v t =>
           run_counted cfg v0 t ∧
           v = run_expe.set_rewards
                 (run_expe.rewards v0 ++ [run_expe.episode_reward v0]) v0)).
  { apply triple_modify. by intros v t [Hc ->]. }
  intros _.
  apply (triple_bind _ _ (fun _ => run_recorded cfg v0)).
  { apply triple_modify. by intros v t [Hc ->]. }
  intros _.
  apply (triple_bind _ _ (fun _ => run_recorded cfg v0)).
  { apply triple_call; [done|]. intros e v t. apply run_recorded_nearly. }
  intros _.
  apply (triple_bind _ _ (fun _ => run_recorded cfg v0)).
  { apply triple_every; [|intros v t; apply run_recorded_nearly].
    apply (triple_bind _ _ (fun _ => run_recorded cfg v0)).
    - apply triple_emit.
      intros v t ((Hp & He & Hr & Hf) & Hrest).
      split; [|done].
      split; [rewrite pushes_snoc; simpl; lia|].
      split; [done|]. split; [done|]. by apply not_forced_snoc.
    - intros _. apply triple_call; [done|].
      intros e v t. apply run_recorded_nearly. }
  intros _.
  apply (triple_bind _ _ (fun _ => run_recorded cfg v0)).
  { apply triple_every; [|intros v t; apply run_recorded_nearly].
    apply (triple_bind _ _ (fun _ => run_recorded cfg v0)).
    - apply triple_call; [done|].
      intros e v t. apply run_recorded_nearly.
    - intros r. apply (triple_bind _ _ (fun _ => run_recorded cfg v0)).
      + apply triple_modify. by intros v t Hc.
      + intros _. apply triple_call; [done|].
        intros e v t. apply run_recorded_nearly. }
  intros _.
  apply (triple_bind _ _ (fun _ => run_recorded cfg v0)).
  { apply triple_every; [|intros v t; apply run_recorded_nearly].
    apply triple_call; [done|]. intros e v t. apply run_recorded_nearly. }
  intros _. apply triple_modify.
  intros v t ((Hp & He & (Hlen & Hall & Hstep) & Hf) & Hr & Hl & Ht & Hn & Hs).
  repeat split; simpl; rewrite ?Hr, ?Hl, ?Ht, ?Hs, ?length_app; simpl;
    try done; try lia.
  apply Forall_app. split; [done|]. by apply Forall_singleton.
Qed.

Lemma run_final_block_counted :
  triple (run_nearly_counted cfg) (run_expe.final_block I cfg)
         (fun _ => run_nearly_counted cfg)
         (fun _ => run_nearly_counted cfg).
Proof.
  unfold run_expe.final_block.
  apply (triple_bind _ _ (fun _ => run_nearly_counted cfg));
    [by apply triple_call|intros _].
  apply (triple_bind _ _ (fun _ => run_nearly_counted cfg));
    [by intros s Hs|intros v0].
  apply (triple_bind _ _ (fun _ => run_nearly_counted cfg));
    [by apply triple_call|intros _].
  apply (triple_bind _ _ (fun _ => run_nearly_counted cfg));
    [by apply triple_call|intros _].
  apply (triple_bind _ _ (fun _ => run_nearly_counted cfg)).
  { apply triple_emit. intros v t (Hp & He & Hr & Hf).
    split; [rewrite pushes_snoc; simpl; lia|].
    split; [done|]. split; [done|]. by apply not_forced_snoc. }
  intros _.
  apply (triple_bind _ _ (fun _ => run_nearly_counted cfg));
    [by apply triple_call|intros _].
  destruct (run_expe.STARCCM cfg); [by apply triple_call|by apply triple_ret].
Qed.

Lemma run_train_counted :
  triple (fun v t => t = [] ∧ run_expe.step v = 0%Z)
         (run_expe.train I cfg)
         (fun _ => run_nearly_counted cfg)
         (fun _ => run_nearly_counted cfg).
Proof.
  unfold run_expe.train.
  apply (triple_bind _ _ (fun _ v t =>
           t = [] ∧ run_expe.step v = 0%Z ∧
           run_expe.nb_total_steps v = 0%Z)).
  { apply triple_modify. by intros v t [-> Hs]. }
  intros _.
  apply (triple_bind _ _ (fun _ v t =>
           t = [] ∧ run_expe.step v = 0%Z ∧
           run_expe.nb_total_steps v = 0%Z ∧
           run_expe.nb_episodes v = 0%Z)).
  { apply triple_modify. by intros v t (-> & Hs & Hn). }
  intros _.
  apply (triple_bind _ _ (fun _ v t =>
           t = [] ∧ run_expe.step v = 0%Z ∧
           run_expe.nb_total_steps v = 0%Z ∧
           run_expe.nb_episodes v = 0%Z ∧ run_expe.rewards v = [])).
  { apply triple_modify. by intros v t (-> & Hs & Hn & He). }
  intros _.
  apply (triple_bind _ _ (fun _ v t =>
           t = [] ∧ run_expe.step v = 0%Z ∧
           run_expe.nb_total_steps v = 0%Z ∧
           run_expe.nb_episodes v = 0%Z ∧ run_expe.rewards v = [])).
  { apply triple_modify. by intros v t (-> & Hs & Hn & He & Hr). }
  intros _.
  apply (triple_bind _ _ (fun _ => run_counted cfg)).
  { apply triple_modify. intros v t (-> & Hs & Hn & He & Hr).
    repeat split; simpl; rewrite ?Hr, ?Hs; simpl; try done; try lia. }
  intros _. unfold run_expe.guarded.
  apply (triple_finally _ (fun _ => run_nearly_counted cfg)
           (run_nearly_counted cfg)).
  - apply triple_except. unfold run_expe.training_loop.
    eapply triple_conseq;
      [apply triple_for_each, run_episode_counted|done|..].
    + intros ? v t Hc. by apply run_counted_nearly.
    + by intros [|] v t Hc.
  - apply run_final_block_counted.
Qed.

Lemma run_counters (w : run_expe.world I) :
  run_nearly_counted cfg (vars (run_expe.run I cfg w).1)
                     (trace (run_expe.run I cfg w).1).
Proof.
  unfold run_expe.run.
  pose proof (run_train_counted (mkSt w run_expe.init []) (conj eq_refl eq_refl))
    as Hc.
  by destruct (run_expe.train I cfg _) as [s' [[]|e]].
Qed.

(** X16. At the end of a run of the driver of [commons], however it
    ends, [nb_total_steps] is the number of the pushes into the replay
    memory, or one less when an exception came between the last push and
    its count. *)
Theorem X16_run_steps_counted (w : run_expe.world I) :
  let s' := (run_expe.run I cfg w).1 in
  (run_expe.nb_total_steps (vars s') ≤ pushes (trace s')
   ≤ run_expe.nb_total_steps (vars s') + 1)%Z.
Proof. by destruct (run_counters w) as (Hp & _). Qed.

(** X17. At the end of a run of the driver of [commons], however it
    ends, [lenghts] is as long as [rewards] or one shorter, there is a
    length for every episode counted, and at most one reward more than
    episodes counted; every recorded length of an episode lies between 0
    and [MAX_STEPS].  (An exception of a method call finds the two lists
    equally long; the bounds are those that also hold when an interrupt
    falls between the two appends.) *)
Theorem X17_run_episodes_recorded (w : run_expe.world I) :
  let v := vars (run_expe.run I cfg w).1 in
  (length (run_expe.lenghts v) ≤ length (run_expe.rewards v)
   ≤ length (run_expe.lenghts v) + 1)%nat ∧
  (run_expe.nb_episodes v ≤ Z.of_nat (length (run_expe.lenghts v)))%Z ∧
  (Z.of_nat (length (run_expe.rewards v)) ≤ run_expe.nb_episodes v + 1)%Z ∧
  Forall (fun l => (0 ≤ l ≤ Z.max 0 (run_expe.MAX_STEPS cfg))%Z)
         (run_expe.lenghts v).
Proof.
  destruct (run_counters w) as (_ & He & (Hlen & Hall & _) & _).
  cbn zeta. split; [lia|]. split; [lia|]. split; [lia|done].
Qed.

(** X18. Without the CFD coupling the driver of [commons] never forces
    [done]: an episode that is cut by the limit of steps keeps the flag of
    the environment. *)
Theorem X18_run_never_forced (w : run_expe.world I) (k : Z) :
  run_expe.STARCCM cfg = false →
  EvForcedDone k ∉ trace (run_expe.run I cfg w).1.
Proof.
  intros Hstar Hin.
  destruct (run_counters w) as (_ & _ & _ & Hf).
  specialize (Hf Hstar). rewrite Forall_forall in Hf.
  by apply (Hf _ Hin k).
Qed.

End RunCounters.

(** A run of two episodes without the CFD coupling. *)
Lemma X18_run_never_forced_witness :
  EvForcedDone 1 ∉
    Eff.trace (run_expe.run (Examples.commons_world false false)
                  MoreExamples.gym_config 0).1.
Proof. by apply X18_run_never_forced. Defined.

(** ** The flag of the last transition of an episode *)

Section LastPush.
Context (I : run_expe.Interface) (cfg : run_expe.config).
Implicit Types (v : run_expe.locals) (t : list event).

Import Eff Hoare.

Lemma run_round_flagged episode :
  triple (fun v t =>
            last_push_flagged cfg v t ∧ run_expe.guard cfg v = true)
         (run_expe.round I cfg episode)
         (fun _ => last_push_flagged cfg) (fun _ _ _ => True).
Proof.
  intros s [(_ & Hstep & Hlimit) Hguard].
  assert (Hlt : (run_expe.step (vars s) < run_expe.MAX_STEPS cfg)%Z).
  { unfold run_expe.guard in Hguard.
    by apply andb_true_iff in Hguard as [_ Hlt%bool_decide_eq_true]. }
  unfold run_expe.round, run_expe.round_with.
  unfold mbind, M_bind, bind, get, modify, emit, call, mret, M_ret, ret;
    simpl.
  destruct (run_expe.select_action I _ _ _) as [w1 [a|e]]; simpl; [|done].
  unfold last_push_flagged.
  destruct (run_expe.STARCCM cfg) eqn:Hstar; simpl.
  - destruct (run_expe.env_finishCFD I false w1) as [w2 [[]|e]]; simpl;
      [|done].
    destruct (run_expe.env_step I a w2)
      as [w3 [[[next_state reward] done1]|e]]; simpl; [|done].
    destruct (negb done1 && _) eqn:Htest; simpl;
      (destruct (run_expe.memory_push I _ _) as [w4 [[]|e]]; simpl;
       [destruct (run_expe.optimize I w4) as [w5 [[]|e]]; simpl|];
       try done).
    + split; [right; by eexists _, _|]. split; [lia|]. by right.
    + split; [right; by eexists _, _|]. split; [lia|]. intros _.
      apply andb_false_iff in Htest as [Hd|Hs].
      * right. by destruct done1.
      * left. apply bool_decide_eq_false in Hs. lia.
  - destruct (run_expe.env_step I a w1)
      as [w3 [[[next_state reward] done1]|e]]; simpl; [|done].
    destruct (run_expe.memory_push I _ _) as [w4 [[]|e]]; simpl;
      [destruct (run_expe.optimize I w4) as [w5 [[]|e]]; simpl|];
      try done.
    split; [right; by eexists _, _|]. split; [lia|done].
Qed.

(** X19. When an episode loop of the driver of [commons] returns, after
    at least one round, the last recorded call is the push of a
    transition whose flag is the final value of [done]; with the CFD
    coupling this flag is set, be it by the environment or because the
    limit of steps was reached. *)
Theorem X19_last_push_flag episode
    (s : st (run_expe.world I) run_expe.locals) :
  (0 < run_expe.MAX_STEPS cfg)%Z →
  run_expe.step (vars s) = 0%Z →
  run_expe.done (vars s) = false →
  (while (Z.to_nat (run_expe.MAX_STEPS cfg)) (run_expe.guard cfg)
         (run_expe.round I cfg episode) s).2 = Ok tt →
  let s' := (while (Z.to_nat (run_expe.MAX_STEPS cfg)) (run_expe.guard cfg)
                   (run_expe.round I cfg episode) s).1 in
  (∃ t' args,
     trace s' = t' ++ [EvPush args] ∧
     last args = Some (VBool (run_expe.done (vars s')))) ∧
  (run_expe.STARCCM cfg = true → run_expe.done (vars s') = true).
Proof.
  intros Hmax Hstep Hdone Hok.
  pose proof (triple_while (last_push_flagged cfg) (fun _ _ _ => True)
                (Z.to_nat (run_expe.MAX_STEPS cfg)) (run_expe.guard cfg)
                (run_expe.round I cfg episode)
                (run_round_flagged episode) s) as Hinv.
  pose proof (run_expe_while_exits I cfg episode
                (Z.to_nat (run_expe.MAX_STEPS cfg)) s) as Hexit.
  destruct (while _ _ _ s) as [s' [[]|e]]; [|done]. simpl in *.
  destruct Hinv as (Hflag & Hpos & Hlimit).
  { split; [by left|]. split; [lia|]. intros _. left. lia. }
  specialize (Hexit ltac:(lia) s' eq_refl).
  unfold run_expe.guard in Hexit.
  apply andb_false_iff in Hexit as [Hd|Hs].
  - apply negb_false_iff in Hd. split; [|done].
    destruct Hflag as [[_ Hfalse]|Hflag]; [congruence|done].
  - apply bool_decide_eq_false in Hs. split.
    + destruct Hflag as [[Hzero _]|Hflag]; [lia|done].
    + intros Hstar. destruct (Hlimit Hstar); [lia|done].
Qed.

End LastPush.

(** An episode of two steps with the CFD coupling: the environment is not
    done, the limit of steps sets the flag. *)
Lemma X19_last_push_flag_witness :
  run_expe.done
    (Eff.vars
       (Eff.while 2 (run_expe.guard Examples.commons_config)
          (run_expe.round (Examples.commons_world false false)
Examples.commons_config 0)
(Eff.mkSt 0 run_expe.init [])).1) = true.
Proof.
  destruct (X19_last_push_flag (Examples.commons_world false false)
Examples.commons_config 0 (Eff.mkSt 0 run_expe.init []))
as [_ Hdone]; [done|reflexivity|reflexivity|reflexivity|].
by apply Hdone.
Defined.

(** ** [evaluate] of TD3 and of SAC *)

Section MoreHoareRules.
Context {W V : Type}.
Implicit Types (P : V → list event → Prop).
Implicit Types (E : exc → V → list event → Prop).

Import Eff Hoare.

(** A call that always returns has no exceptional outcome. *)
Lemma triple_call_returns {A : Type} P E (Q : A → V → list event → Prop)
    (f : W → W * result A) :
  never_raises f → (∀ a v t, P v t → Q a v t) →
  triple P (call f : M W V A) Q E.
Proof.
  intros Hf HQ s Hs. unfold call.
  destruct (Hf (world s)) as [a Ha].
  destruct (f (world s)) as [w r]; simpl in *. subst r. by apply HQ.
Qed.

(** A call that is not interrupted raises an error if it raises. *)
Lemma triple_call_no_interrupt {A : Type} P E
    (Q : A → V → list event → Prop) (f : W → W * result A) :
  never_interrupted f → (∀ a v t, P v t → Q a v t) →
  (∀ v t, P v t → E Error v t) →
  triple P (call f : M W V A) Q E.
Proof.
  intros Hf HQ HE s Hs. unfold call.
  specialize (Hf (world s)).
  destruct (f (world s)) as [w [a|[|]]]; simpl in *;
    [by apply HQ|done|by apply HE].
Qed.

(** A guarded loop whose rounds decrease a measure that the rounds allowed
    cover leaves with its guard false. *)
Lemma triple_while_variant P E (μ : V → nat) (n : nat) (cond : V → bool)
    (body : M W V unit) :
  (∀ v, cond v = true → 0 < μ v) →
  (∀ k, triple (fun v t => P v t ∧ cond v = true ∧ μ v = k) body
               (fun _ v t => P v t ∧ μ v < k) E) →
  triple (fun v t => P v t ∧ μ v ≤ n) (while n cond body)
         (fun _ v t => P v t ∧ cond v = false) E.
Proof.
  intros Hpos Hb. induction n as [|n IH]; intros s [Hs Hμ]; simpl;
    destruct (cond (vars s)) eqn:Hc; try done.
  - apply Hpos in Hc. lia.
  - unfold bind. specialize (Hb (μ (vars s)) s (conj Hs (conj Hc eq_refl))).
    destruct (body s) as [s1 [a|e]]; [|done].
    apply IH. destruct Hb as [HP Hlt]. split; [done|lia].
Qed.

(** A loop over a list keeps what its rounds keep for the items of the
    list. *)
Lemma triple_for_each_elem {B : Type} P E (xs : list B)
    (body : B → M W V unit) :
  (∀ x, x ∈ xs → triple P (body x) (fun _ => P) E) →
  triple P (for_each xs body) (fun _ => P) E.
Proof.
  induction xs as [|x xs IH]; intros Hb; simpl.
  - by apply triple_ret.
  - apply (triple_bind P E (fun _ => P)).
    + apply Hb, list_elem_of_here.
    + intros _. apply IH. intros y Hy. by apply Hb, list_elem_of_further.
Qed.

(** A loop over a list that is not empty ends as its last round does. *)
Lemma triple_for_each_last {B : Type} P E (G : V → list event → Prop)
    (xs : list B) (body : B → M W V unit) :
  xs ≠ [] →
  (∀ y, y ∈ xs → triple P (body y) (fun _ v t => P v t ∧ G v t) E) →
  triple P (for_each xs body) (fun _ v t => P v t ∧ G v t) E.
Proof.
  destruct xs as [|x xs]; [done|]. intros _ Hb. simpl.
  apply (triple_bind P E (fun _ v t => P v t ∧ G v t)).
  { apply Hb, list_elem_of_here. }
  intros _. apply triple_for_each_elem. intros y Hy.
  eapply triple_conseq;
    [by apply Hb, list_elem_of_further|by intros v t [HP _]|done|done].
Qed.

(** A final block after a body that returned or raised: the outcome is the
    body's, or an exception of the final block. *)
Lemma triple_finally_outcome {A : Type} P E
    (R : A → V → list event → Prop) (ER : exc → V → list event → Prop)
    (Q : A → V → list event → Prop) (body : M W V A) (fin : M W V unit) :
  triple P body R ER →
  (∀ a, triple (R a) fin (fun _ => Q a) E) →
  (∀ e, triple (ER e) fin (fun _ => E e) E) →
  triple P (finally body fin) Q E.
Proof.
  intros Hb Hok Hexc s Hs. unfold finally. specialize (Hb s Hs).
  destruct (body s) as [s1 [a|e]].
  - specialize (Hok a s1 Hb). by destruct (fin s1) as [s2 [[]|e]].
  - specialize (Hexc e s1 Hb). by destruct (fin s1) as [s2 [[]|e']].
Qed.

End MoreHoareRules.

Section TD3Evaluate.
Context (I : TD3_evaluate.Interface) (MAX_STEPS : Z).
Implicit Types (v : TD3_evaluate.locals) (t : list event).

Import Eff Hoare TD3_evaluate.

(** X20: without an episode, [evaluate] of TD3 calls no method of the
    environment; it raises for [n_ep] 0, where it divides by zero, and
    returns 0 for a negative [n_ep]. *)
Theorem X20_TD3_evaluate_no_episode (n_ep : Z) (render : bool)
    (s : st (world I) locals) :
  (n_ep ≤ 0)%Z →
  let out := evaluate I MAX_STEPS n_ep render s in
  Eff.world out.1 = Eff.world s ∧ trace out.1 = trace s ∧
  (n_ep = 0%Z → out.2 = Raise Error) ∧
  ((n_ep < 0)%Z → ∃ q, out.2 = Ok q ∧ q == 0).
Proof.
  intros Hn. unfold evaluate, range.
  replace (Z.to_nat n_ep) with 0%nat by lia. simpl.
  unfold mbind, M_bind, bind, get, modify, raise, mret, M_ret, ret; simpl.
  destruct (decide (n_ep = 0%Z)) as [->|Hne]; simpl.
  - split; [done|]. split; [done|]. split; [done|lia].
  - split; [done|]. split; [done|]. split; [done|].
    intros _. eexists. split; [done|].
    unfold Qdiv. by rewrite Qmult_0_l.
Qed.

Lemma range_elem (n x : Z) : x ∈ range n → (0 ≤ x < n)%Z.
Proof.
  unfold range. intros Hx. apply list_elem_of_fmap in Hx as (k & -> & Hk).
  apply elem_of_seq in Hk. lia.
Qed.

(** The steps that an episode has left. *)
Let steps_left v : nat := Z.to_nat (MAX_STEPS - step v).

Section Returns.
Context (Hreset : never_raises (env_reset I))
        (Haction : ∀ state, never_raises (select_action I state))
        (Hstep : ∀ action, never_raises (env_step I action))
        (Hrender : never_raises (env_render I)).
Context (n : nat) (render : bool).

#[local] Abbreviation sized := (fun v t => length (rewards v) = n).
#[local] Abbreviation never := (fun (_ : exc) v t => False).

Lemma TD3_round_returns (ep : Z) (k : nat) :
  (Z.to_nat ep < n)%nat →
  triple (fun v t => sized v t ∧ guard MAX_STEPS v = true ∧
                     steps_left v = k)
         (round I render ep)
         (fun _ v t => sized v t ∧ (steps_left v < k)%nat) never.
Proof.
  intros Hep s (Hlen & Hguard & Hk).
  unfold round.
  unfold mbind, M_bind, bind, get, modify, call, mret, M_ret, ret; simpl.
  destruct (Haction (state (vars s)) (Eff.world s)) as [a Ha].
  destruct (select_action I _ (Eff.world s)) as [w1 r1]; simpl in Ha.
  subst r1. simpl.
  destruct (Hstep a w1) as [[[next_state r] done1] Hs].
  destruct (env_step I a w1) as [w2 r2]; simpl in Hs. subst r2. simpl.
  destruct (lookup_lt_is_Some_2 (rewards (vars s)) (Z.to_nat ep))
    as [x Hx]; [lia|].
  assert (Hleft : (steps_left (set_step (step (vars s) + 1) (vars s))
                   < k)%nat).
  { unfold guard in Hguard. apply andb_true_iff in Hguard as [_ Hlt].
    apply bool_decide_eq_true in Hlt.
    unfold steps_left in *. simpl. lia. }
  destruct render; simpl.
  - destruct (Hrender w2) as [[] Hr].
    destruct (env_render I w2) as [w3 r3]; simpl in Hr. subst r3.
    rewrite Hx. simpl. by rewrite length_insert.
  - rewrite Hx. simpl. by rewrite length_insert.
Qed.

Lemma TD3_episode_returns (ep : Z) :
  (Z.to_nat ep < n)%nat →
  triple sized (episode I MAX_STEPS render ep)
         (fun _ v t => sized v t ∧ guard MAX_STEPS v = false) never.
Proof.
  intros Hep. unfold episode.
  apply (triple_bind _ _ (fun _ => sized)).
  { by apply triple_call_returns. }
  intros s0.
  do 2 (apply (triple_bind _ _ (fun _ => sized));
        [by apply triple_modify|intros _]).
  apply (triple_bind _ _
           (fun _ v t => sized v t ∧
                         (steps_left v ≤ Z.to_nat MAX_STEPS)%nat)).
  { apply triple_modify. intros v t Hlen. split; [done|].
    unfold steps_left. simpl. lia. }
  intros _. apply (triple_while_variant sized).
  - intros v Hguard. unfold guard in Hguard.
    apply andb_true_iff in Hguard as [_ Hlt].
    apply bool_decide_eq_true in Hlt. unfold steps_left. lia.
  - intros k. by apply TD3_round_returns.
Qed.

Lemma TD3_evaluate_returns (n_ep : Z) :
  (0 < n_ep)%Z → n = Z.to_nat n_ep →
  triple (fun _ _ => True) (evaluate I MAX_STEPS n_ep render)
         (fun _ v t => sized v t ∧ guard MAX_STEPS v = false) never.
Proof.
  intros Hpos Hn. unfold evaluate.
  apply (triple_bind _ _ (fun _ => sized)).
  { apply triple_modify. intros v t _. simpl.
    rewrite length_replicate. done. }
  intros _.
  apply (triple_bind _ _
           (fun _ v t => sized v t ∧ guard MAX_STEPS v = false)).
  { apply (triple_for_each_last sized).
    - unfold range. destruct (Z.to_nat n_ep) eqn:Hz; [lia|done].
    - intros ep Hin. apply TD3_episode_returns.
      apply range_elem in Hin. lia. }
  intros _.
  apply (triple_bind _ _
           (fun _ v t => sized v t ∧ guard MAX_STEPS v = false)).
  { by apply triple_get. }
  intros v0. destruct (decide (n_ep = 0%Z)); [lia|].
  by apply triple_ret.
Qed.

End Returns.

(** X21: with an environment and an actor that always return, [evaluate]
    of TD3 with [n_ep] above 0 returns: [rewards[ep] += r] finds its
    index, there is one sum of rewards for each episode, and the last
    episode has ended with [done] or after [MAX_STEPS] steps. *)
Theorem X21_TD3_evaluate_returns (n_ep : Z) (render : bool)
    (s : st (world I) locals) :
  (0 < n_ep)%Z →
  never_raises (env_reset I) →
  (∀ state, never_raises (select_action I state)) →
  (∀ action, never_raises (env_step I action)) →
  never_raises (env_render I) →
  let out := evaluate I MAX_STEPS n_ep render s in
  (∃ q, out.2 = Ok q) ∧
  length (rewards (vars out.1)) = Z.to_nat n_ep ∧
  (done (vars out.1) = true ∨ (MAX_STEPS ≤ step (vars out.1))%Z).
Proof.
  intros Hpos Hreset Haction Hstep Hrender out.
  pose proof (TD3_evaluate_returns Hreset Haction Hstep Hrender
                (Z.to_nat n_ep) render n_ep Hpos eq_refl s Logic.I) as H.
  fold out in H. destruct out as [s' [q|e]]; [|done]. simpl.
  destruct H as [Hlen Hguard]. split; [by eexists|]. split; [done|].
  unfold guard in Hguard. apply andb_false_iff in Hguard as [Hd|Hs].
  - left. by destruct (done (vars s')).
  - right. apply bool_decide_eq_false in Hs. lia.
Qed.

End TD3Evaluate.

Lemma X20_TD3_evaluate_no_episode_witness :
  let out := TD3_evaluate.evaluate MoreExamples.td3_eval_world 5 0 false
               (Eff.mkSt 7%nat TD3_evaluate.init []) in
  Eff.world out.1 = 7%nat ∧ out.2 = Raise Error.
Proof.
  destruct (X20_TD3_evaluate_no_episode MoreExamples.td3_eval_world 5 0 false
              (Eff.mkSt 7%nat TD3_evaluate.init []))
    as (Hw & _ & Hr & _); [lia|].
  split; [exact Hw|by apply Hr].
Defined.

Lemma X21_TD3_evaluate_returns_witness :
  let out := TD3_evaluate.evaluate MoreExamples.td3_eval_world 2 2 false
               (Eff.mkSt 0%nat TD3_evaluate.init []) in
  (∃ q, out.2 = Ok q) ∧
  length (TD3_evaluate.rewards (Eff.vars out.1)) = 2%nat ∧
  (TD3_evaluate.done (Eff.vars out.1) = true ∨
   (2 ≤ TD3_evaluate.step (Eff.vars out.1))%Z).
Proof.
  apply (X21_TD3_evaluate_returns MoreExamples.td3_eval_world 2 2 false
           (Eff.mkSt 0%nat TD3_evaluate.init [])).
  - lia.
  - intros w. by eexists.
  - intros state w. by eexists.
  - intros action w. by eexists.
  - intros w. by eexists.
Defined.

Section SACEvaluate.
Context (I : SAC_evaluate.Interface) (MAX_STEPS : Z).
Implicit Types (v : SAC_evaluate.locals) (t : list event).

Import Eff Hoare SAC_evaluate.

(** At most [k] episodes have been completed. *)
#[local] Abbreviation completed k :=
  (fun v t => (length (rewards v) ≤ k)%nat).

Lemma SAC_round_rewards render gif i (s : st (world I) locals) :
  rewards (vars (round I render gif i s).1) = rewards (vars s).
Proof.
  unfold round.
  unfold mbind, M_bind, bind, get, modify, call, mret, M_ret, ret; simpl.
  destruct (get_action I _ _) as [w1 [a|e]]; simpl; [|done].
  destruct (env_step I a w1) as [w2 [[[next_state r] done1]|e]]; simpl;
    [|done].
  destruct render; simpl;
    [destruct (env_render I w2) as [w3 [[]|e]]; simpl; [|done]|];
    (destruct (bool_decide (i = 0%Z) && gif); simpl;
     [destruct (env_render_rgb I _) as [w4 [f|e]]; simpl;
      [destruct (append_data I f w4) as [w5 [[]|e]]; simpl|]|]; done).
Qed.

Lemma SAC_episode_completed render gif i k :
  triple (completed k) (episode I MAX_STEPS render gif i)
         (fun _ => completed (S k)) (fun _ => completed (S k)).
Proof.
  unfold episode.
  apply (triple_bind _ _ (fun _ => completed k)).
  { apply triple_call; intros; simpl in *; lia. }
  intros s0.
  do 4 (apply (triple_bind _ _ (fun _ => completed k));
        [by apply triple_modify|intros _]).
  apply (triple_bind _ _ (fun _ => completed k)).
  { apply triple_while. intros s [Hs _].
    pose proof (SAC_round_rewards render gif i s) as Hr.
    destruct (round I render gif i s) as [s' [[]|e]]; simpl in *;
      rewrite Hr; lia. }
  intros _.
  apply (triple_bind _ _ (fun v0 v t => completed k v t ∧ v0 = v)).
  { by apply triple_get. }
  intros v0. apply triple_modify. intros v t [Hk ->]. simpl.
  rewrite length_app. simpl. lia.
Qed.

Lemma SAC_episodes_completed render gif (xs : list Z) k :
  triple (completed k) (for_each xs (episode I MAX_STEPS render gif))
         (fun _ => completed (k + length xs))
         (fun _ => completed (k + length xs)).
Proof.
  revert k. induction xs as [|x xs IH]; intros k; simpl.
  - apply triple_ret. intros v t Hk. lia.
  - apply (triple_bind _ _ (fun _ => completed (S k))).
    + eapply triple_conseq;
      [apply (SAC_episode_completed render gif x k)|done|done|].
      intros e v t Hk. simpl in *. lia.
    + intros _.
      eapply triple_conseq; [apply (IH (S k))|done|..];
        intros ? v t Hk; simpl in *; lia.
Qed.

Lemma length_range (n : Z) : length (range n) = Z.to_nat n.
Proof. unfold range. by rewrite length_fmap, length_seq. Qed.

Section NoInterrupt.
Context (Hwriter : never_interrupted (get_writer I))
        (Hclose : never_interrupted (env_close I))
        (Hwriter_close : never_interrupted (writer_close I)).
Context (n : nat) (gif : bool).

(** An exception is an error, not the user's interrupt. *)
#[local] Abbreviation failed :=
  (fun e v t => e = Error ∧ completed n v t).

Lemma SAC_final_block_outcome (P : locals → list event → Prop) :
  (∀ v t, P v t → completed n v t) →
  triple P (final_block I gif) (fun _ => P) failed.
Proof.
  intros HP. unfold final_block.
  apply (triple_bind _ _ (fun _ => P)).
  { apply triple_call_no_interrupt; [done|done|].
    intros v t Hv. split; [done|by apply (HP v t)]. }
  intros _. destruct gif.
  - apply triple_call_no_interrupt; [done|done|].
    intros v t Hv. split; [done|by apply (HP v t)].
  - by apply triple_ret.
Qed.

Lemma SAC_evaluate_outcome (n_ep : Z) render :
  n = Z.to_nat n_ep →
  triple (fun _ _ => True) (evaluate I MAX_STEPS n_ep render gif)
         (fun q v t => q = score (rewards v) ∧ completed n v t) failed.
Proof.
  intros Hn. unfold evaluate.
  apply (triple_bind _ _ (fun _ => completed 0)).
  { apply triple_modify. intros v t _. simpl. lia. }
  intros _.
  apply (triple_bind _ _ (fun _ => completed 0)).
  { destruct gif.
    - apply triple_call_no_interrupt; [done|done|].
      intros v t Hv. split; [done|simpl in *; lia].
    - by apply triple_ret. }
  intros _.
  apply (triple_bind _ _ (fun _ => completed n)).
  { apply (triple_finally_outcome _ _ (fun _ => completed n) failed).
    - apply triple_except.
      eapply triple_conseq;
        [apply (SAC_episodes_completed render gif (range n_ep) 0)
        |done|..].
      + intros ? v t Hk. rewrite length_range in Hk. simpl in *. lia.
      + intros e v t Hk. rewrite length_range in Hk.
        destruct e; [|split; [done|]]; simpl in *; lia.
    - intros _. by apply SAC_final_block_outcome.
    - intros e. apply SAC_final_block_outcome. by intros v t [_ Hk]. }
  intros _.
  apply (triple_bind _ _ (fun v0 v t => completed n v t ∧ v0 = v)).
  { by apply triple_get. }
  intros v0. apply triple_ret. by intros v t [Hk ->].
Qed.

End NoInterrupt.

(** X22: [evaluate] of SAC does not pass on the user's interrupt of an
    episode: when no interrupt falls into the opening and the closing of
    the writer and of the environment, it returns or raises an error.
    What it returns is the score of the completed episodes, of which
    there are at most [n_ep]. *)
Theorem X22_SAC_evaluate_interrupt (n_ep : Z) (render gif : bool)
    (s : st (world I) locals) :
  never_interrupted (get_writer I) →
  never_interrupted (env_close I) →
  never_interrupted (writer_close I) →
  let out := evaluate I MAX_STEPS n_ep render gif s in
  out.2 ≠ Raise KeyboardInterrupt ∧
  (∀ q, out.2 = Ok q → q = score (rewards (vars out.1))) ∧
  (length (rewards (vars out.1)) ≤ Z.to_nat n_ep)%nat.
Proof.
  intros Hwriter Hclose Hwriter_close out.
  pose proof (SAC_evaluate_outcome Hwriter Hclose Hwriter_close
                (Z.to_nat n_ep) gif n_ep render eq_refl s Logic.I) as H.
  fold out in H. destruct out as [s' [q|e]]; simpl in *.
  - destruct H as [-> Hk]. split; [done|]. split; [|done].
    by intros q [= <-].
  - destruct H as [-> Hk]. split; [done|]. split; [done|done].
Qed.

End SACEvaluate.

Lemma X22_SAC_evaluate_interrupt_witness :
  let out := SAC_evaluate.evaluate MoreExamples.sac_eval_world 5 3 false false
               (Eff.mkSt 0%nat SAC_evaluate.init []) in
  out.2 ≠ Raise KeyboardInterrupt ∧
  (∀ q, out.2 = Ok q →
        q = SAC_evaluate.score (SAC_evaluate.rewards (Eff.vars out.1))) ∧
  (length (SAC_evaluate.rewards (Eff.vars out.1)) ≤ 3)%nat.
Proof.
  apply (X22_SAC_evaluate_interrupt MoreExamples.sac_eval_world 5 3 false
           false (Eff.mkSt 0%nat SAC_evaluate.init [])); by intros w.
Defined.

(** ** Checkpoints of SAC *)

Section SACCheckpoints.
Context {S : SAC_checkpoint.Store}.
Implicit Types (m : SAC_checkpoint.Networks S) (f : SAC_checkpoint.files S).

Import SAC_checkpoint.

#[local] Ltac differ :=
  unfold path_value, path_value_target, path_soft_Q, path_soft_actor;
  intros Heq%String.app_inj; discriminate Heq.

(** X23: on a faithful disk, loading from the folder that a SAC model was
    saved in gives the saved value network, target value network and
    actor.  The second Q network is not part of the checkpoint: both Q
    networks are read from the file of the first. *)
Theorem X23_SAC_load_after_save (folder : string) m m' f :
  faithful S →
  load folder (save folder m f) m'
  = (mkNetworks (value_net m) (target_value_net m) (soft_Q_net1 m)
                (soft_Q_net1 m) (soft_actor m),
     Ok tt).
Proof.
  intros [Hsaved Hother]. unfold load, save.
  repeat (first [rewrite Hsaved | rewrite Hother by differ]).
  done.
Qed.

End SACCheckpoints.

Lemma X23_SAC_load_after_save_witness :
  SAC_checkpoint.load (S := MoreExamples.disk) "runs/a"
    (SAC_checkpoint.save "runs/a"
       (SAC_checkpoint.mkNetworks (S := MoreExamples.disk)
          1%Q 2%Q 3%Q 4%Q 5%Q) ∅)
    (SAC_checkpoint.mkNetworks (S := MoreExamples.disk)
       0%Q 0%Q 0%Q 0%Q 0%Q)
  = (SAC_checkpoint.mkNetworks (S := MoreExamples.disk)
       1%Q 2%Q 3%Q 3%Q 5%Q, Ok tt).
Proof.
  apply (X23_SAC_load_after_save (S := MoreExamples.disk)).
  split; simpl.
  - intros p n f. apply lookup_insert_eq.
  - intros p p' n f Hp. by apply lookup_insert_ne.
Defined.

(** ** The configuration of [commons/run_expe.py] *)

Section LoadConfig.
Import run_expe_config.

(** X24: the configuration that [load_config] returns is one that it
    leaves as it is, and its game is not a name any more: a game given by
    its name [s] has become a mapping whose [id] is [s], so that the
    driver's test for the CFD coupling compares [s].  The other entries of
    the document are unchanged. *)
Theorem X24_load_config_normalises (parsed config : yaml) :
  load_config parsed = Ok config →
  load_config config = Ok config ∧
  (∀ s, subscript config "GAME" ≠ Ok (YStr s)) ∧
  (∀ s, subscript parsed "GAME" = Ok (YStr s) →
        game_id config = Ok (YStr s) ∧
        is_STARCCM config = Ok (bool_decide (s = "STARCCMexternalfiles"))) ∧
  (∀ k, k ≠ "GAME" → subscript config k = subscript parsed k).
Proof.
  unfold load_config, is_STARCCM, game_id.
  destruct parsed as [| | | | |m]; simpl; try discriminate.
  destruct (m !! "GAME") as [game|] eqn:Hgame; simpl; [|discriminate].
  destruct game as [| | |s0| |]; intros [= <-]; simpl;
    rewrite ?lookup_insert_eq, ?Hgame; simpl;
    rewrite ?lookup_singleton_eq; simpl;
    (split; [done|]; split; [done|]; split; [by intros s [= <-]|]);
    try done.
  intros k Hk. by rewrite lookup_insert_ne.
Qed.

End LoadConfig.

Lemma X24_load_config_normalises_witness :
  ∃ config,
    run_expe_config.load_config MoreExamples.named_game = Ok config ∧
    run_expe_config.load_config config = Ok config ∧
    run_expe_config.is_STARCCM config = Ok false.
Proof.
  eexists.
  destruct (X24_load_config_normalises MoreExamples.named_game _ eq_refl)
    as (Hagain & _ & Hgame & _).
  split; [reflexivity|]. split; [exact Hagain|].
  by destruct (Hgame "Pendulum-v0" eq_refl) as [_ ->].
Defined.
